(** * VideoToolbox: the external-process orchestration of
      [compression.py], [audio_fix.py] and [gui_upscale.py]

    A shallow embedding of the three jobs of the repository and of the
    Python built-ins they rely on.

    Conventions of the embedding.
    - Python [int] is [Z]. A finite Python [float] is the rational [Q]
      it stands for: [float()], the conversion of an [int] and each of
      [+], [-], [*] and [/] give the nearest number with a significand
      of 53 bits, ties to the even significand, as binary64 arithmetic
      does. The exponent is not bounded: overflow to infinity and the
      loss of precision below [2^-1022] are not modelled, and the two
      zeros are one. The non-finite values are those [float()] can
      parse. Only the quotient of the two heights of [gui_upscale.py]
      is taken exactly: for a target height below [2^53] its
      truncation is that of the rounded quotient
      ([UpscaleFacts.height_quotient_truncation]).
    - Text is [string]; [\d] is read as an ASCII digit.
    - What the outside world supplies (the prober's output, the lines the
      transcoder writes to standard error, its exit code, the readings of
      the wall clock) is gathered in a record per job; a run is a pure
      function of it and produces the ordered list of observable events
      together with the way the function ended.
    - File names are not computed: the elements of a command line that
      [os.path] derives from the arguments are tokens.
    - Launching a process is assumed to succeed when the directory it
      is to run in is named, and a progress callback and the calls on
      widgets are assumed not to raise.
    - The sources are read as Python 3.12, which line 107 of
      [compression.py] needs. *)

From Stdlib Require Import ZArith QArith Qround Qpower Qabs Lqa String Ascii List Bool Lia.
Import ListNotations.
Local Open Scope string_scope.
Local Open Scope list_scope.
Local Open Scope Z_scope.

(** ** Python built-ins *)

Module Py.

(** [float] values. *)
Inductive pyfloat : Type :=
| Finite (q : Q)
| Inf (negative : bool)
| NaN.

(** Exceptions the jobs can raise. *)
Inductive exn : Type :=
| ValueError
| TypeError
| ZeroDivisionError
| NameError (name : string)
| RuntimeError (code : Z)
| OSError.

(** *** Binary floating point *)

(** [2^k], for any integer [k]. *)
Definition pow2 (k : Z) : Q := (2 ^ k)%Q.

(** The exponent of a positive number: the [k] with
    [2^k <= x < 2^(k+1)]. *)
Definition ilog2 (x : Q) : Z :=
  let k := Z.log2 (Qnum x) - Z.log2 (Zpos (Qden x)) in
  if Qle_bool (pow2 k) x then k else k - 1.

(** The nearest integer, a tie going to the even one. *)
Definition rne (y : Q) : Z :=
  let f := Qfloor y in
  match (y - inject_Z f ?= 1 # 2)%Q with
  | Lt => f
  | Gt => f + 1
  | Eq => if Z.even f then f else f + 1
  end.

(** A positive number rounded to 53 significant bits. *)
Definition nearest_pos (x : Q) : Q :=
  let e := ilog2 x - 52 in
  (inject_Z (rne (x / pow2 e)) * pow2 e)%Q.

(** The float nearest to a rational, in lowest terms. *)
Definition nearest (x : Q) : Q :=
  Qred match (x ?= 0)%Q with
       | Eq => 0
       | Gt => nearest_pos x
       | Lt => - nearest_pos (- x)
       end.

(** The rationals that are floats. *)
Definition is_float (x : Q) : Prop := (nearest x == x)%Q.

(** [x + y], [x - y], [x * y] and [x / y] on floats. The quotient by
    zero, which raises [ZeroDivisionError], is left to the caller. *)
Definition add (x y : Q) : Q := nearest (x + y).
Definition sub (x y : Q) : Q := nearest (x - y).
Definition mul (x y : Q) : Q := nearest (x * y).
Definition truediv (x y : Q) : Q := nearest (x / y).

(** An [int] where a [float] is expected. *)
Definition float_of_int (n : Z) : Q := nearest (inject_Z n).

Definition ltb (x y : Q) : bool := negb (Qle_bool y x).
Definition leb (x y : Q) : bool := Qle_bool x y.

(** [int(x)] on a float: truncation toward zero. *)
Definition int_of_float (x : Q) : Z := Z.quot (Qnum x) (Zpos (Qden x)).

(** [divmod(a, b)] on integers: floor division and its remainder. *)
Definition divmod (a b : Z) : Z * Z := (a / b, a mod b).

(** [min(a, b)]: the second argument is returned only when it is
    strictly smaller than the first. *)
Definition min (a b : Q) : Q := if ltb b a then b else a.

(** *** Characters and digit strings *)

Definition is_digit (c : ascii) : bool :=
  let n := nat_of_ascii c in (48 <=? n)%nat && (n <=? 57)%nat.

Definition digit_val (c : ascii) : Z := Z.of_nat (nat_of_ascii c) - 48.

(** The blanks [int()] and [float()] skip around an ASCII text: the
    space and the characters 9 to 13. *)
Definition is_space (c : ascii) : bool :=
  let n := nat_of_ascii c in
  (n =? 32)%nat || ((9 <=? n)%nat && (n <=? 13)%nat).

Definition lower (c : ascii) : ascii :=
  let n := nat_of_ascii c in
  if (65 <=? n)%nat && (n <=? 90)%nat then ascii_of_nat (n + 32) else c.

Definition all_digits (l : list ascii) : Prop :=
  Forall (fun c => is_digit c = true) l.

(** Value of a list of decimal digits, most significant first. *)
Definition digits_val (ds : list ascii) : Z :=
  fold_left (fun acc c => 10 * acc + digit_val c) ds 0.

Fixpoint lstrip (s : list ascii) : list ascii :=
  match s with
  | c :: r => if is_space c then lstrip r else s
  | [] => []
  end.

Definition strip (s : list ascii) : list ascii :=
  rev (lstrip (rev (lstrip s))).

(** [digitpart ::= digit (["_"] digit)*]: the digits read, underscores
    dropped, and what follows them. *)
Fixpoint digitpart_tail (s : list ascii) : list ascii * list ascii :=
  match s with
  | c :: r =>
      if is_digit c then
        let (ds, r') := digitpart_tail r in (c :: ds, r')
      else if Ascii.eqb c "_" then
        match r with
        | d :: r2 =>
            if is_digit d then
              let (ds, r') := digitpart_tail r2 in (d :: ds, r')
            else ([], s)
        | [] => ([], s)
        end
      else ([], s)
  | [] => ([], [])
  end.

Definition digitpart (s : list ascii) : option (list ascii * list ascii) :=
  match s with
  | c :: r =>
      if is_digit c then
        let (ds, r') := digitpart_tail r in Some (c :: ds, r')
      else None
  | [] => None
  end.

(** An optional sign: [true] for a minus. *)
Definition sign (s : list ascii) : bool * list ascii :=
  match s with
  | c :: r =>
      if Ascii.eqb c "-" then (true, r)
      else if Ascii.eqb c "+" then (false, r)
      else (false, s)
  | [] => (false, [])
  end.

(** *** [int(s)] on a string, base ten *)

Definition int_of_str (s : string) : option Z :=
  let (neg, r) := sign (strip (list_ascii_of_string s)) in
  match digitpart r with
  | Some (ds, []) => Some (if neg then - digits_val ds else digits_val ds)
  | _ => None
  end.

(** *** [float(s)] on a string *)

(** [number ::= [digitpart] "." digitpart | digitpart ["."]]: integer
    digits, fraction digits, rest. *)
Definition number (s : list ascii)
  : option (list ascii * list ascii * list ascii) :=
  match digitpart s with
  | Some (ip, r) =>
      match r with
      | c :: r1 =>
          if Ascii.eqb c "." then
            match digitpart r1 with
            | Some (fp, r2) => Some (ip, fp, r2)
            | None => Some (ip, [], r1)
            end
          else Some (ip, [], r)
      | [] => Some (ip, [], [])
      end
  | None =>
      match s with
      | c :: r1 =>
          if Ascii.eqb c "." then
            match digitpart r1 with
            | Some (fp, r2) => Some ([], fp, r2)
            | None => None
            end
          else None
      | [] => None
      end
  end.

(** [exponent ::= ("e" | "E") [sign] digitpart], up to the end of the
    text; no exponent at all counts as zero. *)
Definition exponent (s : list ascii) : option Z :=
  match s with
  | [] => Some 0
  | c :: r =>
      if Ascii.eqb (lower c) "e" then
        let (neg, r1) := sign r in
        match digitpart r1 with
        | Some (ds, []) => Some (if neg then - digits_val ds else digits_val ds)
        | _ => None
        end
      else None
  end.

(** [mantissa * 10 ^ e] as a rational. *)
Definition scale10 (mantissa e : Z) : Q :=
  if 0 <=? e then inject_Z (mantissa * 10 ^ e)
  else Qmake mantissa (Z.to_pos (10 ^ (- e))).

Definition special (s : list ascii) : option pyfloat :=
  let l := string_of_list_ascii (map lower s) in
  if String.eqb l "inf" || String.eqb l "infinity" then Some (Inf false)
  else if String.eqb l "nan" then Some NaN
  else None.

Definition negate (x : pyfloat) : pyfloat :=
  match x with
  | Finite q => Finite (- q)
  | Inf b => Inf (negb b)
  | NaN => NaN
  end.

(** [float(s)]: the float nearest to the decimal number written;
    [None] stands for the [ValueError] of a text that is not a float
    literal. *)
Definition float_of_str (s : string) : option pyfloat :=
  let (neg, r) := sign (strip (list_ascii_of_string s)) in
  let signed (x : pyfloat) := if neg then negate x else x in
  match special r with
  | Some x => Some (signed x)
  | None =>
      match number r with
      | Some (ip, fp, r1) =>
          match exponent r1 with
          | Some e =>
              Some (signed (Finite (nearest
                                      (scale10 (digits_val (ip ++ fp))
                                               (e - Z.of_nat (length fp))))))
          | None => None
          end
      | None => None
      end
  end.

(** *** Text search *)

(** [needle in s]. *)
Fixpoint contains (needle s : string) : bool :=
  String.prefix needle s
  || match s with
     | String _ r => contains needle r
     | EmptyString => false
     end.

(** The longest prefix of digits, and the rest. *)
Fixpoint span_digits (s : string) : string * string :=
  match s with
  | String c r =>
      if is_digit c then
        let (ds, r') := span_digits r in (String c ds, r')
      else (EmptyString, s)
  | EmptyString => (EmptyString, EmptyString)
  end.

Definition drop_prefix (p s : string) : option string :=
  if String.prefix p s
  then Some (substring (String.length p) (String.length s - String.length p) s)
  else None.

(** [\d+] followed by the character [sep]: the digits and what follows
    the separator. Every digit has to be taken, since the separator is
    not a digit. *)
Definition digits_then (sep : ascii) (s : string) : option (string * string) :=
  let (ds, r) := span_digits s in
  match ds, r with
  | String _ _, String c r' => if Ascii.eqb c sep then Some (ds, r') else None
  | _, _ => None
  end.

(** The pattern [time=(\d+):(\d+):(\d+\.\d+)] matched at the start of
    [s]: the three groups, the last one as integer and fraction digits. *)
Definition match_time_here (s : string)
  : option (string * string * (string * string)) :=
  match drop_prefix "time=" s with
  | Some r =>
      match digits_then ":" r with
      | Some (h, r1) =>
          match digits_then ":" r1 with
          | Some (m, r2) =>
              match digits_then "." r2 with
              | Some (si, r3) =>
                  match span_digits r3 with
                  | (String c sf, _) => Some (h, m, (si, String c sf))
                  | (EmptyString, _) => None
                  end
              | None => None
              end
          | None => None
          end
      | None => None
      end
  | None => None
  end.

(** [re.search(r'time=(\d+):(\d+):(\d+\.\d+)', s)]: the leftmost match. *)
Fixpoint search_time (s : string)
  : option (string * string * (string * string)) :=
  match match_time_here s with
  | Some g => Some g
  | None =>
      match s with
      | String _ r => search_time r
      | EmptyString => None
      end
  end.

(** [int(h)] for a group matched by [\d+]. *)
Definition int_of_digits (ds : string) : Z :=
  digits_val (list_ascii_of_string ds).

(** [float(s)] for a group matched by [\d+\.\d+]. *)
Definition float_of_fixed (ip fp : string) : Q :=
  nearest (Qmake (digits_val (list_ascii_of_string (String.append ip fp)))
                 (Z.to_pos (10 ^ Z.of_nat (String.length fp)))).

End Py.

(** ** Observable behaviour of a run *)

Module Run.

(** File names derived from the arguments with [os.path]. *)
Inductive path : Type :=
| Video_name | Sub_filename | Output_name      (* compression.py *)
| Abs_path | Output_file                       (* audio_fix.py *)
| Filepath | Frame_pattern | Frames_dir | Frames_up_dir
| Upscaled_pattern | Output_video | Exe_path.  (* gui_upscale.py *)

(** One element of a command line. *)
Inductive arg : Type :=
| Lit (s : string)
| File (p : path)
| Kbps (k : Z)             (* f"{video_bitrate_kbps}k" *)
| Str (n : Z)              (* str(n) *)
| Subtitles_filter.        (* f"subtitles={sub_filename}" *)

(** The lines written with [print], one constructor per statement. *)
Inductive message : Type :=
| Duration_unknown_aborting (got : string)
| Audio_bitrate_default
| Audio_bitrate_unexpected (got : string)
| Duration_is (d : Py.pyfloat)
| Audio_bitrate_is (bps : Z)
| Target_video_bitrate (kbps : Z)
| Running_ffmpeg (sub_option : string)
| Command (cmd : list arg)
| Blank
| Compression_finished
| Compression_failed
| Duration_unknown (got : string)
| Running_audio_fix
| Audio_fix_completed
| Extracting_frames
| Extracting_progress (nb_frames : Z)
| Frame_extraction_failed
| Upscaling_frames
| Exe_not_found
| Upscale_command (cmd : list arg)
| Upscale_failed
| Upscale_failed_command (cmd : list arg)
| Upscale_failed_stdout
| Upscale_failed_stderr
| Recomposing
| Recomposing_progress (n_upscaled : Z)
| Recompose_command (cmd : list arg)
| Recomposition_failed
| Upscaled_video_saved.

Inductive event : Type :=
| Print (m : message)
| Popen (cmd : list arg)
(** [gui_progress(percent, mins, secs)] *)
| Gui_progress (percent : Q) (mins secs : option Z)
(** [progress_win.after(0, update_gui, cur_time, percent, mins, secs)] *)
| After_update_gui (cur_time : Q) (percent : Z) (mins secs : option Z)
(** [progress_win.after(0, finalize_gui)]: the window is set to 100% *)
| After_finalize_gui
(** the progress line redrawn in place on the terminal *)
| Cli_bar (percent : Q) (mins secs : Z)
(** an exception that ends a thread: reported by [threading], not
    propagated to the thread that joins it *)
| Excepthook (e : Py.exn).

Inductive outcome (A : Type) : Type :=
| Returned (a : A)
| Raised (e : Py.exn).
Arguments Returned {A} a.
Arguments Raised {A} e.

(** A run: the events in order, and how it ended. *)
Record run (A : Type) : Type := Build_run { trace : list event; result : outcome A }.
Arguments Build_run {A} trace result.
Arguments trace {A} r.
Arguments result {A} r.

Definition ret {A} (a : A) : run A := Build_run [] (Returned a).
Definition raise {A} (e : Py.exn) : run A := Build_run [] (Raised e).
Definition emit (evs : list event) : run unit := Build_run evs (Returned tt).
Definition print (m : message) : run unit := emit [Print m].

Definition bind {A B} (m : run A) (k : A -> run B) : run B :=
  match result m with
  | Returned a => let r := k a in Build_run (trace m ++ trace r) (result r)
  | Raised e => Build_run (trace m) (Raised e)
  end.

(** [try: m except Exception: pass] *)
Definition swallow (m : run unit) : run unit := Build_run (trace m) (Returned tt).

(** A thread body run to its end and joined: its exception, if any,
    goes to the thread's hook and the joining thread goes on. *)
Definition in_thread (m : run unit) : run unit :=
  match result m with
  | Returned _ => m
  | Raised e => Build_run (trace m ++ [Excepthook e]) (Returned tt)
  end.

Module Notations.
Notation "x <- m ;; k" := (bind m (fun x => k))
  (at level 61, m at next level, right associativity).
Notation "m ;; k" := (bind m (fun _ => k))
  (at level 61, right associativity).
End Notations.

End Run.

Import Run.Notations.

(** ** compression.py *)

Module Compression.
Import Py Run.

(** What the outside world supplies to one call of [run_compression]. *)
Record world : Type := {
  duration_str : string;         (* output of the duration probe *)
  audio_bitrate_str : string;    (* output of the audio bit-rate probe *)
  stderr_reads : list string;    (* results of [proc.stderr.readline()]
                                    while [proc.poll()] is [None] *)
  returncode : Z;                (* exit code of the transcoder *)
  clock : nat -> Q;              (* [clock k] is the [k]-th [time.time()] *)
  winfo_exists : bool;           (* the progress window is still there
                                    when the run ends *)
  video_dir : string             (* [os.path.dirname(file_path)], empty
                                    for a bare file name *)
}.

(** Lines 40-46: [None] is the [except] branch. *)
Definition probe_duration (duration_str : string) : option pyfloat :=
  match float_of_str duration_str with
  | Some (Finite d) => if leb d 0 then None else Some (Finite d)
  | Some (Inf true) => None
  | Some x => Some x
  | None => None
  end.

(** Lines 54-62. *)
Definition probe_audio_bitrate (audio_bitrate_str : string) : run Z :=
  if String.eqb audio_bitrate_str ""
     || String.eqb audio_bitrate_str "N/A"
     || String.eqb audio_bitrate_str "0"
  then print Audio_bitrate_default ;; ret 128000
  else
    match int_of_str audio_bitrate_str with
    | Some b => ret b
    | None => print (Audio_bitrate_unexpected audio_bitrate_str) ;; ret 128000
    end.

(** Lines 68-72, for a finite duration: eight float operations, one
    after the other. *)
Definition target_bits (max_size_gb : Q) : Q :=
  mul (mul (mul (mul max_size_gb 1024) 1024) 1024) 8.
Definition audio_bits_total (audio_bitrate : Z) (duration : Q) : Q :=
  mul (float_of_int audio_bitrate) duration.
Definition video_bits_total (max_size_gb : Q) (audio_bitrate : Z) (duration : Q) : Q :=
  sub (target_bits max_size_gb) (audio_bits_total audio_bitrate duration).
Definition video_bitrate (max_size_gb : Q) (audio_bitrate : Z) (duration : Q) : Q :=
  truediv (video_bits_total max_size_gb audio_bitrate duration) duration.
Definition video_bitrate_kbps (max_size_gb : Q) (audio_bitrate : Z) (duration : Q) : Z :=
  int_of_float (truediv (video_bitrate max_size_gb audio_bitrate duration) 1000).

(** With an infinite or undefined duration the quotient of line 71 is
    not a number, and [int] refuses it. *)
Definition bitrate_calculation (max_size_gb : Q) (audio_bitrate : Z)
           (duration : pyfloat) : run (Q * Z) :=
  match duration with
  | Finite d => ret (d, video_bitrate_kbps max_size_gb audio_bitrate d)
  | _ => raise ValueError
  end.

(** [sub_file] as a condition. *)
Definition truthy (s : option string) : bool :=
  match s with
  | Some (String _ _) => true
  | _ => false
  end.

Definition encode_args (kbps : Z) : list arg :=
  [Lit "-c:v"; Lit "libx264"; Lit "-b:v"; Kbps kbps;
   Lit "-preset"; Lit "medium";
   Lit "-c:a"; Lit "aac"; Lit "-ac"; Lit "2"; Lit "-ar"; Lit "48000";
   Lit "-b:a"; Lit "192k";
   Lit "-movflags"; Lit "+faststart"].

(** Lines 83-108. [None]: the list holds Python's [None] where the
    subtitle file name should be. *)
Definition ffmpeg_cmd (sub_option : string) (sub_file : option string)
           (kbps : Z) : option (list arg) :=
  if String.eqb sub_option "soft" then
    if truthy sub_file then
      Some ([Lit "ffmpeg"; Lit "-i"; File Video_name;
             Lit "-i"; File Sub_filename;
             Lit "-c:s"; Lit "mov_text";
             Lit "-map"; Lit "0:v"; Lit "-map"; Lit "0:a"; Lit "-map"; Lit "1:s"]
            ++ encode_args kbps ++ [File Output_name; Lit "-y"])
    else None
  else
    Some ([Lit "ffmpeg"; Lit "-i"; File Video_name] ++ encode_args kbps
          ++ (if String.eqb sub_option "hard" && truthy sub_file
              then [Lit "-vf"; Subtitles_filter] else [])
          ++ [File Output_name; Lit "-y"]).

(** Line 111: [" ".join] raises on a list that holds [None]. *)
Definition print_command (cmd : option (list arg)) : run (list arg) :=
  match cmd with
  | Some c => print (Command c) ;; ret c
  | None => raise TypeError
  end.

Section Supervisor.
(** The duration the probe gave: finite and above zero, or lines 40-46
    and 64-72 have ended the call before. *)
Variable duration : Q.
Variable gui_progress : bool.
Variable clock : nat -> Q.
Variable start_time : Q.

(** Line 203: the hours and minutes are added as integers, and their
    sum to the seconds as a float. *)
Definition cur_time_of (g : string * string * (string * string)) : Q :=
  let '(h, m, (si, sf)) := g in
  add (float_of_int (int_of_digits h * 3600 + int_of_digits m * 60))
      (float_of_fixed si sf).

(** Line 205. *)
Definition percent_of (cur_time : Q) : Z :=
  Z.min 100 (int_of_float (mul (truediv cur_time duration) 100)).

(** Lines 207-212. *)
Definition eta (cur_time : Q) (percent : Z) (elapsed : Q) : option Z * option Z :=
  if ltb 0 cur_time && (percent <? 100) then
    let est_total := truediv elapsed (truediv cur_time duration) in
    let remaining := sub est_total elapsed in
    let (mins, secs) := divmod (int_of_float remaining) 60 in
    (Some mins, Some secs)
  else (None, None).

Definition or_zero (x : option Z) : Z :=
  match x with Some v => v | None => 0 end.

(** Lines 213-221. *)
Definition report (cur_time : Q) (percent : Z) (mins secs : option Z) : list event :=
  if gui_progress then [Gui_progress (inject_Z percent) mins secs]
  else [After_update_gui cur_time percent mins secs;
        Cli_bar (inject_Z percent) (or_zero mins) (or_zero secs)].

(** Lines 198-221: one line of standard error; [tick] counts the
    readings of the clock so far. *)
Definition on_line (line : string) (tick : nat) : list event * nat :=
  if contains "time=" line then
    match search_time line with
    | Some g =>
        let cur_time := cur_time_of g in
        let percent := percent_of cur_time in
        let elapsed := sub (clock tick) start_time in
        let (mins, secs) := eta cur_time percent elapsed in
        (report cur_time percent mins secs, S tick)
    | None => ([], tick)
    end
  else ([], tick).

(** Lines 192-221. The list is over when [readline] returns an empty
    text and [poll] reports the exit; an empty text before that is
    the [continue] of line 197. *)
Fixpoint read_loop (reads : list string) (tick : nat) : list event :=
  match reads with
  | [] => []
  | line :: rest =>
      if String.eqb line "" then read_loop rest tick
      else let (evs, tick') := on_line line tick in evs ++ read_loop rest tick'
  end.

(** Lines 223-235. *)
Definition set_to_100 : list event :=
  if gui_progress then [Gui_progress 100 (Some 0) (Some 0)]
  else [After_finalize_gui; Cli_bar 100 0 0].

End Supervisor.

(** Line 188: the process is to run in [video_dir]; a directory
    without a name cannot be entered, and nothing is launched. *)
Definition popen (w : world) (cmd : list arg) : run unit :=
  if String.eqb (video_dir w) "" then raise OSError else emit [Popen cmd].

(** Lines 183-239. *)
Definition run_ffmpeg (w : world) (duration : Q) (gui_progress : bool)
           (cmd : list arg) : run unit :=
  popen w cmd ;;
  let start_time := clock w 0%nat in
  emit (read_loop duration gui_progress (clock w) start_time (stderr_reads w) 1) ;;
  emit (set_to_100 gui_progress) ;;
  if returncode w =? 0 then print Compression_finished
  else print Compression_failed.

(** Lines 244-252. *)
Definition run_ffmpeg_and_finalize (w : world) (duration : Q)
           (cmd : list arg) : run unit :=
  run_ffmpeg w duration false cmd ;;
  if winfo_exists w then emit [After_finalize_gui] else ret tt.

Definition run_compression (w : world) (sub_option : string)
           (sub_file : option string) (max_size_gb : Q)
           (gui_progress : bool) : run unit :=
  match probe_duration (duration_str w) with
  | None => print (Duration_unknown_aborting (duration_str w))
  | Some duration =>
      audio_bitrate <- probe_audio_bitrate (audio_bitrate_str w) ;;
      print (Duration_is duration) ;;
      print (Audio_bitrate_is audio_bitrate) ;;
      dk <- bitrate_calculation max_size_gb audio_bitrate duration ;;
      let (d, kbps) := (dk : Q * Z) in
      print (Target_video_bitrate kbps) ;;
      print (Running_ffmpeg sub_option) ;;
      cmd <- print_command (ffmpeg_cmd sub_option sub_file kbps) ;;
      print Blank ;;
      if gui_progress then run_ffmpeg w d true cmd
      else in_thread (run_ffmpeg_and_finalize w d cmd)
  end.

End Compression.

(** ** audio_fix.py *)

Module AudioFix.
Import Py Run.

Record world : Type := {
  duration_str : string;         (* output of the duration probe *)
  stderr_reads : list string;    (* results of [proc.stderr.readline()]
                                    while [proc.poll()] is [None] *)
  returncode : Z;                (* exit code of the transcoder *)
  clock : nat -> Q               (* [clock k] is the [k]-th [time.time()] *)
}.

(** Lines 116-122: [None] is the [duration = None] of the [except]
    branch. *)
Definition probe_duration (duration_str : string) : run (option pyfloat) :=
  let unknown := print (Duration_unknown duration_str) ;; ret None in
  match float_of_str duration_str with
  | Some (Finite d) => if leb d 0 then unknown else ret (Some (Finite d))
  | Some (Inf true) => unknown
  | Some x => ret (Some x)
  | None => unknown
  end.

(** Lines 125-135. *)
Definition ffmpeg_cmd (audio_channels sample_rate : Z) (audio_bitrate : string)
  : list arg :=
  [Lit "ffmpeg"; Lit "-i"; File Abs_path;
   Lit "-c:v"; Lit "copy";
   Lit "-c:a"; Lit "aac";
   Lit "-ac"; Str audio_channels;
   Lit "-ar"; Str sample_rate;
   Lit "-b:a"; Lit audio_bitrate;
   Lit "-movflags"; Lit "+faststart";
   File Output_file;
   Lit "-y"].

(** [duration] as a condition: [None] and zero are false. *)
Definition known (duration : option pyfloat) : bool :=
  match duration with
  | None => false
  | Some (Finite d) => negb (Qeq_bool d 0)
  | Some _ => true
  end.

Section Supervisor.
Variable duration : option pyfloat.
Variable gui_progress : bool.
Variable clock : nat -> Q.

(** Line 164. *)
Definition current_time_of (g : string * string * (string * string)) : Q :=
  let '(h, m, (si, sf)) := g in
  add (float_of_int (int_of_digits h * 3600 + int_of_digits m * 60))
      (float_of_fixed si sf).

(** Line 167: [min(100, (current_time / duration) * 100)]. A finite
    time over an infinite duration is zero; with an undefined
    duration the product is not smaller than 100, so [min] keeps
    100. *)
Definition percent_of (d : pyfloat) (current_time : Q) : Q :=
  match d with
  | Finite d => min 100 (mul (truediv current_time d) 100)
  | Inf _ => min 100 0
  | NaN => 100
  end.

(** Lines 169-174. *)
Definition eta (current_time percent elapsed : Q) : run (Z * Z) :=
  if ltb 0 current_time && ltb percent 100 then
    if Qeq_bool (truediv percent 100) 0 then raise ZeroDivisionError
    else
      let est_total := truediv elapsed (truediv percent 100) in
      let remaining := sub est_total elapsed in
      ret (divmod (int_of_float remaining) 60)
  else ret (0, 0).

(** Lines 175-186. *)
Definition report (percent : Q) (mins secs : Z) : run unit :=
  if gui_progress then swallow (emit [Gui_progress percent (Some mins) (Some secs)])
  else emit [Cli_bar percent mins secs].

(** Lines 165-168: the two readings of the clock. *)
Definition start_of (start_time : option Q) (tick : nat) : Q * nat :=
  match start_time with
  | None => (clock tick, S tick)
  | Some t => (t, tick)
  end.

Definition elapsed_of (start_time : Q) (tick : nat) : Q * nat :=
  if negb (Qeq_bool start_time 0) then (sub (clock tick) start_time, S tick)
  else (0%Q, tick).

(** Lines 158-186: one line of standard error that holds a time
    stamp, with a duration [d] that counts as true. *)
Definition on_sample (d : pyfloat) (g : string * string * (string * string))
           (start_time : option Q) (tick : nat) : run (Q * nat) :=
  let current_time := current_time_of g in
  let (start, tick1) := start_of start_time tick in
  let percent := percent_of d current_time in
  let (elapsed, tick2) := elapsed_of start tick1 in
  ms <- eta current_time percent elapsed ;;
  report percent (fst ms) (snd ms) ;;
  ret (start, tick2).

(** Line 158: [duration] when it counts as true. *)
Definition usable : option pyfloat :=
  match duration with
  | Some (Finite d) => if Qeq_bool d 0 then None else Some (Finite d)
  | other => other
  end.

(** Lines 152-186. *)
Fixpoint read_loop (reads : list string) (start_time : option Q) (tick : nat)
  : run unit :=
  match reads with
  | [] => ret tt
  | line :: rest =>
      if String.eqb line "" then read_loop rest start_time tick
      else
        match (if contains "time=" line then usable else None),
              search_time line with
        | Some d, Some g =>
            st <- on_sample d g start_time tick ;;
            read_loop rest (Some (fst st)) (snd st)
        | _, _ => read_loop rest start_time tick
        end
  end.

(** Lines 188-191. *)
Definition finish_bar : run unit :=
  if negb gui_progress && known duration then emit [Cli_bar 100 0 0]
  else ret tt.

End Supervisor.

(** Lines 140-195. *)
Definition run_ffmpeg_and_report (w : world) (duration : option pyfloat)
           (gui_progress : bool) (cmd : list arg) : run unit :=
  emit [Popen cmd] ;;
  read_loop duration gui_progress (clock w) (stderr_reads w) None 0%nat ;;
  finish_bar duration gui_progress ;;
  if returncode w =? 0 then print Audio_fix_completed
  else raise (RuntimeError (returncode w)).

Definition run_audio_fix (w : world) (audio_channels sample_rate : Z)
           (audio_bitrate : string) (gui_progress : bool) : run unit :=
  duration <- probe_duration (duration_str w) ;;
  let cmd := ffmpeg_cmd audio_channels sample_rate audio_bitrate in
  print Running_audio_fix ;;
  print (Command cmd) ;;
  if gui_progress then run_ffmpeg_and_report w duration true cmd
  else in_thread (run_ffmpeg_and_report w duration false cmd).

End AudioFix.

(** ** gui_upscale.py *)

Module Upscale.
Import Py Run.

(** What the outside world supplies to one call of [run_upscale]. The
    redrawing of the progress widgets and of the [tqdm] bars is not
    part of the events. *)
Record world : Type := {
  use_tqdm : bool;                   (* [tqdm] can be imported *)
  nb_frames : option Z;              (* frame count of the probe, [None]
                                        when it raises *)
  extract_returncode : Z;            (* exit code of the extraction *)
  exe_is_file : bool;                (* the upscaler is in [Tool/] *)
  resolution : option (Z * Z);       (* [get_video_resolution(filepath)] *)
  upscale_returncode : Z;            (* exit code of the upscaler *)
  n_upscaled : Z;                    (* upscaled frames found on disk *)
  recompose_returncode : Z           (* exit code of the recomposition *)
}.

(** The same call, the upscaler ending with another exit code. *)
Definition with_upscale_returncode (w : world) (code : Z) : world :=
  {| use_tqdm := use_tqdm w;
     nb_frames := nb_frames w;
     extract_returncode := extract_returncode w;
     exe_is_file := exe_is_file w;
     resolution := resolution w;
     upscale_returncode := code;
     n_upscaled := n_upscaled w;
     recompose_returncode := recompose_returncode w |}.

(** Names bound at module level: lines 1-6 and the four [def]s. *)
Definition module_globals : list string :=
  ["subprocess"; "tk"; "filedialog"; "messagebox"; "os"; "cv2";
   "apply_modern_theme"; "create_styled_frame"; "create_styled_label";
   "create_styled_button";
   "get_video_resolution"; "upscale_resolution_choices";
   "run_video_upscale_gui"; "run_upscale"].

(** Names bound in the body of [run_upscale]: parameters, assignment
    targets, imports, [with ... as] targets and nested [def]s. *)
Definition run_upscale_locals : list string :=
  ["filepath"; "w"; "h"; "outdir";
   "video_name"; "frames_dir"; "frames_up_dir"; "output_video";
   "tqdm"; "use_tqdm"; "sp"; "probe_cmd"; "nb_frames"; "extract_cmd";
   "pbar"; "proc"; "line"; "current"; "res"; "err";
   "tool_dir"; "exe_path"; "model_name"; "orig_width"; "orig_height";
   "scale"; "up_cmd"; "frame_files"; "n_frames";
   "threading"; "time"; "tk"; "ttk";
   "progress_root"; "progress_label"; "progress_var"; "progress_bar";
   "eta_label"; "upscale_thread"; "process_queue"; "t";
   "upscaled_files"; "n_upscaled"; "recompose_cmd"].

Definition upscale_thread_locals : list string :=
  ["start_time"; "proc"; "out_files"; "done"; "elapsed"; "rate"; "eta";
   "eta_str"; "out"; "err"].

Definition process_queue_locals : list string := ["msg"].

(** The functions, types and constants of Python's [builtins] module
    (its other names are exception classes, capitalised). *)
Definition builtins : list string :=
  ["abs"; "aiter"; "all"; "anext"; "any"; "ascii"; "bin"; "bool";
   "breakpoint"; "bytearray"; "bytes"; "callable"; "chr"; "classmethod";
   "compile"; "complex"; "copyright"; "credits"; "delattr"; "dict"; "dir";
   "divmod"; "enumerate"; "eval"; "exec"; "exit"; "filter"; "float";
   "format"; "frozenset"; "getattr"; "globals"; "hasattr"; "hash"; "help";
   "hex"; "id"; "input"; "int"; "isinstance"; "issubclass"; "iter"; "len";
   "license"; "list"; "locals"; "map"; "max"; "memoryview"; "min"; "next";
   "object"; "oct"; "open"; "ord"; "pow"; "print"; "property"; "quit";
   "range"; "repr"; "reversed"; "round"; "set"; "setattr"; "slice";
   "sorted"; "staticmethod"; "str"; "sum"; "super"; "tuple"; "type";
   "vars"; "zip"; "None"; "True"; "False"; "Ellipsis"; "NotImplemented";
   "Exception"; "ImportError"].

Definition bound_in (scope : list string) (x : string) : bool :=
  existsb (String.eqb x) scope.

(** Reading the name [x] inside a function nested in [run_upscale]:
    the function's own names, those of [run_upscale], the module's,
    the built-ins; otherwise [NameError]. *)
Definition load (locals : list string) (x : string) : run unit :=
  if bound_in locals x || bound_in run_upscale_locals x
     || bound_in module_globals x || bound_in builtins x
  then ret tt
  else raise (NameError x).

(** Reading the name [x] in the body of [run_upscale] itself. *)
Definition load_here (x : string) : run unit := load [] x.

(** [try: m except <class>: ...]: the handler receives the exception. *)
Definition try_except {A} (m : run A) (handler : exn -> run A) : run A :=
  match result m with
  | Returned _ => m
  | Raised e => Build_run (trace m) (Returned tt) ;; handler e
  end.

(** Lines 135-138. *)
Definition extract_cmd : list arg :=
  [Lit "ffmpeg"; Lit "-i"; File Filepath; Lit "-qscale:v"; Lit "1";
   File Frame_pattern].

(** Lines 174-180. *)
Definition scale_factor (h : Z) (orig_height : option Z) : Z :=
  match orig_height with
  | None => 2
  | Some oh =>
      if oh =? 0 then 2
      else
        let scale := int_of_float (inject_Z h / inject_Z oh) + 1 in
        if scale <? 2 then 2 else scale
  end.

(** Lines 181-188. *)
Definition up_cmd (scale : Z) : list arg :=
  [File Exe_path;
   Lit "-i"; File Frames_dir;
   Lit "-o"; File Frames_up_dir;
   Lit "-n"; Lit "realesrgan-x4plus";
   Lit "-s"; Str scale;
   Lit "-f"; Lit "jpg"].

(** Lines 276-284. *)
Definition recompose_cmd : list arg :=
  [Lit "ffmpeg";
   Lit "-i"; File Upscaled_pattern;
   Lit "-i"; File Filepath;
   Lit "-map"; Lit "0:v"; Lit "-map"; Lit "1:a";
   Lit "-c:v"; Lit "libx264"; Lit "-crf"; Lit "18"; Lit "-preset"; Lit "slow";
   Lit "-c:a"; Lit "copy";
   File Output_video].

(** A count as a condition. *)
Definition nonzero (n : option Z) : bool :=
  match n with
  | Some k => negb (k =? 0)
  | None => false
  end.

(** The two threads of a call: the caller's, whose result is that of
    [run_upscale], and the one started at line 265, if any. *)
Record threads : Type := {
  main : run bool;
  worker : option (run unit)
}.

(** Lines 116-159: the first stage, up to the exit of the
    transcoder. *)
Definition extraction (w : world) : run unit :=
  print Extracting_frames ;;
  (if use_tqdm w && nonzero (nb_frames w) then
     print (Extracting_progress (match nb_frames w with Some n => n | None => 0 end))
   else ret tt) ;;
  emit [Popen extract_cmd].

(** Lines 209-243. *)
Definition upscale_thread (w : world) (scale : Z) : run unit :=
  emit [Popen (up_cmd scale)] ;;
  if negb (upscale_returncode w =? 0) then
    print Upscale_failed ;;
    print (Upscale_failed_command (up_cmd scale)) ;;
    print Upscale_failed_stdout ;;
    print Upscale_failed_stderr ;;
    load upscale_thread_locals "progress_queue"
  else
    load upscale_thread_locals "progress_queue".

Section Queue.
(** What [process_queue] does with the messages once the name
    [progress_queue] resolves, and the value of
    [upscale_result["success"] is False] once [upscale_result]
    resolves: both depend on how the worker and the event loop
    interleave, and are left open. *)
Variable drain : run unit.
Variable success_is_False : bool.

(** Lines 246-262. The class of the [except] clause is looked up
    when an exception reaches it; [queue.Empty] is the only one it
    stops. *)
Definition process_queue : run unit :=
  try_except
    (load process_queue_locals "progress_queue" ;; drain)
    (fun e => load process_queue_locals "queue" ;; raise e).

(** Lines 271-312. *)
Definition recompose (w : world) : run bool :=
  print Recomposing ;;
  (if use_tqdm w && negb (n_upscaled w =? 0) then
     print (Recomposing_progress (n_upscaled w)) ;;
     print (Recompose_command recompose_cmd)
   else ret tt) ;;
  emit [Popen recompose_cmd] ;;
  if negb (recompose_returncode w =? 0) then
    print Recomposition_failed ;; ret false
  else
    print Upscaled_video_saved ;; ret true.

(** Lines 264-312. *)
Definition after_start (w : world) : run bool :=
  process_queue ;;
  load_here "upscale_result" ;;
  if success_is_False then ret false
  else recompose w.

(** Lines 104-312. *)
Definition run_upscale (w : world) (h : Z) : threads :=
  if negb (extract_returncode w =? 0) then
    {| main := extraction w ;; print Frame_extraction_failed ;; ret false;
       worker := None |}
  else if negb (exe_is_file w) then
    {| main := extraction w ;; print Upscaling_frames ;;
               print Exe_not_found ;; ret false;
       worker := None |}
  else
    let scale := scale_factor h (option_map snd (resolution w)) in
    {| main := extraction w ;; print Upscaling_frames ;;
               print (Upscale_command (up_cmd scale)) ;;
               after_start w;
       worker := Some (upscale_thread w scale) |}.

End Queue.

End Upscale.

(** ** The vocabulary of the specification *)

Module Stated.
Import Py Run.

(** Section 4.2: the quotient [videoBits / durationSeconds / 1000],
    before it is rounded. *)
Definition kbps_quotient (targetSizeBytes durationSeconds : Q)
           (audioBitrateBps : Z) : Q :=
  ((targetSizeBytes * 8 - inject_Z audioBitrateBps * durationSeconds)
   / durationSeconds / 1000)%Q.

(** Section 4.1: a probed duration that is absent: the text is not a
    number, or the number is not positive. *)
Definition absent (duration_str : string) : Prop :=
  match float_of_str duration_str with
  | None => True
  | Some (Finite d) => (d <= 0)%Q
  | Some (Inf negative) => negative = true
  | Some NaN => False
  end.

(** The time stamps read in the lines of standard error, in seconds. *)
Fixpoint times (reads : list string) : list Q :=
  match reads with
  | [] => []
  | line :: rest =>
      match search_time line with
      | Some g => Compression.cur_time_of g :: times rest
      | None => times rest
      end
  end.

(** The percentage carried by a progress event. *)
Definition percent_of_event (e : event) : list Q :=
  match e with
  | Gui_progress p _ _ => [p]
  | After_update_gui _ p _ _ => [inject_Z p]
  | Cli_bar p _ _ => [p]
  | After_finalize_gui => [100%Q]
  | _ => []
  end.

Definition percents (evs : list event) : list Q := flat_map percent_of_event evs.

Fixpoint nondecreasing (l : list Q) : Prop :=
  match l with
  | a :: (b :: _) as t => (a <= b)%Q /\ nondecreasing t
  | _ => True
  end.

Definition bounded (l : list Q) : Prop :=
  Forall (fun p => (0 <= p)%Q /\ (p <= 100)%Q) l.

(** A progress event at 100%. *)
Definition at_100 (e : event) : bool :=
  match percent_of_event e with
  | [p] => Qeq_bool p 100
  | _ => false
  end.

(** The durations a successful probe hands to the supervisor of the
    audio fix, leaving aside the non-finite ones: none, or a positive
    number of seconds. *)
Definition regular (duration : option pyfloat) : Prop :=
  match duration with
  | None => True
  | Some (Finite d) => (0 < d)%Q
  | Some _ => False
  end.

(** The command lines of the processes launched, in order. *)
Definition launched (evs : list event) : list (list arg) :=
  flat_map (fun e => match e with Popen cmd => [cmd] | _ => [] end) evs.

(** Section 4.6: the factor [ceil(targetHeight / sourceHeight)],
    raised to the tool's minimum of two. *)
Definition ceil_factor (targetHeight sourceHeight : Z) : Z :=
  Z.max 2 (Qceiling (inject_Z targetHeight / inject_Z sourceHeight)).

End Stated.

(** ** Sample inputs *)

Module Samples.
Import Py Run.

(** A clock that advances by ten seconds between two readings. *)
Definition ten_seconds (k : nat) : Q := inject_Z (1700000000 + 10 * Z.of_nat k).

Definition compression_world (duration_str audio_bitrate_str : string)
           (reads : list string) (returncode : Z) : Compression.world :=
  {| Compression.duration_str := duration_str;
     Compression.audio_bitrate_str := audio_bitrate_str;
     Compression.stderr_reads := reads;
     Compression.returncode := returncode;
     Compression.clock := ten_seconds;
     Compression.winfo_exists := true;
     Compression.video_dir := "C:/videos" |}.

(** The same for a video named by its file name alone. *)
Definition bare_name_world (duration_str audio_bitrate_str : string)
           (reads : list string) (returncode : Z) : Compression.world :=
  {| Compression.duration_str := duration_str;
     Compression.audio_bitrate_str := audio_bitrate_str;
     Compression.stderr_reads := reads;
     Compression.returncode := returncode;
     Compression.clock := ten_seconds;
     Compression.winfo_exists := true;
     Compression.video_dir := "" |}.

Definition audio_fix_world (duration_str : string) (reads : list string)
           (returncode : Z) : AudioFix.world :=
  {| AudioFix.duration_str := duration_str;
     AudioFix.stderr_reads := reads;
     AudioFix.returncode := returncode;
     AudioFix.clock := ten_seconds |}.

Definition upscale_world (extract_returncode : Z) (exe_is_file : bool)
           (source : Z * Z) (upscale_returncode : Z) : Upscale.world :=
  {| Upscale.use_tqdm := true;
     Upscale.nb_frames := Some 250;
     Upscale.extract_returncode := extract_returncode;
     Upscale.exe_is_file := exe_is_file;
     Upscale.resolution := Some source;
     Upscale.upscale_returncode := upscale_returncode;
     Upscale.n_upscaled := 250;
     Upscale.recompose_returncode := 0 |}.

(** The command line of a compression without subtitles. *)
Definition plain_cmd (kbps : Z) : list arg :=
  [Lit "ffmpeg"; Lit "-i"; File Video_name] ++ Compression.encode_args kbps
  ++ [File Output_name; Lit "-y"].

End Samples.

(** ** gui_upscale.py: the choice of the jobs *)

Module UpscaleGui.
Import Py Run.

(** Lines 24-28. *)
Definition resolutions : list (string * (Z * Z)) :=
  [("720p (1280x720)", (1280, 720));
   ("1080p (1920x1080)", (1920, 1080));
   ("4K (3840x2160)", (3840, 2160))].

(** Lines 21-32. *)
Definition upscale_resolution_choices (width height : Z)
  : list (string * (Z * Z)) :=
  filter (fun c => height <? snd (snd c)) resolutions.

(** What the outside world supplies for one selected file. *)
Record file : Type := {
  resolution : option (Z * Z);  (* [get_video_resolution(filepath)], line 49 *)
  label : string;               (* [var.get()] when the dialog closes: the
                                   text of the button pressed, empty after
                                   Cancel *)
  world : Upscale.world         (* what [run_upscale] meets for this file *)
}.

(** A job of [upscale_jobs]: the file, by its position in the
    selection, and the target resolution. *)
Record job : Type := {
  index : nat;
  source : file;
  target : Z * Z
}.

(** The message boxes and the lines printed, by position of the file. *)
Inductive notice : Type :=
| No_video_selected
| Resolution_error (i : nat)
| No_higher_resolution (i : nat) (width height : Z)
| Upscale_cancelled (i : nat)
| No_video_to_upscale
| No_output_folder
| Jobs_to_perform
| Process_finished.

Inductive gui_event : Type :=
| Notice (n : notice)
(** [run_upscale(filepath, w, h, outdir)] and what its threads did *)
| Run_upscale (j : job) (t : Upscale.threads).

(** Lines 84-87: the first choice whose label is the one selected. *)
Definition target_of (choices : list (string * (Z * Z))) (label : string)
  : option (Z * Z) :=
  option_map snd (find (fun c => String.eqb (fst c) label) choices).

(** Lines 48-87, for the file at position [i]. *)
Definition select (i : nat) (f : file) : list gui_event * list job :=
  match resolution f with
  | None => ([Notice (Resolution_error i)], [])
  | Some (width, height) =>
      let choices := upscale_resolution_choices width height in
      match choices with
      | [] => ([Notice (No_higher_resolution i width height)], [])
      | _ :: _ =>
          if String.eqb (label f) "" then ([Notice (Upscale_cancelled i)], [])
          else
            match target_of choices (label f) with
            | Some t => ([], [{| index := i; source := f; target := t |}])
            | None => ([], [])
            end
      end
  end.

(** Lines 46-87. *)
Fixpoint select_all (i : nat) (files : list file) : list gui_event * list job :=
  match files with
  | [] => ([], [])
  | f :: rest =>
      let (evs, jobs) := select i f in
      let (evs', jobs') := select_all (S i) rest in
      (evs ++ evs', jobs ++ jobs')
  end.

Section Queue.
Variable drain : run unit.
Variable success_is_False : bool.

(** Lines 99-100: the value [run_upscale] returns is not looked at; an
    exception ends the loop. *)
Fixpoint run_jobs (jobs : list job) : list gui_event * outcome unit :=
  match jobs with
  | [] => ([], Returned tt)
  | j :: rest =>
      let t := Upscale.run_upscale drain success_is_False (world (source j))
                                   (snd (target j)) in
      match result (Upscale.main t) with
      | Returned _ =>
          let (evs, out) := run_jobs rest in (Run_upscale j t :: evs, out)
      | Raised e => ([Run_upscale j t], Raised e)
      end
  end.

(** Lines 34-101. [outdir] is the folder chosen, empty when the dialog
    is dismissed. *)
Definition run_video_upscale_gui (files : list file) (outdir : string)
  : list gui_event * outcome unit :=
  match files with
  | [] => ([Notice No_video_selected], Returned tt)
  | _ :: _ =>
      let (evs, jobs) := select_all 0 files in
      match jobs with
      | [] => (evs ++ [Notice No_video_to_upscale], Returned tt)
      | _ :: _ =>
          if String.eqb outdir "" then (evs ++ [Notice No_output_folder], Returned tt)
          else
            let (ran, out) := run_jobs jobs in
            match out with
            | Returned _ =>
                (evs ++ [Notice Jobs_to_perform] ++ ran ++ [Notice Process_finished],
                 Returned tt)
            | Raised e => (evs ++ [Notice Jobs_to_perform] ++ ran, Raised e)
            end
      end
  end.

End Queue.

End UpscaleGui.

(** ** gui_audio_fix.py: the batch *)

Module AudioFixGui.
Import Py Run.

(** The text of a status label. *)
Inductive status : Type :=
| Waiting
| Progress (percent : Q) (mins secs : option Z)
| Done
| Error.

(** Line 137: the text is ["Done!"] or ["Error"]. *)
Definition terminal (s : status) : bool :=
  match s with
  | Done | Error => true
  | _ => false
  end.

Inductive log_line : Type :=
| Finished (idx : nat)
| Error_processing (idx : nat) (e : exn).

(** The widgets the batch acts on. *)
Record window : Type := {
  status_labels : list status;
  log : list log_line;
  buttons_enabled : bool;
  destroyed : nat            (* calls of [progress_win.destroy()] *)
}.

(** Lines 113-126: the window as [convert_files] builds it for [n]
    files. *)
Definition opened (n : nat) : window :=
  {| status_labels := repeat Waiting n;
     log := [];
     buttons_enabled := false;
     destroyed := 0 |}.

(** [labels[idx] = s]: [None] is the [IndexError] of a position out of
    range. *)
Fixpoint assign (idx : nat) (s : status) (labels : list status)
  : option (list status) :=
  match labels, idx with
  | [], _ => None
  | _ :: rest, O => Some (s :: rest)
  | l :: rest, S i => option_map (cons l) (assign i s rest)
  end.

(** Lines 145-153: the callback of the file at [idx]; an exception
    inside it is dropped. *)
Definition callback (idx : nat) (percent : Q) (mins secs : option Z)
           (w : window) : window :=
  match assign idx (Progress percent mins secs) (status_labels w) with
  | Some labels =>
      {| status_labels := labels; log := log w;
         buttons_enabled := buttons_enabled w; destroyed := destroyed w |}
  | None => w
  end.

(** Lines 130-135: the label and the line of the log for an outcome. *)
Definition outcome_status (error : option exn) : status :=
  match error with
  | None => Done
  | Some _ => Error
  end.

Definition outcome_line (idx : nat) (error : option exn) : log_line :=
  match error with
  | None => Finished idx
  | Some e => Error_processing idx e
  end.

(** Lines 129-141: [finish], run by the event loop. *)
Definition finish (idx : nat) (error : option exn) (w : window) : option window :=
  match assign idx (outcome_status error) (status_labels w) with
  | Some labels =>
      let line := outcome_line idx error in
      if forallb terminal labels then
        Some {| status_labels := labels; log := log w ++ [line];
                buttons_enabled := true; destroyed := S (destroyed w) |}
      else
        Some {| status_labels := labels; log := log w ++ [line];
                buttons_enabled := buttons_enabled w; destroyed := destroyed w |}
  | None => None
  end.

(** Lines 157-162: what [worker] hands to [on_file_done] for a file,
    the job being run with the default settings and a callback. *)
Definition worker (w : AudioFix.world) : option exn :=
  match result (AudioFix.run_audio_fix w 2 48000 "160k" true) with
  | Returned _ => None
  | Raised e => Some e
  end.

(** What happens to the window, in the order it happens: a callback of
    the file at [idx], or the [finish] of that file. *)
Inductive action : Type :=
| Callback (idx : nat) (percent : Q) (mins secs : option Z)
| Finish (idx : nat) (error : option exn).

Definition step (a : action) (w : window) : option window :=
  match a with
  | Callback idx percent mins secs => Some (callback idx percent mins secs w)
  | Finish idx error => finish idx error w
  end.

Fixpoint play (schedule : list action) (w : window) : option window :=
  match schedule with
  | [] => Some w
  | a :: rest =>
      match step a w with
      | Some w' => play rest w'
      | None => None
      end
  end.

(** The files whose [finish] is in a schedule. *)
Definition finished (schedule : list action) : list nat :=
  flat_map (fun a => match a with Finish idx _ => [idx] | _ => [] end) schedule.

(** The lines a schedule writes to the log. *)
Definition logged (schedule : list action) : list log_line :=
  flat_map (fun a => match a with
                     | Finish idx error => [outcome_line idx error]
                     | _ => []
                     end) schedule.

(** A schedule the threads of a batch of [n] files can produce: every
    position is below [n], no file finishes twice, and no callback of a
    file comes after its [finish]. *)
Fixpoint well_formed (n : nat) (schedule : list action) : Prop :=
  match schedule with
  | [] => True
  | Callback idx _ _ _ :: rest => (idx < n)%nat /\ well_formed n rest
  | Finish idx _ :: rest =>
      (idx < n)%nat
      /\ ~ In idx (finished rest)
      /\ (forall p m s, ~ In (Callback idx p m s) rest)
      /\ well_formed n rest
  end.

(** The file an action is about. *)
Definition position (a : action) : nat :=
  match a with
  | Callback idx _ _ _ => idx
  | Finish idx _ => idx
  end.

(** What holds of the window after a schedule. *)
Definition settled (n : nat) (schedule : list action) (w : window) : Prop :=
  length (status_labels w) = n
  /\ (forall idx error,
        In (Finish idx error) schedule ->
        nth_error (status_labels w) idx = Some (outcome_status error))
  /\ (forall idx,
        (idx < n)%nat -> ~ In idx (finished schedule) ->
        exists s, nth_error (status_labels w) idx = Some s /\ terminal s = false)
  /\ log w = logged schedule
  /\ ((forall idx, (idx < n)%nat -> In idx (finished schedule)) ->
      destroyed w = 1%nat /\ buttons_enabled w = true)
  /\ (~ (forall idx, (idx < n)%nat -> In idx (finished schedule)) ->
      destroyed w = 0%nat /\ buttons_enabled w = false).

End AudioFixGui.

(** ** The names of the output files *)

Module Paths.
Import Py.

Section Splitext.
(** The characters that separate directories: [/], and on Windows the
    backslash as well. *)
Variable is_sep : ascii -> bool.

Definition is_dot (c : ascii) : bool := Ascii.eqb c ".".

(** [p.rfind(...)] for the characters that satisfy [f]: the position of
    the last one, [-1] when there is none. *)
Fixpoint rfind (f : ascii -> bool) (p : list ascii) : Z :=
  match p with
  | [] => -1
  | c :: r =>
      let i := rfind f r in
      if 0 <=? i then i + 1 else if f c then 0 else -1
  end.

(** [p[lo:hi]] holds a character that is not a dot. *)
Definition has_name (p : list ascii) (lo hi : Z) : bool :=
  existsb (fun c => negb (is_dot c))
          (firstn (Z.to_nat (hi - lo)) (skipn (Z.to_nat lo) p)).

(** [os.path.splitext(p)], as [genericpath._splitext] computes it: the
    extension starts at the last dot, provided it comes after the last
    separator and after a character of the file name that is not a
    dot. *)
Definition splitext (p : list ascii) : list ascii * list ascii :=
  let sepIndex := rfind is_sep p in
  let dotIndex := rfind is_dot p in
  if (sepIndex <? dotIndex) && has_name p (sepIndex + 1) dotIndex
  then (firstn (Z.to_nat dotIndex) p, skipn (Z.to_nat dotIndex) p)
  else (p, []).

(** audio_fix.py, lines 105-108, from the absolute path. *)
Definition audio_fix_output (abs_path : list ascii) : list ascii :=
  let (base, ext) := splitext abs_path in
  let output_ext := match ext with
                    | [] => list_ascii_of_string ".mp4"
                    | _ :: _ => ext
                    end in
  base ++ list_ascii_of_string "_fixed" ++ output_ext.

(** compression.py, line 76. *)
Definition compression_output (file_path ext : list ascii) : list ascii :=
  fst (splitext file_path) ++ list_ascii_of_string "_compressed." ++ ext.

(** [os.path.basename(p)]: what follows the last separator. On Windows
    the drive is set apart first, which gives the same for a path with
    no drive and for one whose drive is followed by a separator. *)
Definition basename (p : list ascii) : list ascii :=
  skipn (Z.to_nat (rfind is_sep p + 1)) p.

(** compression.py, lines 80-81: the names ffmpeg is given, to be read
    in the directory of the video. *)
Definition video_name (file_path : list ascii) : list ascii :=
  basename file_path.

Definition output_name (file_path ext : list ascii) : list ascii :=
  basename (compression_output file_path ext).

End Splitext.

(** The separators of Windows paths. *)
Definition nt_sep (c : ascii) : bool := Ascii.eqb c "\" || Ascii.eqb c "/".

End Paths.

(** ** Status lines *)

Module StatusLine.
Import Py.

(** A text does not start with a digit. *)
Definition no_digit_ahead (s : string) : Prop :=
  match s with
  | EmptyString => True
  | String c _ => is_digit c = false
  end.

End StatusLine.

(** ** Facts about the floats *)

Module FloatFacts.
Import Py.
Local Open Scope Q_scope.

Lemma pow2_pos (k : Z) : 0 < pow2 k.
Proof. apply Qpower_0_lt. reflexivity. Qed.

Lemma pow2_add (a b : Z) : pow2 (a + b) == pow2 a * pow2 b.
Proof. apply Qpower_plus. discriminate. Qed.

Lemma pow2_sub (a b : Z) : pow2 (a - b) == pow2 a / pow2 b.
Proof. apply Qpower_minus. discriminate. Qed.

Lemma pow2_le (a b : Z) : (a <= b)%Z -> pow2 a <= pow2 b.
Proof. intro H. apply Qpower_le_compat_l; [exact H | discriminate]. Qed.

Lemma pow2_lt (a b : Z) : (a < b)%Z -> pow2 a < pow2 b.
Proof. intro H. apply Qpower_lt_compat_l; [exact H | reflexivity]. Qed.

Lemma pow2_lt_inv (a b : Z) : pow2 a < pow2 b -> (a < b)%Z.
Proof. intro H. apply (Qpower_lt_compat_l_inv 2); [exact H | reflexivity]. Qed.

Lemma pow2_Z (k : Z) : (0 <= k)%Z -> pow2 k == inject_Z (2 ^ k).
Proof. intro H. unfold pow2. now rewrite Zpower_Qpower. Qed.

Lemma pow2_succ (k : Z) : pow2 (k + 1) == 2 * pow2 k.
Proof. rewrite pow2_add. change (pow2 1) with 2. ring. Qed.

Lemma log2_bounds (n : Z) :
  (0 < n)%Z -> pow2 (Z.log2 n) <= inject_Z n /\ inject_Z n < 2 * pow2 (Z.log2 n).
Proof.
  intro H. destruct (Z.log2_spec n H) as [H1 H2].
  pose proof (Z.log2_nonneg n) as H0.
  rewrite <- pow2_succ, !pow2_Z by lia.
  rewrite <- Zle_Qle, <- Zlt_Qlt. unfold Z.succ in H2. split; assumption.
Qed.

Lemma ilog2_spec (x : Q) :
  0 < x -> pow2 (ilog2 x) <= x /\ x < pow2 (ilog2 x + 1).
Proof.
  intro Hx. unfold ilog2.
  set (k := (Z.log2 (Qnum x) - Z.log2 (Z.pos (Qden x)))%Z).
  assert (Hn : (0 < Qnum x)%Z).
  { destruct x as [n d]. unfold Qlt in Hx. simpl in *. lia. }
  destruct (log2_bounds _ Hn) as [Ha1 Ha2].
  destruct (log2_bounds (Z.pos (Qden x)) eq_refl) as [Hb1 Hb2].
  assert (Ex : x * inject_Z (Z.pos (Qden x)) == inject_Z (Qnum x)).
  { destruct x as [n d]. unfold Qeq, Qmult, inject_Z. simpl. lia. }
  assert (Ek : pow2 k * pow2 (Z.log2 (Z.pos (Qden x))) == pow2 (Z.log2 (Qnum x))).
  { rewrite <- pow2_add. unfold k.
    replace (Z.log2 (Qnum x) - Z.log2 (Z.pos (Qden x)) + Z.log2 (Z.pos (Qden x)))%Z
      with (Z.log2 (Qnum x)) by lia. reflexivity. }
  pose proof (pow2_pos k) as Pk.
  pose proof (pow2_pos (Z.log2 (Z.pos (Qden x)))) as Pb.
  assert (Hup : x < 2 * pow2 k) by nra.
  assert (Hlo : pow2 k < 2 * x) by nra.
  destruct (Qle_bool (pow2 k) x) eqn:E.
  - apply Qle_bool_iff in E. rewrite pow2_succ. split; assumption.
  - assert (Hlt : x < pow2 k).
    { apply Qnot_le_lt. intro H. apply Qle_bool_iff in H. congruence. }
    replace (k - 1 + 1)%Z with k by lia. split; [|exact Hlt].
    assert (E2 : pow2 k == 2 * pow2 (k - 1)).
    { rewrite <- pow2_succ. replace (k - 1 + 1)%Z with k by lia. reflexivity. }
    lra.
Qed.

Lemma ilog2_unique (x : Q) (k : Z) :
  pow2 k <= x -> x < pow2 (k + 1) -> ilog2 x = k.
Proof.
  intros H1 H2.
  assert (Hx : 0 < x) by (pose proof (pow2_pos k); lra).
  destruct (ilog2_spec x Hx) as [H3 H4].
  assert (pow2 k < pow2 (ilog2 x + 1)) by lra.
  assert (pow2 (ilog2 x) < pow2 (k + 1)) by lra.
  apply pow2_lt_inv in H, H0. lia.
Qed.

Lemma ilog2_comp (x y : Q) : 0 < x -> x == y -> ilog2 x = ilog2 y.
Proof.
  intros Hx E. destruct (ilog2_spec x Hx) as [H1 H2].
  symmetry. apply ilog2_unique; lra.
Qed.

Lemma ilog2_mono (x y : Q) : 0 < x -> x <= y -> (ilog2 x <= ilog2 y)%Z.
Proof.
  intros Hx Hxy.
  destruct (ilog2_spec x Hx) as [H1 _].
  destruct (ilog2_spec y) as [_ H2]; [lra|].
  assert (H : pow2 (ilog2 x) < pow2 (ilog2 y + 1)) by lra.
  apply pow2_lt_inv in H. lia.
Qed.


(** *** Rounding to the nearest integer, ties to even *)

Lemma frac_bounds (y : Q) : 0 <= y - inject_Z (Qfloor y) /\ y - inject_Z (Qfloor y) < 1.
Proof.
  pose proof (Qfloor_le y) as H0. pose proof (Qlt_floor y) as H1.
  rewrite inject_Z_plus in H1. change (inject_Z 1) with 1 in H1. lra.
Qed.

Lemma rne_cases (y : Q) :
  (y - inject_Z (Qfloor y) < 1 # 2 /\ rne y = Qfloor y)
  \/ (1 # 2 < y - inject_Z (Qfloor y) /\ rne y = (Qfloor y + 1)%Z)
  \/ (y - inject_Z (Qfloor y) == 1 # 2
      /\ (rne y = Qfloor y \/ rne y = (Qfloor y + 1)%Z)).
Proof.
  unfold rne.
  destruct (Qcompare_spec (y - inject_Z (Qfloor y)) (1 # 2)) as [E | E | E].
  - right. right. split; [exact E|]. destruct (Z.even (Qfloor y)); auto.
  - left. auto.
  - right. left. auto.
Qed.

Lemma rne_floor (y : Q) : (Qfloor y <= rne y <= Qfloor y + 1)%Z.
Proof. destruct (rne_cases y) as [[_ ->] | [[_ ->] | [_ [-> | ->]]]]; lia. Qed.

Lemma rne_near (y : Q) :
  inject_Z (rne y) - (1 # 2) <= y /\ y <= inject_Z (rne y) + (1 # 2).
Proof.
  pose proof (frac_bounds y) as [H0 H1].
  destruct (rne_cases y) as [[H ->] | [[H ->] | [H [-> | ->]]]];
    rewrite ?inject_Z_plus; change (inject_Z 1) with 1; lra.
Qed.

Lemma rne_Z (n : Z) : rne (inject_Z n) = n.
Proof.
  unfold rne. rewrite Qfloor_Z.
  assert (E : inject_Z n - inject_Z n == 0) by ring.
  destruct (Qcompare_spec (inject_Z n - inject_Z n) (1 # 2)) as [H | H | H];
    rewrite E in H; try discriminate. reflexivity.
Qed.

Lemma rne_mono (x y : Q) : x <= y -> (rne x <= rne y)%Z.
Proof.
  intro H. pose proof (Qfloor_resp_le _ _ H) as Hf.
  pose proof (rne_floor x). pose proof (rne_floor y).
  destruct (Z.eq_dec (Qfloor x) (Qfloor y)) as [E | E]; [|lia].
  destruct (rne_cases x) as [[Hx Ex] | [[Hx Ex] | [Hx Ex]]]; [lia | |].
  - destruct (rne_cases y) as [[Hy Ey] | [[Hy Ey] | [Hy Ey]]]; [|lia|];
      rewrite E in Hx; lra.
  - destruct (rne_cases y) as [[Hy Ey] | [[Hy Ey] | [Hy Ey]]];
      [rewrite E in Hx; lra | lia |].
    unfold rne. unfold rne in Ex.
    destruct (Qcompare_spec (x - inject_Z (Qfloor x)) (1 # 2)) as [C1 | C1 | C1];
      try lra.
    destruct (Qcompare_spec (y - inject_Z (Qfloor y)) (1 # 2)) as [C2 | C2 | C2];
      try lra.
    rewrite E. lia.
Qed.

Lemma rne_comp (x y : Q) : x == y -> rne x = rne y.
Proof.
  intro E. apply Z.le_antisymm; apply rne_mono; rewrite E; apply Qle_refl.
Qed.

(** *** The nearest double of a positive number *)

Lemma scaled_bounds (x : Q) :
  0 < x ->
  inject_Z (2 ^ 52) <= x / pow2 (ilog2 x - 52)
  /\ x / pow2 (ilog2 x - 52) < inject_Z (2 ^ 53).
Proof.
  intro Hx. destruct (ilog2_spec x Hx) as [H1 H2].
  pose proof (pow2_pos (ilog2 x - 52)) as Pe.
  assert (E1 : pow2 (ilog2 x) == inject_Z (2 ^ 52) * pow2 (ilog2 x - 52)).
  { rewrite <- pow2_Z by lia. rewrite <- pow2_add. 
    replace (52 + (ilog2 x - 52))%Z with (ilog2 x) by lia. reflexivity. }
  assert (E2 : pow2 (ilog2 x + 1) == inject_Z (2 ^ 53) * pow2 (ilog2 x - 52)).
  { rewrite <- pow2_Z by lia. rewrite <- pow2_add. 
    replace (53 + (ilog2 x - 52))%Z with (ilog2 x + 1)%Z by lia. reflexivity. }
  split.
  - apply Qle_shift_div_l; [exact Pe|]. rewrite E1 in H1. exact H1.
  - apply Qlt_shift_div_r; [exact Pe|]. rewrite E2 in H2. exact H2.
Qed.

Lemma significand_bounds (x : Q) :
  0 < x -> (2 ^ 52 <= rne (x / pow2 (ilog2 x - 52)) <= 2 ^ 53)%Z.
Proof.
  intro Hx. destruct (scaled_bounds x Hx) as [H1 H2].
  apply rne_mono in H1. apply Qlt_le_weak, rne_mono in H2.
  rewrite rne_Z in H1, H2. lia.
Qed.

Lemma nearest_pos_bounds (x : Q) :
  0 < x -> pow2 (ilog2 x) <= nearest_pos x /\ nearest_pos x <= pow2 (ilog2 x + 1).
Proof.
  intro Hx. destruct (significand_bounds x Hx) as [H1 H2].
  unfold nearest_pos.
  pose proof (pow2_pos (ilog2 x - 52)) as Pe.
  assert (E1 : pow2 (ilog2 x) == inject_Z (2 ^ 52) * pow2 (ilog2 x - 52)).
  { rewrite <- pow2_Z by lia. rewrite <- pow2_add. 
    replace (52 + (ilog2 x - 52))%Z with (ilog2 x) by lia. reflexivity. }
  assert (E2 : pow2 (ilog2 x + 1) == inject_Z (2 ^ 53) * pow2 (ilog2 x - 52)).
  { rewrite <- pow2_Z by lia. rewrite <- pow2_add. 
    replace (53 + (ilog2 x - 52))%Z with (ilog2 x + 1)%Z by lia. reflexivity. }
  rewrite E1, E2. rewrite Zle_Qle in H1, H2.
  split; apply Qmult_le_compat_r; try assumption; apply Qlt_le_weak, Pe.
Qed.

Lemma nearest_pos_pos (x : Q) : 0 < x -> 0 < nearest_pos x.
Proof.
  intro Hx. destruct (nearest_pos_bounds x Hx) as [H _].
  pose proof (pow2_pos (ilog2 x)). lra.
Qed.

Lemma nearest_pos_comp (x y : Q) : 0 < x -> x == y -> nearest_pos x == nearest_pos y.
Proof.
  intros Hx E. unfold nearest_pos. rewrite <- (ilog2_comp x y Hx E).
  rewrite (rne_comp (x / pow2 (ilog2 x - 52)) (y / pow2 (ilog2 x - 52))).
  - reflexivity.
  - unfold Qdiv. apply Qmult_comp; [exact E | reflexivity].
Qed.

Lemma nearest_pos_mono (x y : Q) : 0 < x -> x <= y -> nearest_pos x <= nearest_pos y.
Proof.
  intros Hx Hxy. assert (Hy : 0 < y) by lra.
  pose proof (ilog2_mono x y Hx Hxy) as Hk.
  destruct (Z.eq_dec (ilog2 x) (ilog2 y)) as [E | E].
  - unfold nearest_pos. rewrite E.
    pose proof (pow2_pos (ilog2 y - 52)) as Pe.
    apply Qmult_le_compat_r; [|lra].
    rewrite <- Zle_Qle. apply rne_mono.
    apply Qmult_le_compat_r; [exact Hxy|].
    apply Qlt_le_weak, Qinv_lt_0_compat, Pe.
  - destruct (nearest_pos_bounds x Hx) as [_ H1].
    destruct (nearest_pos_bounds y Hy) as [H2 _].
    assert (H3 : pow2 (ilog2 x + 1) <= pow2 (ilog2 y)) by (apply pow2_le; lia).
    lra.
Qed.

(** A significand of at most 53 bits is kept as it is. *)
Lemma nearest_pos_exact (m j : Z) :
  (0 < m < 2 ^ 53)%Z -> nearest_pos (inject_Z m * pow2 j) == inject_Z m * pow2 j.
Proof.
  intros Hm. set (x := inject_Z m * pow2 j).
  set (a := Z.log2 m).
  assert (Ha : (0 <= a <= 52)%Z).
  { split; [apply Z.log2_nonneg|].
    assert (a < 53)%Z; [|lia]. apply Z.log2_lt_pow2; lia. }
  destruct (log2_bounds m (proj1 Hm)) as [L1 L2]. fold a in L1, L2.
  pose proof (pow2_pos j) as Pj. pose proof (pow2_pos a) as Pa.
  assert (Ek : ilog2 x = (a + j)%Z).
  { apply ilog2_unique; unfold x; rewrite ?pow2_succ, pow2_add; nra. }
  unfold nearest_pos. rewrite Ek.
  assert (Es : x / pow2 (a + j - 52) == inject_Z (m * 2 ^ (52 - a))).
  { unfold x. rewrite inject_Z_mult, <- pow2_Z by lia.
    assert (E : pow2 j == pow2 (52 - a) * pow2 (a + j - 52)).
    { rewrite <- pow2_add. replace (52 - a + (a + j - 52))%Z with j by lia. reflexivity. }
    rewrite E. field.
    pose proof (pow2_pos (a + j - 52)). lra. }
  rewrite (rne_comp _ _ Es), rne_Z.
  rewrite inject_Z_mult, <- pow2_Z by lia. unfold x.
  rewrite <- Qmult_assoc, <- pow2_add.
  replace (52 - a + (a + j - 52))%Z with j by lia. reflexivity.
Qed.


(** *** The nearest double *)

Lemma nearest_of_pos (x : Q) : 0 < x -> nearest x == nearest_pos x.
Proof.
  intro H. unfold nearest. rewrite Qred_correct.
  destruct (Qcompare_spec x 0); reflexivity || lra.
Qed.

Lemma nearest_of_neg (x : Q) : x < 0 -> nearest x == - nearest_pos (- x).
Proof.
  intro H. unfold nearest. rewrite Qred_correct.
  destruct (Qcompare_spec x 0); reflexivity || lra.
Qed.

Lemma nearest_of_zero (x : Q) : x == 0 -> nearest x == 0.
Proof.
  intro H. unfold nearest. rewrite Qred_correct.
  destruct (Qcompare_spec x 0); reflexivity || lra.
Qed.

Lemma nearest_comp (x y : Q) : x == y -> nearest x = nearest y.
Proof.
  intro E. unfold nearest. apply Qred_complete.
  destruct (Qcompare_spec x 0), (Qcompare_spec y 0);
    try reflexivity; try (exfalso; lra).
  - apply Qopp_comp. apply nearest_pos_comp; lra.
  - apply nearest_pos_comp; lra.
Qed.

Lemma nearest_opp (x : Q) : nearest (- x) == - nearest x.
Proof.
  destruct (Qcompare_spec x 0) as [E | E | E].
  - rewrite (nearest_of_zero x E). rewrite (nearest_of_zero (- x)) by lra. reflexivity.
  - rewrite (nearest_of_neg x E). rewrite (nearest_of_pos (- x)) by lra. ring.
  - rewrite (nearest_of_pos x E). rewrite (nearest_of_neg (- x)) by lra.
    apply Qopp_comp. apply nearest_pos_comp; [lra | ring].
Qed.

Lemma nearest_pos_lt (x : Q) : 0 < x -> 0 < nearest x.
Proof. intro H. rewrite nearest_of_pos by exact H. apply nearest_pos_pos, H. Qed.

Lemma nearest_neg_lt (x : Q) : x < 0 -> nearest x < 0.
Proof.
  intro H. rewrite nearest_of_neg by exact H.
  assert (0 < nearest_pos (- x)) by (apply nearest_pos_pos; lra). lra.
Qed.

Lemma nearest_nonneg (x : Q) : 0 <= x -> 0 <= nearest x.
Proof.
  intro H. destruct (Qcompare_spec x 0) as [E | E | E]; [|lra|].
  - rewrite (nearest_of_zero x E). lra.
  - apply Qlt_le_weak, nearest_pos_lt, E.
Qed.

Lemma nearest_nonpos (x : Q) : x <= 0 -> nearest x <= 0.
Proof.
  intro H. destruct (Qcompare_spec x 0) as [E | E | E]; [| |lra].
  - rewrite (nearest_of_zero x E). lra.
  - apply Qlt_le_weak, nearest_neg_lt, E.
Qed.

(** Rounding keeps the order. *)
Lemma nearest_mono (x y : Q) : x <= y -> nearest x <= nearest y.
Proof.
  intro H.
  destruct (Qcompare_spec x 0) as [Ex | Ex | Ex].
  - rewrite (nearest_of_zero x Ex). apply nearest_nonneg. lra.
  - destruct (Qcompare_spec y 0) as [Ey | Ey | Ey].
    + rewrite (nearest_of_zero y Ey). apply nearest_nonpos. lra.
    + rewrite (nearest_of_neg x Ex), (nearest_of_neg y Ey).
      apply Qopp_le_compat. apply nearest_pos_mono; lra.
    + pose proof (nearest_neg_lt x Ex). pose proof (nearest_pos_lt y Ey). lra.
  - rewrite (nearest_of_pos x Ex), nearest_of_pos by lra.
    apply nearest_pos_mono; assumption.
Qed.

(** A number with a significand of at most 53 bits is a double. *)
Lemma nearest_exact (m j : Z) :
  (Z.abs m <= 2 ^ 53)%Z -> nearest (inject_Z m * pow2 j) == inject_Z m * pow2 j.
Proof.
  assert (Hpos : forall m j, (0 < m <= 2 ^ 53)%Z ->
                 nearest (inject_Z m * pow2 j) == inject_Z m * pow2 j).
  { intros m' j' Hm. pose proof (pow2_pos j') as Pj.
    assert (0 < inject_Z m') by (change 0 with (inject_Z 0); rewrite <- Zlt_Qlt; lia).
    assert (Hp : 0 < inject_Z m' * pow2 j') by nra.
    rewrite nearest_of_pos by exact Hp.
    destruct (Z.eq_dec m' (2 ^ 53)) as [E | E].
    - assert (E' : inject_Z m' * pow2 j' == inject_Z (2 ^ 52) * pow2 (j' + 1)).
      { rewrite E, pow2_succ. 
        change (2 ^ 53)%Z with (2 * 2 ^ 52)%Z. rewrite inject_Z_mult.
        change (inject_Z 2) with 2. ring. }
      rewrite (nearest_pos_comp _ _ Hp E'), E'.
      apply nearest_pos_exact. lia.
    - apply nearest_pos_exact. lia. }
  intro Hm. destruct (Z.lt_trichotomy m 0) as [H | [H | H]].
  - assert (E : inject_Z m * pow2 j == - (inject_Z (- m) * pow2 j)).
    { rewrite inject_Z_opp. ring. }
    rewrite (nearest_comp _ _ E), nearest_opp, Hpos by lia.
    rewrite inject_Z_opp. ring.
  - subst m. assert (E : inject_Z 0 * pow2 j == 0) by (change (inject_Z 0) with 0; ring).
    rewrite (nearest_of_zero _ E), E. reflexivity.
  - apply Hpos. lia.
Qed.

Lemma nearest_Z (n : Z) : (Z.abs n <= 2 ^ 53)%Z -> nearest (inject_Z n) == inject_Z n.
Proof.
  intro H. pose proof (nearest_exact n 0 H) as E.
  change (pow2 0) with 1 in E.
  rewrite (nearest_comp (inject_Z n) (inject_Z n * 1)) by ring.
  rewrite E. ring.
Qed.

(** The nearest double of a positive number, by significand and
    exponent. *)
Lemma nearest_decomp (x : Q) :
  0 < x ->
  exists M : Z, (2 ^ 52 <= M <= 2 ^ 53)%Z
                /\ nearest x == inject_Z M * pow2 (ilog2 x - 52).
Proof.
  intro Hx. exists (rne (x / pow2 (ilog2 x - 52))). split.
  - apply significand_bounds, Hx.
  - rewrite nearest_of_pos by exact Hx. reflexivity.
Qed.

Lemma nearest_is_float (x : Q) : is_float (nearest x).
Proof.
  unfold is_float.
  destruct (Qcompare_spec x 0) as [E | E | E].
  - rewrite (nearest_comp _ _ (nearest_of_zero x E)), (nearest_of_zero x E). reflexivity.
  - assert (Hx : 0 < - x) by lra.
    destruct (nearest_decomp _ Hx) as (M & HM & EM).
    assert (E' : nearest x == inject_Z (- M) * pow2 (ilog2 (- x) - 52)).
    { pose proof (nearest_opp x) as Ho. rewrite EM in Ho. rewrite inject_Z_opp. lra. }
    rewrite (nearest_comp _ _ E'), E'. apply nearest_exact. lia.
  - destruct (nearest_decomp _ E) as (M & HM & EM).
    rewrite (nearest_comp _ _ EM), EM. apply nearest_exact. lia.
Qed.

(** A positive double, by significand and exponent. *)
Lemma float_decomp (x : Q) :
  is_float x -> 0 < x ->
  exists M : Z, (2 ^ 52 <= M < 2 ^ 53)%Z /\ x == inject_Z M * pow2 (ilog2 x - 52).
Proof.
  intros Hf Hx. destruct (nearest_decomp x Hx) as (M & HM & EM).
  unfold is_float in Hf. rewrite Hf in EM.
  exists M. split; [|exact EM].
  destruct (ilog2_spec x Hx) as [_ H2].
  assert (E2 : pow2 (ilog2 x + 1) == inject_Z (2 ^ 53) * pow2 (ilog2 x - 52)).
  { rewrite <- pow2_Z by lia. rewrite <- pow2_add. 
    replace (53 + (ilog2 x - 52))%Z with (ilog2 x + 1)%Z by lia. reflexivity. }
  pose proof (pow2_pos (ilog2 x - 52)) as Pe.
  assert (inject_Z M < inject_Z (2 ^ 53)) by nra.
  rewrite <- Zlt_Qlt in H. lia.
Qed.

Lemma is_float_comp (x y : Q) : x == y -> is_float x -> is_float y.
Proof.
  unfold is_float. intros E H. rewrite <- (nearest_comp x y E), H. exact E.
Qed.

Lemma is_float_Z (n : Z) : (Z.abs n <= 2 ^ 53)%Z -> is_float (inject_Z n).
Proof. apply nearest_Z. Qed.

(** No double lies strictly between [d * (1 - 2^-53)] and [d]. *)
Lemma float_gap (t d : Q) :
  is_float t -> is_float d -> 0 <= t -> t < d -> t <= d * (1 - pow2 (-53)).
Proof.
  intros Ft Fd Ht Htd.
  assert (Hd : 0 < d) by lra.
  destruct (float_decomp d Fd Hd) as (Md & HMd & Ed).
  set (ed := (ilog2 d - 52)%Z) in *.
  pose proof (pow2_pos ed) as Ped.
  assert (E53 : inject_Z (2 ^ 53) * pow2 (-53) == 1).
  { rewrite <- pow2_Z by lia. rewrite <- pow2_add. reflexivity. }
  assert (Hu : 0 < pow2 (-53)) by apply pow2_pos.
  assert (Hu1 : 0 < 1 - pow2 (-53)).
  { assert (pow2 (-53) < pow2 0) by (apply pow2_lt; lia). change (pow2 0) with 1 in *. lra. }
  assert (HMdq : inject_Z (2 ^ 52) <= inject_Z Md /\ inject_Z Md < inject_Z (2 ^ 53)).
  { rewrite <- Zle_Qle, <- Zlt_Qlt. lia. }
  destruct (Qcompare_spec t 0) as [E0 | E0 | E0]; [|lra|].
  { rewrite E0. apply Qmult_le_0_compat; lra. }
  destruct (float_decomp t Ft E0) as (Mt & HMt & Et).
  set (et := (ilog2 t - 52)%Z) in *.
  pose proof (ilog2_mono t d E0 (Qlt_le_weak _ _ Htd)) as Hk.
  assert (HMtq : inject_Z (2 ^ 52) <= inject_Z Mt /\ inject_Z Mt < inject_Z (2 ^ 53)).
  { rewrite <- Zle_Qle, <- Zlt_Qlt. lia. }
  destruct (Z.eq_dec (ilog2 t) (ilog2 d)) as [E | E].
  - assert (et = ed) as Ee by (unfold et, ed; lia). rewrite Ee in Et.
    assert (Hlt : inject_Z Mt < inject_Z Md) by nra.
    rewrite <- Zlt_Qlt in Hlt.
    assert (Hle : inject_Z Mt <= inject_Z Md - 1).
    { change 1 with (inject_Z 1). unfold Qminus. rewrite <- inject_Z_opp, <- inject_Z_plus.
      rewrite <- Zle_Qle. lia. }
    rewrite Et, Ed.
    set (a := inject_Z Mt) in *. set (b := inject_Z Md) in *.
    set (p := pow2 ed) in *. set (u := pow2 (-53)) in *.
    set (c := inject_Z (2 ^ 53)) in *.
    assert (Hv : b * u <= 1) by nra.
    assert (H1 : 0 <= p * (b - 1 - a)) by (apply Qmult_le_0_compat; lra).
    assert (H2 : 0 <= p * (1 - b * u)) by (apply Qmult_le_0_compat; lra).
    assert (E3 : b * p * (1 - u) - a * p == p * (b - 1 - a) + p * (1 - b * u)) by ring.
    lra.
  - assert (Hle : inject_Z Mt <= inject_Z (2 ^ 53) - 1).
    { change 1 with (inject_Z 1). unfold Qminus. rewrite <- inject_Z_opp, <- inject_Z_plus.
      rewrite <- Zle_Qle. lia. }
    pose proof (pow2_pos et) as Pet.
    assert (Hee : pow2 (et + 1) <= pow2 ed) by (apply pow2_le; unfold et, ed; lia).
    rewrite pow2_succ in Hee.
    assert (H1 : t <= pow2 ed * inject_Z (2 ^ 52) * (1 - pow2 (-53))).
    { rewrite Et. 
      assert (inject_Z Mt * pow2 et <= (inject_Z (2 ^ 53) - 1) * pow2 et) by nra.
      assert ((inject_Z (2 ^ 53) - 1) * pow2 et
              == 2 * pow2 et * inject_Z (2 ^ 52) * (1 - pow2 (-53))).
      { change (2 ^ 53)%Z with (2 * 2 ^ 52)%Z in E53 |- *.
        rewrite inject_Z_mult in E53 |- *. change (inject_Z 2) with 2 in *.
        set (c := inject_Z (2 ^ 52)) in *. set (u := pow2 (-53)) in *.
        assert (2 * pow2 et * c * (1 - u) == 2 * pow2 et * c - pow2 et * (2 * c * u)) as -> by ring.
        rewrite E53. ring. }
      assert (H3 : 0 <= (pow2 ed - 2 * pow2 et) * (inject_Z (2 ^ 52) * (1 - pow2 (-53)))).
      { apply Qmult_le_0_compat; [lra|]. apply Qmult_le_0_compat; [discriminate | lra]. }
      assert (E4 : pow2 ed * inject_Z (2 ^ 52) * (1 - pow2 (-53))
                   - 2 * pow2 et * inject_Z (2 ^ 52) * (1 - pow2 (-53))
                   == (pow2 ed - 2 * pow2 et) * (inject_Z (2 ^ 52) * (1 - pow2 (-53))))
        by ring.
      lra. }
    rewrite Ed.
    assert (H4 : 0 <= (pow2 ed * (1 - pow2 (-53))) * (inject_Z Md - inject_Z (2 ^ 52))).
    { apply Qmult_le_0_compat; [|lra]. apply Qmult_le_0_compat; lra. }
    assert (E5 : inject_Z Md * pow2 ed * (1 - pow2 (-53))
                 - pow2 ed * inject_Z (2 ^ 52) * (1 - pow2 (-53))
                 == (pow2 ed * (1 - pow2 (-53))) * (inject_Z Md - inject_Z (2 ^ 52)))
      by ring.
    lra.
Qed.


Lemma float_le_nearest (f y : Q) : is_float f -> f <= y -> f <= nearest y.
Proof. intros Hf H. pose proof (nearest_mono f y H). unfold is_float in Hf. lra. Qed.

Lemma nearest_le_float (f y : Q) : is_float f -> y <= f -> nearest y <= f.
Proof. intros Hf H. pose proof (nearest_mono y f H). unfold is_float in Hf. lra. Qed.

(** Rounding gives back at most a relative [2^-53]. *)
Lemma nearest_above (x y : Q) :
  0 <= x -> x * (1 + pow2 (-53)) <= y -> x <= nearest y.
Proof.
  intros Hx Hxy.
  assert (Hu : 0 < pow2 (-53)) by apply pow2_pos.
  destruct (Qcompare_spec x 0) as [E0 | E0 | E0]; [|lra|].
  { rewrite E0. apply nearest_nonneg. rewrite E0 in Hxy. lra. }
  assert (Hy : 0 < y) by nra.
  rewrite (nearest_of_pos y Hy). unfold nearest_pos.
  destruct (scaled_bounds y Hy) as [S1 _].
  set (p := pow2 (ilog2 y - 52)) in *. set (s := y / p) in *.
  assert (Pp : 0 < p) by apply pow2_pos.
  assert (Es : s * p == y) by (unfold s; field; lra).
  assert (HF : inject_Z (2 ^ 52) <= inject_Z (Qfloor s)).
  { rewrite <- Zle_Qle. rewrite <- (Qfloor_Z (2 ^ 52)). apply Qfloor_resp_le, S1. }
  assert (E52 : inject_Z (2 ^ 52) * pow2 (-53) == 1 # 2).
  { rewrite <- pow2_Z by lia. rewrite <- pow2_add. reflexivity. }
  set (F := inject_Z (Qfloor s)) in *. set (u := pow2 (-53)) in *.
  assert (HFu : 1 # 2 <= F * u) by nra.
  assert (A : forall R : Q, F <= R -> s <= F * (1 + u) -> x <= R * p).
  { intros R HR Hs.
    assert (H1 : 0 <= (1 + u) * (F * p - x)).
    { assert (E : (1 + u) * (F * p - x) == (F * (1 + u) - s) * p + (s * p - x * (1 + u)))
        by ring.
      rewrite E. apply (Qle_trans _ (0 + 0)); [discriminate|].
      apply Qplus_le_compat; [apply Qmult_le_0_compat; lra | lra]. }
    assert (H2 : 0 <= F * p - x).
    { apply (Qmult_le_l _ _ (1 + u)); [lra|]. rewrite Qmult_0_r. exact H1. }
    assert (H3 : 0 <= (R - F) * p) by (apply Qmult_le_0_compat; lra).
    assert (E3 : (R - F) * p == R * p - F * p) by ring. lra. }
  pose proof (frac_bounds s) as [Fb0 Fb1]. fold F in Fb0, Fb1.
  destruct (rne_cases s) as [[Hc ->] | [[Hc ->] | [Hc Hr]]].
  - apply A; [apply Qle_refl|]. fold F in Hc. lra.
  - fold F in Hc. rewrite inject_Z_plus. fold F. change (inject_Z 1) with 1.
    assert (H3 : 0 <= (F + 1 - s) * p) by (apply Qmult_le_0_compat; lra).
    assert (E3 : (F + 1 - s) * p == (F + 1) * p - s * p) by ring.
    assert (H4 : 0 <= x * u) by (apply Qmult_le_0_compat; lra).
    assert (E4 : x * (1 + u) == x + x * u) by ring. lra.
  - fold F in Hc. apply A; [|lra].
    destruct Hr as [-> | ->]; [apply Qle_refl|].
    rewrite inject_Z_plus. fold F. change (inject_Z 1) with 1. lra.
Qed.


(** Rounding moves a number by at most a relative [2^-53]. *)
Lemma nearest_error_pos (x : Q) :
  0 <= x ->
  x * (1 - pow2 (-53)) <= nearest x /\ nearest x <= x * (1 + pow2 (-53)).
Proof.
  intro Hx. assert (Hu : 0 < pow2 (-53)) by apply pow2_pos.
  destruct (Qcompare_spec x 0) as [E0 | E0 | E0]; [|lra|].
  { rewrite (nearest_of_zero x E0), E0. lra. }
  rewrite (nearest_of_pos x E0). unfold nearest_pos.
  destruct (scaled_bounds x E0) as [S1 _].
  set (p := pow2 (ilog2 x - 52)) in *. set (s := x / p) in *.
  assert (Pp : 0 < p) by apply pow2_pos.
  assert (Es : s * p == x) by (unfold s; field; lra).
  assert (E52 : inject_Z (2 ^ 52) * pow2 (-53) == 1 # 2).
  { rewrite <- pow2_Z by lia. rewrite <- pow2_add. reflexivity. }
  destruct (rne_near s) as [N1 N2].
  set (R := inject_Z (rne s)) in *. set (u := pow2 (-53)) in *.
  assert (Hs : 1 # 2 <= s * u) by nra.
  assert (H1 : 0 <= (R - s + s * u) * p) by (apply Qmult_le_0_compat; lra).
  assert (H2 : 0 <= (s + s * u - R) * p) by (apply Qmult_le_0_compat; lra).
  assert (E1 : (R - s + s * u) * p == R * p - s * p * (1 - u)) by ring.
  assert (E2 : (s + s * u - R) * p == s * p * (1 + u) - R * p) by ring.
  rewrite <- Es. lra.
Qed.

Lemma nearest_error (x : Q) : Qabs (nearest x - x) <= Qabs x * pow2 (-53).
Proof.
  assert (Hu : 0 < pow2 (-53)) by apply pow2_pos.
  destruct (Qlt_le_dec x 0) as [H | H].
  - destruct (nearest_error_pos (- x)) as [H1 H2]; [lra|].
    rewrite nearest_opp in H1, H2.
    rewrite (Qabs_neg x) by lra. apply Qabs_Qle_condition. lra.
  - destruct (nearest_error_pos x H) as [H1 H2].
    rewrite (Qabs_pos x) by lra. apply Qabs_Qle_condition. lra.
Qed.

Lemma pow2_53_lt_1 : pow2 (-53) < 1.
Proof. reflexivity. Qed.

(** The largest float below one. *)
Lemma is_float_below_one : is_float (1 - pow2 (-53)).
Proof.
  apply (is_float_comp (inject_Z (2 ^ 53 - 1) * pow2 (-53))).
  - reflexivity.
  - apply nearest_exact. lia.
Qed.

(** One more rounding on a value known to within [e] of [x]. *)
Lemma nearest_step (y x e b : Q) :
  Qabs (y - x) <= e -> Qabs x <= b ->
  Qabs (nearest y - x) <= e + pow2 (-53) * (b + e).
Proof.
  intros He Hb. pose proof (nearest_error y) as Hn.
  assert (Hu : 0 < pow2 (-53)) by apply pow2_pos.
  assert (Hy : Qabs y <= b + e).
  { assert (E : y == x + (y - x)) by ring. rewrite E at 1.
    eapply Qle_trans; [apply Qabs_triangle|]. lra. }
  assert (Hyu : Qabs y * pow2 (-53) <= (b + e) * pow2 (-53))
    by (apply Qmult_le_compat_r; lra).
  assert (E : nearest y - x == (nearest y - y) + (y - x)) by ring.
  rewrite E. eapply Qle_trans; [apply Qabs_triangle|]. lra.
Qed.

Lemma pow2_53 : pow2 (-53) = 1 # 9007199254740992.
Proof. reflexivity. Qed.

Lemma mul_step (y x e b k : Q) :
  0 <= k -> Qabs (y - x) <= e -> Qabs x <= b ->
  Qabs (mul y k - x * k) <= (e + pow2 (-53) * (b + e)) * k.
Proof.
  intros Hk He Hb. unfold mul.
  assert (H1 : Qabs (y * k - x * k) <= e * k).
  { assert (E : y * k - x * k == (y - x) * k) by ring.
    rewrite E, Qabs_Qmult, (Qabs_pos k Hk). apply Qmult_le_compat_r; assumption. }
  assert (H2 : Qabs (x * k) <= b * k).
  { rewrite Qabs_Qmult, (Qabs_pos k Hk). apply Qmult_le_compat_r; assumption. }
  pose proof (nearest_step _ _ _ _ H1 H2) as H. 
  assert (E : (e + pow2 (-53) * (b + e)) * k == e * k + pow2 (-53) * (b * k + e * k))
    by ring.
  rewrite E. exact H.
Qed.

Lemma truediv_step (y x e b d : Q) :
  0 < d -> Qabs (y - x) <= e -> Qabs x <= b ->
  Qabs (truediv y d - x / d) <= (e + pow2 (-53) * (b + e)) / d.
Proof.
  intros Hd He Hb. apply (mul_step y x e b (/ d)); try assumption.
  apply Qlt_le_weak, Qinv_lt_0_compat, Hd.
Qed.

Lemma sub_step (y1 x1 e1 y2 x2 e2 b : Q) :
  Qabs (y1 - x1) <= e1 -> Qabs (y2 - x2) <= e2 -> Qabs (x1 - x2) <= b ->
  Qabs (sub y1 y2 - (x1 - x2)) <= e1 + e2 + pow2 (-53) * (b + (e1 + e2)).
Proof.
  intros H1 H2 Hb. unfold sub. apply nearest_step; [|exact Hb].
  assert (E : y1 - y2 - (x1 - x2) == (y1 - x1) + - (y2 - x2)) by ring.
  rewrite E. eapply Qle_trans; [apply Qabs_triangle|].
  rewrite Qabs_opp. lra.
Qed.

Lemma nearest_nonneg_iff (x : Q) : 0 <= nearest x <-> 0 <= x.
Proof.
  split; [|apply nearest_nonneg].
  intro H. destruct (Qlt_le_dec x 0) as [Hx | Hx]; [|exact Hx].
  pose proof (nearest_neg_lt x Hx). lra.
Qed.

Lemma nearest_pos_iff (x : Q) : 0 < nearest x <-> 0 < x.
Proof.
  split; [|apply nearest_pos_lt].
  intro H. destruct (Qlt_le_dec 0 x) as [Hx | Hx]; [exact Hx|].
  pose proof (nearest_nonpos x Hx). lra.
Qed.

Lemma nearest_zero_iff (x : Q) : nearest x == 0 <-> x == 0.
Proof.
  split; [|apply nearest_of_zero].
  intro H. destruct (Qcompare_spec x 0) as [E | E | E]; [exact E | |].
  - pose proof (nearest_neg_lt x E). lra.
  - pose proof (nearest_pos_lt x E). lra.
Qed.

End FloatFacts.

(** ** Facts about the built-ins *)

Module PyFacts.
Import Py.

Lemma ltb_lt (x y : Q) : ltb x y = true <-> (x < y)%Q.
Proof.
  unfold ltb. rewrite negb_true_iff. split; intro H.
  - apply Qnot_le_lt. intro Hle. apply Qle_bool_iff in Hle. congruence.
  - destruct (Qle_bool y x) eqn:E; [|reflexivity].
    apply Qle_bool_iff in E. exfalso. exact (Qlt_not_le _ _ H E).
Qed.

Lemma ltb_ge (x y : Q) : ltb x y = false <-> (y <= x)%Q.
Proof.
  unfold ltb. rewrite negb_false_iff. apply Qle_bool_iff.
Qed.

Lemma leb_le (x y : Q) : leb x y = true <-> (x <= y)%Q.
Proof. apply Qle_bool_iff. Qed.

(** [int] agrees with the floor on what is not negative... *)
Lemma int_of_float_nonneg (x : Q) : (0 <= x)%Q -> int_of_float x = Qfloor x.
Proof.
  destruct x as [n d]. unfold Qle, int_of_float, Qfloor. simpl.
  intro H. apply Z.quot_div_nonneg; lia.
Qed.

(** ... and with the ceiling on what is not positive. *)
Lemma int_of_float_nonpos (x : Q) : (x <= 0)%Q -> int_of_float x = Qceiling x.
Proof.
  destruct x as [n d]. unfold Qle, int_of_float, Qceiling, Qfloor. simpl.
  intro H. replace n with (- (- n)) at 1 by lia.
  rewrite Z.quot_opp_l by lia.
  rewrite Z.quot_div_nonneg by lia. reflexivity.
Qed.

Lemma int_of_float_toward_zero (x : Q) :
  int_of_float x = if Qle_bool 0 x then Qfloor x else Qceiling x.
Proof.
  destruct (Qle_bool 0 x) eqn:E.
  - apply int_of_float_nonneg, Qle_bool_iff, E.
  - apply int_of_float_nonpos. apply Qlt_le_weak, Qnot_le_lt.
    intro H. apply Qle_bool_iff in H. congruence.
Qed.

Lemma int_of_float_comp (x y : Q) : (x == y)%Q -> int_of_float x = int_of_float y.
Proof.
  intro H. rewrite !int_of_float_toward_zero.
  assert (Qle_bool 0 x = Qle_bool 0 y) as ->.
  { destruct (Qle_bool 0 y) eqn:E.
    - apply Qle_bool_iff. rewrite H. apply Qle_bool_iff, E.
    - destruct (Qle_bool 0 x) eqn:E'; [|reflexivity].
      apply Qle_bool_iff in E'. rewrite H in E'.
      apply Qle_bool_iff in E'. congruence. }
  destruct (Qle_bool 0 y); [apply Qfloor_comp | apply Qceiling_comp]; exact H.
Qed.

Lemma int_of_float_mono_nonneg (x y : Q) :
  (0 <= x)%Q -> (x <= y)%Q -> int_of_float x <= int_of_float y.
Proof.
  intros Hx Hxy. rewrite !int_of_float_nonneg.
  - apply Qfloor_resp_le, Hxy.
  - apply Qle_trans with x; assumption.
  - assumption.
Qed.

Lemma int_of_float_nonneg_ge (x : Q) : (0 <= x)%Q -> 0 <= int_of_float x.
Proof.
  intro H. rewrite int_of_float_nonneg by assumption.
  change 0 with (Qfloor 0). apply Qfloor_resp_le, H.
Qed.

(** The quotient and remainder of [divmod] by sixty. *)
Lemma divmod_60 (a : Z) :
  0 <= a -> 0 <= fst (divmod a 60) /\ 0 <= snd (divmod a 60) < 60.
Proof.
  intro H. unfold divmod. simpl. split.
  - apply Z.div_pos; lia.
  - apply Z.mod_pos_bound. lia.
Qed.

Lemma min_le_l (a b : Q) : (min a b <= a)%Q.
Proof.
  unfold min. destruct (ltb b a) eqn:E.
  - apply Qlt_le_weak, ltb_lt, E.
  - apply Qle_refl.
Qed.

Lemma min_mono (a x y : Q) : (x <= y)%Q -> (min a x <= min a y)%Q.
Proof.
  intro H. unfold min.
  destruct (ltb x a) eqn:Ex, (ltb y a) eqn:Ey.
  - exact H.
  - apply Qlt_le_weak, ltb_lt, Ex.
  - apply ltb_ge in Ex. apply ltb_lt in Ey.
    exfalso. apply (Qlt_not_le _ _ Ey). apply Qle_trans with x; assumption.
  - apply Qle_refl.
Qed.

Lemma min_nonneg (a x : Q) : (0 <= a)%Q -> (0 <= x)%Q -> (0 <= min a x)%Q.
Proof. intros Ha Hx. unfold min. destruct (ltb x a); assumption. Qed.

(** *** Digits *)

Lemma digit_val_nonneg (c : ascii) : is_digit c = true -> 0 <= digit_val c.
Proof.
  unfold is_digit, digit_val. rewrite andb_true_iff.
  generalize (nat_of_ascii c). intros n [H _].
  apply Nat.leb_le in H. lia.
Qed.

Lemma fold_digits_nonneg (l : list ascii) (acc : Z) :
  all_digits l -> 0 <= acc ->
  0 <= fold_left (fun a c => 10 * a + digit_val c) l acc.
Proof.
  revert acc. induction l as [|c l IH]; intros acc Hl Hacc; cbn [fold_left].
  - exact Hacc.
  - inversion Hl as [|? ? Hc Hl']; subst. apply IH; [exact Hl'|].
    pose proof (digit_val_nonneg c Hc). lia.
Qed.

Lemma digits_val_nonneg (l : list ascii) : all_digits l -> 0 <= digits_val l.
Proof. intro H. apply fold_digits_nonneg; [exact H | lia]. Qed.

Lemma span_digits_all (s ds r : string) :
  span_digits s = (ds, r) -> all_digits (list_ascii_of_string ds).
Proof.
  revert ds r. induction s as [|c s IH]; intros ds r H; simpl in H.
  - inversion H; subst. constructor.
  - destruct (is_digit c) eqn:Ec.
    + destruct (span_digits s) as [ds' r'] eqn:E.
      inversion H; subst. simpl. constructor; [exact Ec|].
      eapply IH. reflexivity.
    + inversion H; subst. constructor.
Qed.

Lemma digits_then_all (sep : ascii) (s ds r : string) :
  digits_then sep s = Some (ds, r) -> all_digits (list_ascii_of_string ds).
Proof.
  unfold digits_then. destruct (span_digits s) as [ds' r'] eqn:E.
  destruct ds' as [|c ds']; [discriminate|].
  destruct r' as [|c' r']; [discriminate|].
  destruct (Ascii.eqb c' sep); [|discriminate].
  intro H. inversion H; subst. eapply span_digits_all, E.
Qed.

Lemma list_ascii_of_append (a b : string) :
  list_ascii_of_string (String.append a b)
  = list_ascii_of_string a ++ list_ascii_of_string b.
Proof. induction a as [|c a IH]; simpl; [reflexivity | now rewrite IH]. Qed.

(** The groups of a match are made of digits. *)
Lemma match_time_here_digits (s h m si sf : string) :
  match_time_here s = Some (h, m, (si, sf)) ->
  all_digits (list_ascii_of_string h) /\ all_digits (list_ascii_of_string m)
  /\ all_digits (list_ascii_of_string (String.append si sf)).
Proof.
  unfold match_time_here.
  destruct (drop_prefix "time=" s) as [r|]; [|discriminate].
  destruct (digits_then ":" r) as [[h' r1]|] eqn:E1; [|discriminate].
  destruct (digits_then ":" r1) as [[m' r2]|] eqn:E2; [|discriminate].
  destruct (digits_then "." r2) as [[si' r3]|] eqn:E3; [|discriminate].
  destruct (span_digits r3) as [sf' r4] eqn:E4.
  destruct sf' as [|c sf']; [discriminate|].
  intro H. inversion H; subst.
  split; [eapply digits_then_all, E1|].
  split; [eapply digits_then_all, E2|].
  rewrite list_ascii_of_append. apply Forall_app. split.
  - eapply digits_then_all, E3.
  - eapply span_digits_all, E4.
Qed.

Lemma search_time_digits (s h m si sf : string) :
  search_time s = Some (h, m, (si, sf)) ->
  all_digits (list_ascii_of_string h) /\ all_digits (list_ascii_of_string m)
  /\ all_digits (list_ascii_of_string (String.append si sf)).
Proof.
  induction s as [|c s IH]; cbn [search_time].
  - destruct (match_time_here "") as [g|] eqn:E; [|discriminate].
    intro H. inversion H; subst. eapply match_time_here_digits, E.
  - destruct (match_time_here (String c s)) as [g|] eqn:E.
    + intro H. inversion H; subst. eapply match_time_here_digits, E.
    + exact IH.
Qed.

Lemma float_of_fixed_nonneg (si sf : string) :
  all_digits (list_ascii_of_string (String.append si sf)) ->
  (0 <= float_of_fixed si sf)%Q.
Proof.
  intro H. unfold float_of_fixed. apply FloatFacts.nearest_nonneg.
  unfold Qle. simpl. pose proof (digits_val_nonneg _ H). lia.
Qed.

End PyFacts.

(** ** The bitrate computation of compression.py *)

Module BitrateFacts.
Import Py Run PyFacts FloatFacts Compression Stated.

(** The sign of a quotient by a positive number. *)
Lemma truediv_nonneg_iff (y d : Q) :
  (0 < d)%Q -> (0 <= truediv y d)%Q <-> (0 <= y)%Q.
Proof.
  intro Hd. unfold truediv. rewrite nearest_nonneg_iff.
  pose proof (Qinv_lt_0_compat d Hd) as Hi. unfold Qdiv. split; intro H.
  - destruct (Qlt_le_dec y 0) as [Hy | Hy]; [|exact Hy].
    assert (0 < (- y) * / d)%Q by (apply Qmult_lt_0_compat; lra).
    assert (E : (- y * / d == - (y * / d))%Q) by ring. lra.
  - apply Qmult_le_0_compat; lra.
Qed.

(** The quotient that [int] truncates is not negative exactly when
    the audio bits, as computed, do not exceed the target bits. *)
Lemma video_quotient_sign (max_size_gb : Q) (audio_bitrate : Z) (duration : Q) :
  (0 < duration)%Q ->
  (0 <= truediv (video_bitrate max_size_gb audio_bitrate duration) 1000)%Q
  <-> (audio_bits_total audio_bitrate duration <= target_bits max_size_gb)%Q.
Proof.
  intro Hd. rewrite truediv_nonneg_iff by reflexivity.
  unfold video_bitrate. rewrite truediv_nonneg_iff by exact Hd.
  unfold video_bits_total, sub. rewrite nearest_nonneg_iff. split; intro H; lra.
Qed.

(** The target, after its four products. *)
Lemma target_bits_error (max_size_gb : Q) :
  (Qabs (target_bits max_size_gb - max_size_gb * 1073741824 * 8)
   <= 5 * pow2 (-53) * Qabs (max_size_gb * 1073741824 * 8))%Q.
Proof.
  set (g := max_size_gb). set (G := Qabs g).
  assert (HG : (0 <= G)%Q) by apply Qabs_nonneg.
  assert (H0 : (Qabs (g - g) <= 0)%Q).
  { assert (E : (g - g == 0)%Q) by ring. rewrite E. apply Qle_refl. }
  assert (B0 : (Qabs g <= G)%Q) by apply Qle_refl.
  pose proof (mul_step g g 0 G 1024 ltac:(discriminate) H0 B0) as H1.
  assert (B1 : (Qabs (g * 1024) <= G * 1024)%Q).
  { rewrite Qabs_Qmult. apply Qle_refl. }
  pose proof (mul_step _ _ _ _ 1024 ltac:(discriminate) H1 B1) as H2.
  assert (B2 : (Qabs (g * 1024 * 1024) <= G * 1024 * 1024)%Q).
  { rewrite !Qabs_Qmult. apply Qle_refl. }
  pose proof (mul_step _ _ _ _ 1024 ltac:(discriminate) H2 B2) as H3.
  assert (B3 : (Qabs (g * 1024 * 1024 * 1024) <= G * 1024 * 1024 * 1024)%Q).
  { rewrite !Qabs_Qmult. apply Qle_refl. }
  pose proof (mul_step _ _ _ _ 8 ltac:(discriminate) H3 B3) as H4.
  unfold target_bits. fold g.
  assert (E : (g * 1073741824 * 8 == g * 1024 * 1024 * 1024 * 8)%Q) by ring.
  rewrite E, !Qabs_Qmult. fold G.
  change (Qabs 1024) with 1024%Q. change (Qabs 8) with 8%Q.
  rewrite pow2_53 in *. lra.
Qed.

(** The audio bits, after the conversion of the bit rate and the
    product. *)
Lemma audio_bits_error (audio_bitrate : Z) (duration : Q) :
  0 <= audio_bitrate -> (0 < duration)%Q ->
  (Qabs (audio_bits_total audio_bitrate duration - inject_Z audio_bitrate * duration)
   <= 3 * pow2 (-53) * (inject_Z audio_bitrate * duration))%Q.
Proof.
  intros Hb Hd. set (A := inject_Z audio_bitrate).
  assert (HA : (0 <= A)%Q) by (unfold A; change 0%Q with (inject_Z 0); now rewrite <- Zle_Qle).
  assert (H0 : (Qabs (A - A) <= 0)%Q).
  { assert (E : (A - A == 0)%Q) by ring. rewrite E. apply Qle_refl. }
  assert (B0 : (Qabs A <= A)%Q) by (rewrite Qabs_pos; [apply Qle_refl | exact HA]).
  pose proof (nearest_step A A 0 A H0 B0) as H1.
  pose proof (mul_step _ _ _ _ duration (Qlt_le_weak _ _ Hd) H1 B0) as H2.
  unfold audio_bits_total, float_of_int. fold A.
  assert (Ha : (0 <= A * duration)%Q) by (apply Qmult_le_0_compat; lra).
  rewrite pow2_53 in *.
  eapply Qle_trans; [exact H2|].
  assert (E : ((0 + (1 # 9007199254740992) * (A + 0)
                + (1 # 9007199254740992)
                  * (A + (0 + (1 # 9007199254740992) * (A + 0)))) * duration
               == ((2 # 9007199254740992)
                   + (1 # 9007199254740992) * (1 # 9007199254740992))
                  * (A * duration))%Q) by ring.
  rewrite E.
  assert (E' : (3 * (1 # 9007199254740992) * (A * duration)
                == (3 # 9007199254740992) * (A * duration))%Q) by ring.
  rewrite E'. apply Qmult_le_compat_r; [|exact Ha]. discriminate.
Qed.

(** The quotient that [int] truncates, against the quotient of
    section 4.2. *)
Lemma video_quotient_error (max_size_gb : Q) (audio_bitrate : Z) (duration : Q) :
  0 <= audio_bitrate -> (0 < duration)%Q ->
  (Qabs (truediv (video_bitrate max_size_gb audio_bitrate duration) 1000
         - kbps_quotient (max_size_gb * 1073741824) duration audio_bitrate)
   <= pow2 (-49)
      * ((Qabs (max_size_gb * 1073741824 * 8) + inject_Z audio_bitrate * duration)
         / duration / 1000))%Q.
Proof.
  intros Hb Hd.
  pose proof (target_bits_error max_size_gb) as HT.
  pose proof (audio_bits_error audio_bitrate duration Hb Hd) as Ha.
  set (T := (max_size_gb * 1073741824 * 8)%Q) in *.
  set (a := (inject_Z audio_bitrate * duration)%Q) in *.
  set (tau := Qabs T) in *.
  assert (Htau : (0 <= tau)%Q) by apply Qabs_nonneg.
  assert (Hpa : (0 <= a)%Q).
  { unfold a. apply Qmult_le_0_compat; [|lra].
    change 0%Q with (inject_Z 0). now rewrite <- Zle_Qle. }
  assert (HN : (Qabs (T - a) <= tau + a)%Q).
  { assert (E : (T - a == T + - a)%Q) by ring. rewrite E.
    eapply Qle_trans; [apply Qabs_triangle|].
    rewrite Qabs_opp, (Qabs_pos a Hpa). apply Qle_refl. }
  pose proof (sub_step _ _ _ _ _ _ _ HT Ha HN) as Hn.
  set (S := (tau + a)%Q) in *.
  assert (Hn' : (Qabs (video_bits_total max_size_gb audio_bitrate duration - (T - a))
                 <= 7 * pow2 (-53) * S)%Q).
  { unfold video_bits_total. eapply Qle_trans; [exact Hn|].
    unfold S. rewrite pow2_53. lra. }
  pose proof (truediv_step _ _ _ _ duration Hd Hn' HN) as Hw.
  set (Sd := (S / duration)%Q).
  assert (HSd : (0 <= Sd)%Q).
  { unfold Sd, Qdiv. apply Qmult_le_0_compat; [unfold S; lra|].
    apply Qlt_le_weak, Qinv_lt_0_compat, Hd. }
  assert (Hw' : (Qabs (video_bitrate max_size_gb audio_bitrate duration
                       - (T - a) / duration)
                 <= 9 * pow2 (-53) * Sd)%Q).
  { unfold video_bitrate. eapply Qle_trans; [exact Hw|].
    assert (E : ((7 * pow2 (-53) * S + pow2 (-53) * (S + 7 * pow2 (-53) * S)) / duration
                 == (8 * pow2 (-53) + 7 * pow2 (-53) * pow2 (-53)) * Sd)%Q).
    { unfold Sd. field. lra. }
    rewrite E, pow2_53. lra. }
  assert (HNd : (Qabs ((T - a) / duration) <= Sd)%Q).
  { unfold Sd, Qdiv. rewrite Qabs_Qmult.
    rewrite (Qabs_pos (/ duration)) by apply Qlt_le_weak, Qinv_lt_0_compat, Hd.
    apply Qmult_le_compat_r; [exact HN|].
    apply Qlt_le_weak, Qinv_lt_0_compat, Hd. }
  pose proof (truediv_step _ _ _ _ 1000 ltac:(reflexivity) Hw' HNd) as Hv.
  unfold kbps_quotient. fold T a.
  eapply Qle_trans; [exact Hv|].
  assert (E : ((9 * pow2 (-53) * Sd + pow2 (-53) * (Sd + 9 * pow2 (-53) * Sd)) / 1000
               == (10 * pow2 (-53) + 9 * pow2 (-53) * pow2 (-53)) * (Sd / 1000))%Q)
    by field.
  rewrite E.
  fold S. fold Sd.
  assert (HSk : (0 <= Sd / 1000)%Q).
  { unfold Qdiv. apply Qmult_le_0_compat; [exact HSd | discriminate]. }
  apply Qmult_le_compat_r; [|exact HSk]. vm_compute. discriminate.
Qed.

(** C1, as the code has it: the bitrate computation of
    [run_compression] truncates toward zero, with [int], the quotient
    [(targetSizeBytes*8 - audioBitrateBps*duration) / duration / 1000]
    as double-precision arithmetic computes it, each operation being
    rounded. The computed quotient differs from the exact one by at
    most [2^-49] of [(|targetSizeBytes*8| + audioBitrateBps*duration)
    / duration / 1000], and it is truncated to its floor exactly when
    the audio bits, as computed, do not exceed the target bits. For
    1 GiB, 600 s and 128000 bps the result is 14188. *)
Theorem video_bitrate_kbps_rounds_toward_zero
        (max_size_gb : Q) (audioBitrateBps : Z) (duration : Q) :
  (0 < duration)%Q -> 0 <= audioBitrateBps ->
  let targetSizeBytes := (max_size_gb * 1073741824)%Q in
  let x := kbps_quotient targetSizeBytes duration audioBitrateBps in
  let v := truediv (video_bitrate max_size_gb audioBitrateBps duration) 1000 in
  video_bitrate_kbps max_size_gb audioBitrateBps duration
  = (if Qle_bool 0 v then Qfloor v else Qceiling v)
  /\ (Qabs (v - x)
      <= pow2 (-49)
         * ((Qabs (targetSizeBytes * 8) + inject_Z audioBitrateBps * duration)
            / duration / 1000))%Q
  /\ (Qle_bool 0 v = true
      <-> (audio_bits_total audioBitrateBps duration <= target_bits max_size_gb)%Q)
  /\ video_bitrate_kbps 1 128000 600 = 14188.
Proof.
  intros Hd Hb targetSizeBytes x v. split; [|split; [|split]].
  - apply int_of_float_toward_zero.
  - apply video_quotient_error; assumption.
  - rewrite Qle_bool_iff. apply video_quotient_sign, Hd.
  - vm_compute. reflexivity.
Qed.

Lemma video_bitrate_kbps_rounds_toward_zero_witness :
  Qle_bool 0 (truediv (video_bitrate 2 192000 3600) 1000) = true
  <-> (audio_bits_total 192000 3600 <= target_bits 2)%Q.
Proof.
  assert (Hd : (0 < 3600)%Q) by reflexivity.
  assert (Hb : 0 <= 192000) by lia.
  exact (proj1 (proj2 (proj2 (video_bitrate_kbps_rounds_toward_zero
                                2 192000 3600 Hd Hb)))).
Defined.

(** C1, as stated, fails. The scenario yields 14188 and not 14216.
    With a target of 0.001 GiB for the same file the quotient is about
    -113.7, which [int] rounds to -113, above its floor -114. And the
    result is not always the floor of the exact quotient where that is
    positive: for 1 GiB, 128000 bps and the float nearest to
    524.288 s, the exact quotient is below 16256 and the result is
    16256. *)
Lemma video_bitrate_kbps_not_14216 :
  video_bitrate_kbps 1 128000 600 <> 14216
  /\ Qfloor (kbps_quotient 1073741824 600 128000) = 14188
  /\ video_bitrate_kbps (nearest (1 # 1000)) 128000 600 = -113
  /\ Qfloor (kbps_quotient (nearest (1 # 1000) * 1073741824) 600 128000) = -114
  /\ video_bitrate_kbps 1 128000 (nearest (524288 # 1000)) = 16256
  /\ Qfloor (kbps_quotient 1073741824 (nearest (524288 # 1000)) 128000) = 16255.
Proof. vm_compute. repeat split; discriminate. Qed.

End BitrateFacts.
(** ** The jobs and the duration probe *)

Module ProbeFacts.
Import Py Run PyFacts Stated.

Lemma absent_compression (s : string) :
  absent s -> Compression.probe_duration s = None.
Proof.
  unfold absent, Compression.probe_duration.
  destruct (float_of_str s) as [[d|[|]|]|]; try reflexivity.
  - intro H. apply leb_le in H. now rewrite H.
  - discriminate.
  - contradiction.
Qed.

Lemma absent_audio_fix (s : string) :
  absent s ->
  AudioFix.probe_duration s = Build_run [Print (Duration_unknown s)] (Returned None).
Proof.
  unfold absent, AudioFix.probe_duration.
  destruct (float_of_str s) as [[d|[|]|]|]; try reflexivity.
  - intro H. apply leb_le in H. now rewrite H.
  - discriminate.
  - contradiction.
Qed.

(** Without a duration the supervisor of the audio fix reads the
    lines and reports nothing. *)
Lemma read_loop_unknown (gui : bool) (clock : nat -> Q) (reads : list string)
      (start_time : option Q) (tick : nat) :
  AudioFix.read_loop None gui clock reads start_time tick = ret tt.
Proof.
  induction reads as [|line rest IH]; simpl; [reflexivity|].
  destruct (String.eqb line ""); [exact IH|].
  destruct (contains "time=" line); exact IH.
Qed.

Lemma run_audio_fix_unknown (w : AudioFix.world) (gui : bool) (cmd : list arg) :
  AudioFix.run_ffmpeg_and_report w None gui cmd
  = if AudioFix.returncode w =? 0
    then Build_run [Popen cmd; Print Audio_fix_completed] (Returned tt)
    else Build_run [Popen cmd] (Raised (RuntimeError (AudioFix.returncode w))).
Proof.
  unfold AudioFix.run_ffmpeg_and_report. rewrite read_loop_unknown.
  unfold AudioFix.finish_bar. rewrite andb_false_r.
  destruct (AudioFix.returncode w =? 0); reflexivity.
Qed.

(** C3, as the code has it: when the duration probe yields an absent
    value (a text that is not a number, such as the empty text or
    "N/A", or a number that is not positive), [run_compression] prints
    that it aborts and returns without launching the transcoder;
    [run_audio_fix] prints that the duration is unknown, launches the
    transcoder all the same and reports no progress. *)
Theorem absent_duration_aborts_compression_only
        (wc : Compression.world) (sub_option : string) (sub_file : option string)
        (max_size_gb : Q) (wa : AudioFix.world) (audio_channels sample_rate : Z)
        (audio_bitrate : string) (gui_progress : bool) :
  absent (Compression.duration_str wc) ->
  absent (AudioFix.duration_str wa) ->
  let cmd := AudioFix.ffmpeg_cmd audio_channels sample_rate audio_bitrate in
  Compression.run_compression wc sub_option sub_file max_size_gb gui_progress
  = Build_run [Print (Duration_unknown_aborting (Compression.duration_str wc))]
              (Returned tt)
  /\ (exists rest,
        trace (AudioFix.run_audio_fix wa audio_channels sample_rate
                                      audio_bitrate gui_progress)
        = [Print (Duration_unknown (AudioFix.duration_str wa));
           Print Running_audio_fix; Print (Command cmd); Popen cmd] ++ rest
        /\ percents rest = [])
  /\ absent "" /\ absent "N/A".
Proof.
  intros Hc Ha cmd. split; [|split; [|split]].
  - unfold Compression.run_compression.
    rewrite (absent_compression _ Hc). reflexivity.
  - unfold AudioFix.run_audio_fix. rewrite (absent_audio_fix _ Ha).
    fold cmd. unfold bind at 1. cbn [result trace].
    rewrite !run_audio_fix_unknown.
    destruct gui_progress, (AudioFix.returncode wa =? 0);
      unfold in_thread, bind, print, emit; cbn [result trace app];
      eexists; split; reflexivity.
  - exact I.
  - exact I.
Qed.

Lemma absent_duration_aborts_compression_only_witness :
  Compression.run_compression (Samples.compression_world "N/A" "128000" [] 0)
                              "none" None 1 true
  = Build_run [Print (Duration_unknown_aborting "N/A")] (Returned tt).
Proof.
  assert (Hc : absent "N/A") by exact I.
  assert (Ha : absent "0.0") by (vm_compute; discriminate).
  exact (proj1 (absent_duration_aborts_compression_only
                  (Samples.compression_world "N/A" "128000" [] 0) "none" None 1
                  (Samples.audio_fix_world "0.0" [] 0) 2 48000 "160k" true
                  Hc Ha)).
Defined.

(** C3, as stated, fails for the audio fix: with a duration probe
    that answers "N/A" the transcoder is launched and the job ends
    well. *)
Lemma audio_fix_launches_without_duration :
  absent "N/A"
  /\ AudioFix.run_audio_fix (Samples.audio_fix_world "N/A" ["time=00:00:01.00"] 0)
                            2 48000 "160k" true
     = Build_run [Print (Duration_unknown "N/A"); Print Running_audio_fix;
                  Print (Command (AudioFix.ffmpeg_cmd 2 48000 "160k"));
                  Popen (AudioFix.ffmpeg_cmd 2 48000 "160k");
                  Print Audio_fix_completed]
                 (Returned tt).
Proof. split; [exact I | vm_compute; reflexivity]. Qed.

End ProbeFacts.

(** ** The supervisor of compression.py *)

Module CompressionFacts.
Import Py Run PyFacts Compression Stated.

Lemma popen_succeeds (w : world) (cmd : list arg) :
  video_dir w <> "" -> popen w cmd = emit [Popen cmd].
Proof.
  intro H. unfold popen. apply String.eqb_neq in H. now rewrite H.
Qed.

(** Without a directory nothing is launched and nothing is reported. *)
Lemma run_ffmpeg_nowhere (w : world) (d : Q) (gui : bool) (cmd : list arg) :
  video_dir w = "" -> run_ffmpeg w d gui cmd = raise OSError.
Proof. intro H. unfold run_ffmpeg, popen. rewrite H. reflexivity. Qed.

Lemma run_ffmpeg_trace (w : world) (d : Q) (gui : bool) (cmd : list arg) :
  video_dir w <> "" ->
  run_ffmpeg w d gui cmd
  = Build_run
      (Popen cmd
       :: read_loop d gui (clock w) (clock w 0%nat) (stderr_reads w) 1
       ++ set_to_100 gui
       ++ [Print (if returncode w =? 0 then Compression_finished
                  else Compression_failed)])
      (Returned tt).
Proof.
  intro Hv. unfold run_ffmpeg. rewrite (popen_succeeds w cmd Hv).
  unfold bind, emit, print. simpl.
  destruct (returncode w =? 0); reflexivity.
Qed.

Lemma run_ffmpeg_and_finalize_trace (w : world) (d : Q) (cmd : list arg) :
  video_dir w <> "" ->
  run_ffmpeg_and_finalize w d cmd
  = Build_run
      (Popen cmd
       :: read_loop d false (clock w) (clock w 0%nat) (stderr_reads w) 1
       ++ set_to_100 false
       ++ [Print (if returncode w =? 0 then Compression_finished
                  else Compression_failed)]
       ++ (if winfo_exists w then [After_finalize_gui] else []))
      (Returned tt).
Proof.
  intro Hv. unfold run_ffmpeg_and_finalize. rewrite (run_ffmpeg_trace _ _ _ _ Hv).
  unfold bind, emit, ret. simpl.
  destruct (winfo_exists w); simpl; rewrite <- ?app_assoc; simpl;
    rewrite ?app_nil_r; reflexivity.
Qed.

(** C2, as the code has it: [run_compression] has no feasibility
    check. Whenever the duration probe gives a positive finite
    duration, the command line can be built and the file path names a
    directory for the transcoder to run in, the transcoder is launched
    with the computed video bitrate, whatever its sign, and the call
    returns without an error. *)
Theorem run_compression_always_launches
        (w : world) (sub_option : string) (sub_file : option string)
        (max_size_gb : Q) (gui_progress : bool)
        (d : Q) (audio_bitrate : Z) (cmd : list arg) :
  probe_duration (duration_str w) = Some (Finite d) ->
  result (probe_audio_bitrate (audio_bitrate_str w)) = Returned audio_bitrate ->
  ffmpeg_cmd sub_option sub_file (video_bitrate_kbps max_size_gb audio_bitrate d)
  = Some cmd ->
  video_dir w <> "" ->
  let r := run_compression w sub_option sub_file max_size_gb gui_progress in
  In (Popen cmd) (trace r)
  /\ In (Kbps (video_bitrate_kbps max_size_gb audio_bitrate d)) cmd
  /\ result r = Returned tt.
Proof.
  intros Hd Hb Hcmd Hv r. subst r. unfold run_compression. rewrite Hd.
  destruct (probe_audio_bitrate (audio_bitrate_str w)) as [tb rb].
  simpl in Hb. subst rb.
  unfold bind at 1. cbn [result trace].
  unfold bitrate_calculation, print, emit, ret, bind. cbn [result trace].
  rewrite Hcmd. unfold print_command, print, emit, ret, bind. cbn [result trace].
  assert (Hk : In (Kbps (video_bitrate_kbps max_size_gb audio_bitrate d)) cmd).
  { revert Hcmd. unfold ffmpeg_cmd, encode_args.
    destruct (String.eqb sub_option "soft").
    - destruct (truthy sub_file); [|discriminate].
      intro H. inversion H. simpl. tauto.
    - intro H. inversion H. simpl. tauto. }
  destruct gui_progress.
  - rewrite (run_ffmpeg_trace _ _ _ _ Hv). cbn [result trace].
    split; [|split; [exact Hk | reflexivity]].
    rewrite !in_app_iff. simpl. tauto.
  - rewrite (run_ffmpeg_and_finalize_trace _ _ _ Hv). unfold in_thread.
    cbn [result trace].
    split; [|split; [exact Hk | reflexivity]].
    rewrite !in_app_iff. simpl. tauto.
Qed.

Lemma run_compression_always_launches_witness :
  In (Popen (Samples.plain_cmd (-113)))
     (trace (run_compression (Samples.compression_world "600" "128000" [] 0)
                             "none" None (nearest (1 # 1000)) false)).
Proof.
  apply (run_compression_always_launches
           (Samples.compression_world "600" "128000" [] 0) "none" None
           (nearest (1 # 1000)) false 600 128000 (Samples.plain_cmd (-113)));
    try reflexivity. discriminate.
Defined.

(** C2, as stated, fails: with a target of 0.001 GiB for 600 s of
    audio at 128000 bps the computed bitrate is -113 kbps; no error is
    surfaced, the transcoder is launched with [-b:v -113k] and the run
    goes on to its end. *)
Lemma infeasible_target_is_launched :
  video_bitrate_kbps (nearest (1 # 1000)) 128000 600 = -113
  /\ run_compression (Samples.compression_world "600" "128000" [] 1)
                     "none" None (nearest (1 # 1000)) true
     = Build_run [Print (Duration_is (Finite 600));
                  Print (Audio_bitrate_is 128000);
                  Print (Target_video_bitrate (-113));
                  Print (Running_ffmpeg "none");
                  Print (Command (Samples.plain_cmd (-113)));
                  Print Blank;
                  Popen (Samples.plain_cmd (-113));
                  Gui_progress 100 (Some 0) (Some 0);
                  Print Compression_failed]
                 (Returned tt).
Proof. split; vm_compute; reflexivity. Qed.

End CompressionFacts.

(** ** Percentages and remaining time *)

Module ProgressFacts.
Import Py Run PyFacts FloatFacts Stated.

(** *** Arithmetic *)

Lemma quotient_nonneg (t d : Q) : (0 <= t)%Q -> (0 < d)%Q -> (0 <= t / d)%Q.
Proof.
  intros Ht Hd. apply Qmult_le_0_compat; [exact Ht|].
  apply Qinv_le_0_compat, Qlt_le_weak, Hd.
Qed.

Lemma quotient_pos (t d : Q) : (0 < t)%Q -> (0 < d)%Q -> (0 < t / d)%Q.
Proof.
  intros Ht Hd. apply Qlt_shift_div_l; [exact Hd|].
  rewrite Qmult_0_l. exact Ht.
Qed.

Lemma quotient_mono (t u d : Q) : (0 < d)%Q -> (t <= u)%Q -> (t / d <= u / d)%Q.
Proof.
  intros Hd Htu. apply Qmult_le_compat_r; [exact Htu|].
  apply Qinv_le_0_compat, Qlt_le_weak, Hd.
Qed.

Lemma ratio_nonneg (t d : Q) :
  (0 <= t)%Q -> (0 < d)%Q -> (0 <= mul (truediv t d) 100)%Q.
Proof.
  intros Ht Hd. apply nearest_nonneg.
  apply Qmult_le_0_compat; [|discriminate].
  apply nearest_nonneg, quotient_nonneg; assumption.
Qed.

Lemma ratio_mono (t u d : Q) :
  (0 < d)%Q -> (t <= u)%Q -> (mul (truediv t d) 100 <= mul (truediv u d) 100)%Q.
Proof.
  intros Hd Htu. apply nearest_mono.
  apply Qmult_le_compat_r; [|discriminate].
  apply nearest_mono, quotient_mono; assumption.
Qed.

Lemma ratio_pos (t d : Q) : (0 < t)%Q -> (0 < d)%Q -> (0 < truediv t d)%Q.
Proof. intros Ht Hd. apply nearest_pos_lt, quotient_pos; assumption. Qed.

Lemma ratio_percent_pos (t d : Q) :
  (0 < t)%Q -> (0 < d)%Q -> (0 < mul (truediv t d) 100)%Q.
Proof.
  intros Ht Hd. apply nearest_pos_lt.
  pose proof (ratio_pos t d Ht Hd). lra.
Qed.

(** A rounded product below 100 comes from a fraction below one. *)
Lemma ratio_below_100 (r : Q) : (mul r 100 < 100)%Q -> (r < 1)%Q.
Proof.
  intro H. apply Qnot_le_lt. intro Hr.
  assert (H100 : (100 <= mul r 100)%Q).
  { apply float_le_nearest; [apply (is_float_Z 100); vm_compute; discriminate | lra]. }
  lra.
Qed.

(** What is left of a run that is a fraction [r] through, after
    [elapsed] seconds: the quotient by a float below one is rounded to
    no less than [elapsed]. *)
Lemma remaining_nonneg (elapsed r : Q) :
  (0 <= elapsed)%Q -> (0 < r)%Q -> is_float r -> (r < 1)%Q ->
  (0 <= sub (truediv elapsed r) elapsed)%Q.
Proof.
  intros He Hr Fr Hr1.
  assert (F1 : is_float 1) by (apply (is_float_Z 1); vm_compute; discriminate).
  pose proof (float_gap r 1 Fr F1 (Qlt_le_weak _ _ Hr) Hr1) as Hg.
  rewrite pow2_53 in Hg.
  assert (Hq : (elapsed * (1 + pow2 (-53)) <= elapsed / r)%Q).
  { apply Qle_shift_div_l; [exact Hr|]. rewrite pow2_53.
    assert (Hk : ((1 + (1 # 9007199254740992)) * r <= 1)%Q) by lra.
    assert (H0 : (0 <= elapsed * (1 - (1 + (1 # 9007199254740992)) * r))%Q)
      by (apply Qmult_le_0_compat; lra).
    assert (E : (elapsed * (1 - (1 + (1 # 9007199254740992)) * r)
                 == elapsed - elapsed * (1 + (1 # 9007199254740992)) * r)%Q) by ring.
    lra. }
  pose proof (nearest_above elapsed (elapsed / r) He Hq) as Ha.
  unfold sub. apply nearest_nonneg. unfold truediv. lra.
Qed.

Lemma eta_of_remaining (x : Q) :
  (0 <= x)%Q ->
  0 <= fst (divmod (int_of_float x) 60)
  /\ 0 <= snd (divmod (int_of_float x) 60) < 60.
Proof. intro H. apply divmod_60, int_of_float_nonneg_ge, H. Qed.

(** *** Time stamps *)

Lemma cur_time_nonneg (line : string) (g : string * string * (string * string)) :
  search_time line = Some g -> (0 <= Compression.cur_time_of g)%Q.
Proof.
  destruct g as [[h m] [si sf]]. intro H.
  destruct (search_time_digits _ _ _ _ _ H) as (Hh & Hm & Hs).
  unfold Compression.cur_time_of, add, float_of_int. apply nearest_nonneg.
  apply Qle_trans with (0 + 0)%Q; [discriminate|].
  apply Qplus_le_compat.
  - apply nearest_nonneg. change 0%Q with (inject_Z 0). rewrite <- Zle_Qle.
    pose proof (digits_val_nonneg _ Hh). pose proof (digits_val_nonneg _ Hm).
    unfold int_of_digits. lia.
  - apply float_of_fixed_nonneg, Hs.
Qed.

Lemma times_nonneg (reads : list string) :
  Forall (fun t => (0 <= t)%Q) (times reads).
Proof.
  induction reads as [|line rest IH]; simpl; [constructor|].
  destruct (search_time line) as [g|] eqn:E; [|exact IH].
  constructor; [eapply cur_time_nonneg, E | exact IH].
Qed.

Lemma match_time_here_prefix (s : string) (g : string * string * (string * string)) :
  match_time_here s = Some g -> String.prefix "time=" s = true.
Proof.
  unfold match_time_here, drop_prefix.
  destruct (String.prefix "time=" s); [reflexivity | discriminate].
Qed.

(** A line in which the pattern is found holds the text [time=]. *)
Lemma search_time_contains (s : string) (g : string * string * (string * string)) :
  search_time s = Some g -> contains "time=" s = true.
Proof.
  induction s as [|c s IH]; cbn [search_time contains].
  - destruct (match_time_here "") eqn:E; [|discriminate].
    intros _. now rewrite (match_time_here_prefix _ _ E).
  - destruct (match_time_here (String c s)) eqn:E.
    + intros _. now rewrite (match_time_here_prefix _ _ E).
    + intro H. rewrite (IH H). apply orb_true_r.
Qed.

(** *** Sequences *)

Lemma nondecreasing_map (f : Q -> Q) (l : list Q) :
  (forall t u, (0 <= t)%Q -> (t <= u)%Q -> (f t <= f u)%Q) ->
  Forall (fun t => (0 <= t)%Q) l ->
  nondecreasing l -> nondecreasing (map f l).
Proof.
  intros Hf. induction l as [|a [|b l] IH]; intros Hpos Hl; simpl; auto.
  inversion Hpos; subst. destruct Hl as [Hab Hl]. split.
  - apply Hf; assumption.
  - apply IH; assumption.
Qed.

Lemma nondecreasing_twice (f : Q -> Q) (l : list Q) :
  nondecreasing (map f l) -> nondecreasing (flat_map (fun t => [f t; f t]) l).
Proof.
  induction l as [|a [|b l] IH]; intro H; simpl.
  - exact I.
  - split; [apply Qle_refl | exact I].
  - destruct H as [Hab H]. split; [apply Qle_refl|].
    split; [exact Hab|]. apply IH, H.
Qed.

Lemma bounded_twice (f : Q -> Q) (l : list Q) :
  bounded (map f l) -> bounded (flat_map (fun t => [f t; f t]) l).
Proof.
  unfold bounded. induction l as [|a l IH]; intro H; simpl.
  - constructor.
  - inversion H; subst. constructor; [assumption|].
    constructor; [assumption|]. apply IH; assumption.
Qed.

Lemma bounded_map (f : Q -> Q) (l : list Q) :
  (forall t, (0 <= t)%Q -> (0 <= f t)%Q /\ (f t <= 100)%Q) ->
  Forall (fun t => (0 <= t)%Q) l -> bounded (map f l).
Proof.
  intros Hf H. unfold bounded. induction H; simpl; constructor; auto.
Qed.

(** *** compression.py: integer percentages *)

Lemma percent_of_bounds (d t : Q) :
  (0 < d)%Q -> (0 <= t)%Q -> 0 <= Compression.percent_of d t <= 100.
Proof.
  intros Hd Ht. unfold Compression.percent_of.
  pose proof (int_of_float_nonneg_ge _ (ratio_nonneg t d Ht Hd)). lia.
Qed.

Lemma percent_of_mono (d t u : Q) :
  (0 < d)%Q -> (0 <= t)%Q -> (t <= u)%Q ->
  Compression.percent_of d t <= Compression.percent_of d u.
Proof.
  intros Hd Ht Htu. unfold Compression.percent_of.
  pose proof (int_of_float_mono_nonneg _ _ (ratio_nonneg t d Ht Hd)
                                       (ratio_mono t u d Hd Htu)).
  lia.
Qed.

(** Below 100% the time stamp is short of the duration. *)
Lemma percent_below_100 (d t : Q) :
  (0 < d)%Q -> (0 <= t)%Q -> Compression.percent_of d t < 100 ->
  (truediv t d < 1)%Q.
Proof.
  intros Hd Ht Hp. unfold Compression.percent_of in Hp.
  assert (Hi : int_of_float (mul (truediv t d) 100) < 100) by lia.
  rewrite (int_of_float_nonneg _ (ratio_nonneg t d Ht Hd)) in Hi.
  pose proof (Qlt_floor (mul (truediv t d) 100)) as Hf.
  apply ratio_below_100. set (p := mul (truediv t d) 100) in *.
  apply Qlt_le_trans with (inject_Z (Qfloor p + 1)); [exact Hf|].
  change 100%Q with (inject_Z 100). rewrite <- Zle_Qle. lia.
Qed.

Lemma compression_eta_present (d t elapsed : Q) :
  (0 < d)%Q -> (0 <= elapsed)%Q -> (0 < t)%Q -> Compression.percent_of d t < 100 ->
  exists mins secs,
    Compression.eta d t (Compression.percent_of d t) elapsed = (Some mins, Some secs)
    /\ 0 <= mins /\ 0 <= secs < 60.
Proof.
  intros Hd He Ht Hp. unfold Compression.eta.
  rewrite (proj2 (ltb_lt 0 t) Ht), (proj2 (Z.ltb_lt _ _) Hp). cbn [andb].
  set (remaining := sub (truediv elapsed (truediv t d)) elapsed).
  assert (Hr : (0 <= remaining)%Q).
  { apply remaining_nonneg;
      [exact He | apply ratio_pos; assumption | apply nearest_is_float |].
    apply percent_below_100; [exact Hd | apply Qlt_le_weak, Ht | exact Hp]. }
  pose proof (eta_of_remaining _ Hr) as Hms.
  destruct (divmod (int_of_float remaining) 60) as [mins secs].
  exists mins, secs. split; [reflexivity | exact Hms].
Qed.

Lemma compression_eta_absent (d t elapsed : Q) (percent : Z) :
  (t == 0)%Q \/ percent = 100 -> Compression.eta d t percent elapsed = (None, None).
Proof.
  intros [H | H]; unfold Compression.eta.
  - assert (ltb 0 t = false) as -> by (apply ltb_ge; rewrite H; apply Qle_refl).
    reflexivity.
  - subst. rewrite andb_false_r. reflexivity.
Qed.

Lemma compression_percents (d : Q) (gui : bool) (clock : nat -> Q) (start : Q)
      (reads : list string) (tick : nat) :
  percents (Compression.read_loop d gui clock start reads tick)
  = if gui
    then map (fun t => inject_Z (Compression.percent_of d t)) (times reads)
    else flat_map (fun t => [inject_Z (Compression.percent_of d t);
                             inject_Z (Compression.percent_of d t)]) (times reads).
Proof.
  revert tick. induction reads as [|line rest IH]; intro tick.
  - destruct gui; reflexivity.
  - cbn [Compression.read_loop times].
    destruct (String.eqb line "") eqn:El.
    + apply String.eqb_eq in El. subst line. cbn [search_time match_time_here].
      simpl. apply IH.
    + unfold Compression.on_line.
      destruct (search_time line) as [g|] eqn:Es.
      * rewrite (search_time_contains _ _ Es).
        destruct (Compression.eta d (Compression.cur_time_of g)
                    (Compression.percent_of d (Compression.cur_time_of g))
                    (sub (clock tick) start)) as [mins secs].
        unfold percents in *. rewrite flat_map_app, IH.
        destruct gui; reflexivity.
      * destruct (contains "time=" line); simpl; apply IH.
Qed.

(** *** audio_fix.py: fractional percentages *)

Lemma audio_percent_bounds (d t : Q) :
  (0 < d)%Q -> (0 <= t)%Q ->
  (0 <= AudioFix.percent_of (Finite d) t)%Q /\ (AudioFix.percent_of (Finite d) t <= 100)%Q.
Proof.
  intros Hd Ht. unfold AudioFix.percent_of. split.
  - apply min_nonneg; [discriminate | apply ratio_nonneg; assumption].
  - apply min_le_l.
Qed.

Lemma audio_percent_mono (d t u : Q) :
  (0 < d)%Q -> (t <= u)%Q ->
  (AudioFix.percent_of (Finite d) t <= AudioFix.percent_of (Finite d) u)%Q.
Proof.
  intros Hd Htu. unfold AudioFix.percent_of. apply min_mono, ratio_mono; assumption.
Qed.

(** Below 100% the percentage of a positive time stamp, divided by
    100, is a float above zero and below one. *)
Lemma audio_fraction (d t : Q) :
  (0 < d)%Q -> (0 < t)%Q -> (AudioFix.percent_of (Finite d) t < 100)%Q ->
  (0 < truediv (AudioFix.percent_of (Finite d) t) 100)%Q
  /\ (truediv (AudioFix.percent_of (Finite d) t) 100 < 1)%Q.
Proof.
  intros Hd Ht Hp.
  assert (Ep : AudioFix.percent_of (Finite d) t = mul (truediv t d) 100).
  { unfold AudioFix.percent_of, min in *.
    destruct (ltb (mul (truediv t d) 100) 100); [reflexivity|].
    exfalso. exact (Qlt_irrefl _ Hp). }
  rewrite Ep in *.
  pose proof (ratio_percent_pos t d Ht Hd) as Hpos.
  set (p := mul (truediv t d) 100) in *.
  assert (Fp : is_float p) by apply nearest_is_float.
  assert (F100 : is_float 100) by (apply (is_float_Z 100); vm_compute; discriminate).
  pose proof (float_gap p 100 Fp F100 (Qlt_le_weak _ _ Hpos) Hp) as Hg.
  split.
  - apply nearest_pos_lt. apply Qlt_shift_div_l; [reflexivity|]. lra.
  - assert (Hq : (p / 100 <= 1 - pow2 (-53))%Q).
    { apply Qle_shift_div_r; [reflexivity|]. lra. }
    pose proof (nearest_le_float _ _ is_float_below_one Hq) as Hn.
    unfold truediv. pose proof (pow2_pos (-53)). lra.
Qed.

(** The estimate of the audio fix is always a pair, whatever the
    clock says. *)
Lemma audio_eta_returns (d t elapsed : Q) :
  (0 < d)%Q ->
  exists ms, AudioFix.eta t (AudioFix.percent_of (Finite d) t) elapsed = ret ms.
Proof.
  intros Hd. unfold AudioFix.eta.
  destruct (ltb 0 t) eqn:Et; cbn [andb]; [|eexists; reflexivity].
  destruct (ltb (AudioFix.percent_of (Finite d) t) 100) eqn:Ep;
    [|eexists; reflexivity].
  apply ltb_lt in Et. apply ltb_lt in Ep.
  destruct (audio_fraction d t Hd Et Ep) as [Hr _].
  destruct (Qeq_bool (truediv (AudioFix.percent_of (Finite d) t) 100) 0) eqn:E.
  - apply Qeq_bool_iff in E. rewrite E in Hr. discriminate.
  - eexists; reflexivity.
Qed.

Lemma audio_eta (d t elapsed : Q) :
  (0 < d)%Q -> (0 <= elapsed)%Q ->
  exists mins secs,
    AudioFix.eta t (AudioFix.percent_of (Finite d) t) elapsed = ret (mins, secs)
    /\ 0 <= mins /\ 0 <= secs < 60.
Proof.
  intros Hd He. unfold AudioFix.eta.
  set (percent := AudioFix.percent_of (Finite d) t).
  destruct (ltb 0 t) eqn:Et; cbn [andb];
    [|exists 0, 0; split; [reflexivity | lia]].
  destruct (ltb percent 100) eqn:Ep;
    [|exists 0, 0; split; [reflexivity | lia]].
  apply ltb_lt in Et. apply ltb_lt in Ep.
  destruct (audio_fraction d t Hd Et Ep) as [Hr Hr1]. fold percent in Hr, Hr1.
  assert (Hz : Qeq_bool (truediv percent 100) 0 = false).
  { destruct (Qeq_bool (truediv percent 100) 0) eqn:E; [|reflexivity].
    apply Qeq_bool_iff in E. rewrite E in Hr. discriminate. }
  rewrite Hz.
  pose proof (eta_of_remaining
                _ (remaining_nonneg elapsed _ He Hr (nearest_is_float _) Hr1)) as Hms.
  destruct (divmod (int_of_float (sub (truediv elapsed (truediv percent 100)) elapsed))
                   60) as [mins secs].
  exists mins, secs. split; [reflexivity | exact Hms].
Qed.

Lemma audio_eta_zero (t percent elapsed : Q) :
  (t == 0)%Q \/ (percent == 100)%Q -> AudioFix.eta t percent elapsed = ret (0, 0).
Proof.
  intros [H | H]; unfold AudioFix.eta.
  - assert (ltb 0 t = false) as -> by (apply ltb_ge; rewrite H; apply Qle_refl).
    reflexivity.
  - assert (ltb percent 100 = false) as -> by (apply ltb_ge; rewrite H; apply Qle_refl).
    rewrite andb_false_r. reflexivity.
Qed.

(** With a positive duration the loop of the audio fix never raises,
    and reports one percentage per time stamp. *)
Lemma audio_read_loop (d : Q) (gui : bool) (clock : nat -> Q)
      (reads : list string) (start_time : option Q) (tick : nat) :
  (0 < d)%Q ->
  result (AudioFix.read_loop (Some (Finite d)) gui clock reads start_time tick)
  = Returned tt
  /\ percents (trace (AudioFix.read_loop (Some (Finite d)) gui clock reads
                                         start_time tick))
     = map (AudioFix.percent_of (Finite d)) (times reads).
Proof.
  intro Hd.
  assert (Hu : AudioFix.usable (Some (Finite d)) = Some (Finite d)).
  { unfold AudioFix.usable. destruct (Qeq_bool d 0) eqn:E; [|reflexivity].
    apply Qeq_bool_iff in E. rewrite E in Hd. discriminate. }
  revert start_time tick. induction reads as [|line rest IH]; intros start_time tick.
  - split; reflexivity.
  - cbn [AudioFix.read_loop times].
    destruct (String.eqb line "") eqn:El.
    + apply String.eqb_eq in El. subst line. simpl. apply IH.
    + destruct (search_time line) as [g|] eqn:Es.
      * rewrite (search_time_contains _ _ Es), Hu.
        unfold AudioFix.on_sample.
        destruct (AudioFix.start_of clock start_time tick) as [start tick1].
        destruct (AudioFix.elapsed_of clock start tick1) as [elapsed tick2] eqn:Ee.
        change (AudioFix.current_time_of g) with (Compression.cur_time_of g).
        destruct (audio_eta_returns d (Compression.cur_time_of g) elapsed Hd)
          as [ms Hms].
        rewrite Hms. destruct (IH (Some start) tick2) as [IHr IHp].
        unfold AudioFix.report, swallow, emit, ret, bind.
        destruct gui; cbn [result trace fst snd app]; rewrite IHr;
          cbn [result trace]; (split; [reflexivity|]);
          unfold percents in *; cbn [flat_map percent_of_event app map];
          rewrite IHp; reflexivity.
      * destruct (if contains "time=" line then AudioFix.usable (Some (Finite d)) else None);
          apply IH.
Qed.

(** *** The claims on percentages and estimates *)

(** C8, as the code has it: with a fixed duration > 0, every
    percentage reported by the progress loops of [run_compression]
    and [run_audio_fix] lies in [0, 100]; the percentages are
    non-decreasing when the time stamps of the lines are. *)
Theorem percentages_bounded_and_follow_time_stamps
        (duration : Q) (gui_progress : bool) (clock : nat -> Q)
        (start : Q) (start_time : option Q) (tick : nat) (reads : list string) :
  (0 < duration)%Q ->
  let compression :=
    percents (Compression.read_loop duration gui_progress clock start reads tick) in
  let audio_fix :=
    percents (trace (AudioFix.read_loop (Some (Finite duration)) gui_progress
                                        clock reads start_time tick)) in
  bounded compression /\ bounded audio_fix
  /\ (nondecreasing (times reads) ->
      nondecreasing compression /\ nondecreasing audio_fix).
Proof.
  intros Hd compression audio_fix.
  assert (Hc : bounded (map (fun t => inject_Z (Compression.percent_of duration t))
                            (times reads))).
  { apply bounded_map; [|apply times_nonneg].
    intros t Ht. pose proof (percent_of_bounds duration t Hd Ht) as [H0 H100].
    split; [change 0%Q with (inject_Z 0) | change 100%Q with (inject_Z 100)];
      rewrite <- Zle_Qle; assumption. }
  assert (Hm : nondecreasing (times reads) ->
               nondecreasing (map (fun t => inject_Z (Compression.percent_of duration t))
                                  (times reads))).
  { apply nondecreasing_map; [|apply times_nonneg].
    intros t u Ht Htu. rewrite <- Zle_Qle. apply percent_of_mono; assumption. }
  subst compression audio_fix. rewrite compression_percents.
  destruct (audio_read_loop duration gui_progress clock reads start_time tick Hd)
    as [_ ->].
  split; [|split; [|intro Hs; split]].
  - destruct gui_progress; [exact Hc | apply bounded_twice, Hc].
  - apply bounded_map; [|apply times_nonneg].
    intros t Ht. apply audio_percent_bounds; assumption.
  - destruct gui_progress; [apply Hm, Hs | apply nondecreasing_twice, Hm, Hs].
  - apply nondecreasing_map; [|apply times_nonneg|exact Hs].
    intros t u _ Htu. apply audio_percent_mono; assumption.
Qed.

Lemma percentages_bounded_and_follow_time_stamps_witness :
  bounded (percents (Compression.read_loop
                       100 true Samples.ten_seconds 0
                       ["time=00:00:10.00"; "time=00:00:05.00"] 1)).
Proof.
  assert (Hd : (0 < 100)%Q) by reflexivity.
  pose proof (percentages_bounded_and_follow_time_stamps
                100 true Samples.ten_seconds 0 None 1
                ["time=00:00:10.00"; "time=00:00:05.00"] Hd) as H.
  cbv zeta in H. exact (proj1 H).
Defined.

(** C8, as stated, fails: the loops keep no memory of the last
    position, so a time stamp that goes back makes the percentage go
    back. *)
Lemma percentages_follow_a_time_stamp_that_goes_back :
  percents (Compression.read_loop 100 true Samples.ten_seconds 0
                                  ["time=00:00:10.00"; "time=00:00:05.00"] 1)
  = [10%Q; 5%Q]
  /\ ~ nondecreasing [10%Q; 5%Q].
Proof.
  split; [vm_compute; reflexivity|].
  intros [H _]. vm_compute in H. apply H. reflexivity.
Qed.

(** C9, as the code has it, for every elapsed >= 0 and every time
    stamp [t] >= 0 of a run of duration > 0. In [run_compression] the
    estimate is absent when [t] is zero or the percentage is 100, and
    a pair of non-negative minutes and seconds whenever [t] > 0 and
    the percentage is below 100, the integer percentage 0 included.
    In [run_audio_fix] the estimate is never absent: it is a pair of
    non-negative minutes and seconds, which is (0, 0) when [t] is zero
    and when the percentage is 100. The 100% that [run_compression]
    forces on its callback at the end carries (0, 0) as well. *)
Theorem eta_estimates (duration elapsed t : Q) :
  (0 < duration)%Q -> (0 <= elapsed)%Q -> (0 <= t)%Q ->
  let pc := Compression.percent_of duration t in
  let pa := AudioFix.percent_of (Finite duration) t in
  ((0 < t)%Q -> pc < 100 ->
   exists mins secs,
     Compression.eta duration t pc elapsed = (Some mins, Some secs)
     /\ 0 <= mins /\ 0 <= secs < 60)
  /\ ((t == 0)%Q \/ pc = 100 -> Compression.eta duration t pc elapsed = (None, None))
  /\ (exists mins secs,
        AudioFix.eta t pa elapsed = ret (mins, secs) /\ 0 <= mins /\ 0 <= secs < 60)
  /\ ((t == 0)%Q \/ (pa == 100)%Q -> AudioFix.eta t pa elapsed = ret (0, 0))
  /\ Compression.set_to_100 true = [Gui_progress 100 (Some 0) (Some 0)].
Proof.
  intros Hd He Ht pc pa. split; [|split; [|split; [|split]]].
  - intros Hpos Hp. apply compression_eta_present; assumption.
  - apply compression_eta_absent.
  - apply audio_eta; assumption.
  - apply audio_eta_zero.
  - reflexivity.
Qed.

Lemma eta_estimates_witness :
  exists mins secs,
    Compression.eta 600 300 (Compression.percent_of 600 300) 20
    = (Some mins, Some secs)
    /\ 0 <= mins /\ 0 <= secs < 60.
Proof.
  apply (eta_estimates 600 20 300);
    try (vm_compute; discriminate); reflexivity.
Defined.

(** C9, as stated, fails: one second into a run of 600 s the integer
    percentage of the compression is 0 and the estimate is 99:50, not
    absent; at 100% the audio fix delivers 0:00, not an absent
    value, as it does at 0%. *)
Lemma eta_is_present_at_0_percent :
  Compression.percent_of 600 1 = 0
  /\ Compression.eta 600 1 0 10 = (Some 99, Some 50)
  /\ AudioFix.percent_of (Finite 600) 600 = 100%Q
  /\ AudioFix.eta 600 100 10 = ret (0, 0)
  /\ (AudioFix.percent_of (Finite 600) 0 == 0)%Q
  /\ AudioFix.eta 0 (AudioFix.percent_of (Finite 600) 0) 10 = ret (0, 0).
Proof. vm_compute. repeat split; reflexivity. Qed.

End ProgressFacts.

(** ** The end of a supervised run *)

Module ExitFacts.
Import Py Run PyFacts FloatFacts Stated ProgressFacts.

Lemma set_to_100_forced (gui : bool) :
  Compression.set_to_100 gui <> []
  /\ forallb at_100 (Compression.set_to_100 gui) = true.
Proof. destruct gui; split; try discriminate; reflexivity. Qed.

(** *** The loop of the audio fix, whatever the duration *)

(** With a finite duration other than zero the quotient of line 170
    is never by zero. *)
Lemma audio_eta_finite (d t elapsed : Q) :
  ~ (d == 0)%Q ->
  exists ms, AudioFix.eta t (AudioFix.percent_of (Finite d) t) elapsed = ret ms.
Proof.
  intro Hd. unfold AudioFix.eta.
  destruct (ltb 0 t) eqn:Et; cbn [andb]; [|eexists; reflexivity].
  destruct (ltb (AudioFix.percent_of (Finite d) t) 100) eqn:Ep;
    [|eexists; reflexivity].
  apply ltb_lt in Et.
  assert (Ed : AudioFix.percent_of (Finite d) t = mul (truediv t d) 100).
  { unfold AudioFix.percent_of, min in *.
    destruct (ltb (mul (truediv t d) 100) 100); [reflexivity | discriminate]. }
  rewrite Ed.
  destruct (Qeq_bool (truediv (mul (truediv t d) 100) 100) 0) eqn:E;
    [|eexists; reflexivity].
  exfalso. apply Qeq_bool_iff in E. unfold truediv at 1 in E.
  apply (proj1 (nearest_zero_iff _)) in E.
  set (p := mul (truediv t d) 100) in *.
  assert (E1 : (p == 0)%Q).
  { assert (H : (p == p / 100 * 100)%Q) by (field; discriminate).
    set (y := (p / 100)%Q) in *. lra. }
  unfold p, mul in E1. apply (proj1 (nearest_zero_iff _)) in E1.
  set (r := truediv t d) in *.
  assert (E2 : (r == 0)%Q) by lra.
  unfold r, truediv in E2. apply (proj1 (nearest_zero_iff _)) in E2.
  set (q := (t / d)%Q) in *.
  assert (E3 : (t == q * d)%Q) by (unfold q; field; exact Hd).
  assert (E4 : (q * d == 0)%Q) by (rewrite E2; ring).
  lra.
Qed.

Lemma audio_eta_undefined (t elapsed : Q) :
  AudioFix.eta t (AudioFix.percent_of NaN t) elapsed = ret (0, 0).
Proof. unfold AudioFix.eta, AudioFix.percent_of. now rewrite andb_false_r. Qed.

(** The estimate raises nothing but [ZeroDivisionError]. *)
Lemma audio_eta_raises (t percent elapsed : Q) (e : exn) :
  result (AudioFix.eta t percent elapsed) = Raised e -> e = ZeroDivisionError.
Proof.
  unfold AudioFix.eta. destruct (ltb 0 t && ltb percent 100); [|discriminate].
  destruct (Qeq_bool _ 0); cbn; congruence.
Qed.

Lemma on_sample_result (gui : bool) (clock : nat -> Q) (d : pyfloat)
      (g : string * string * (string * string)) (start_time : option Q) (tick : nat) :
  let current_time := AudioFix.current_time_of g in
  let start := fst (AudioFix.start_of clock start_time tick) in
  let tick1 := snd (AudioFix.start_of clock start_time tick) in
  let elapsed := fst (AudioFix.elapsed_of clock start tick1) in
  let tick2 := snd (AudioFix.elapsed_of clock start tick1) in
  result (AudioFix.on_sample gui clock d g start_time tick)
  = match result (AudioFix.eta current_time (AudioFix.percent_of d current_time)
                               elapsed) with
    | Returned _ => Returned (start, tick2)
    | Raised e => Raised e
    end.
Proof.
  unfold AudioFix.on_sample.
  destruct (AudioFix.start_of clock start_time tick) as [start tick1]. cbn [fst snd].
  destruct (AudioFix.elapsed_of clock start tick1) as [elapsed tick2]. cbn [fst snd].
  unfold bind. destruct (result (AudioFix.eta _ _ elapsed)); cbn [result]; [|reflexivity].
  unfold AudioFix.report. destruct gui; reflexivity.
Qed.

(** The loop can only end in [ZeroDivisionError], and only with an
    infinite duration. *)
Lemma audio_read_loop_result (duration : option pyfloat) (gui : bool)
      (clock : nat -> Q) (reads : list string) (start_time : option Q) (tick : nat) :
  let loop := AudioFix.read_loop duration gui clock reads start_time tick in
  ((forall negative, duration <> Some (Inf negative)) -> result loop = Returned tt)
  /\ (forall e, result loop = Raised e -> e = ZeroDivisionError).
Proof.
  revert start_time tick.
  induction reads as [|line rest IH]; intros start_time tick; cbn zeta.
  - split; [reflexivity | discriminate].
  - cbn [AudioFix.read_loop].
    destruct (String.eqb line ""); [apply IH|].
    destruct (if contains "time=" line then AudioFix.usable duration else None)
      as [d|] eqn:Eu; [|apply IH].
    destruct (search_time line) as [g|]; [|apply IH].
    assert (Hu : AudioFix.usable duration = Some d)
      by (destruct (contains "time=" line); [exact Eu | discriminate]).
    unfold bind. rewrite on_sample_result.
    destruct (result (AudioFix.eta _ _ _)) as [ms|e0] eqn:Eeta; cbn [result fst snd].
    + apply IH.
    + split.
      * intro Hfin. exfalso.
        destruct duration as [[q| |]|]; cbn in Hu; try discriminate.
        -- destruct (Qeq_bool q 0) eqn:Eq; [discriminate|].
           inversion Hu; subst d.
           destruct (audio_eta_finite q (AudioFix.current_time_of g)
                       (fst (AudioFix.elapsed_of clock
                               (fst (AudioFix.start_of clock start_time tick))
                               (snd (AudioFix.start_of clock start_time tick)))))
             as [ms Hms].
           { intro E. apply Qeq_bool_iff in E. congruence. }
           rewrite Hms in Eeta. discriminate.
        -- exact (Hfin negative eq_refl).
        -- inversion Hu; subst d. rewrite audio_eta_undefined in Eeta. discriminate.
      * intros e He. inversion He; subst e. eapply audio_eta_raises, Eeta.
Qed.

Lemma audio_read_loop_returns (duration : option pyfloat) (gui : bool)
      (clock : nat -> Q) (reads : list string) :
  regular duration ->
  result (AudioFix.read_loop duration gui clock reads None 0) = Returned tt.
Proof.
  intro Hr. apply audio_read_loop_result.
  intros negative E. subst duration. exact Hr.
Qed.

(** The supervisor of the audio fix, from the launch to the exit. *)
Lemma run_ffmpeg_and_report_cases (w : AudioFix.world) (duration : option pyfloat)
      (gui : bool) (cmd : list arg) :
  let loop := AudioFix.read_loop duration gui (AudioFix.clock w)
                                 (AudioFix.stderr_reads w) None 0 in
  AudioFix.run_ffmpeg_and_report w duration gui cmd
  = match result loop with
    | Returned _ =>
        Build_run
          (Popen cmd :: trace loop
           ++ (if negb gui && AudioFix.known duration then [Cli_bar 100 0 0] else [])
           ++ (if AudioFix.returncode w =? 0 then [Print Audio_fix_completed] else []))
          (if AudioFix.returncode w =? 0 then Returned tt
           else Raised (RuntimeError (AudioFix.returncode w)))
    | Raised e => Build_run (Popen cmd :: trace loop) (Raised e)
    end.
Proof.
  intro loop. unfold AudioFix.run_ffmpeg_and_report, AudioFix.finish_bar.
  fold loop. unfold bind, emit, print, raise, ret. cbn [result trace].
  destruct (result loop) as [[]|e]; [|reflexivity].
  destruct (negb gui && AudioFix.known duration),
           (AudioFix.returncode w =? 0);
    cbn [result trace app]; rewrite ?app_nil_r; reflexivity.
Qed.

Lemma run_ffmpeg_and_report_trace (w : AudioFix.world) (duration : option pyfloat)
      (gui : bool) (cmd : list arg) :
  regular duration ->
  AudioFix.run_ffmpeg_and_report w duration gui cmd
  = Build_run
      (Popen cmd
       :: trace (AudioFix.read_loop duration gui (AudioFix.clock w)
                                    (AudioFix.stderr_reads w) None 0)
       ++ (if negb gui && AudioFix.known duration then [Cli_bar 100 0 0] else [])
       ++ (if AudioFix.returncode w =? 0 then [Print Audio_fix_completed] else []))
      (if AudioFix.returncode w =? 0 then Returned tt
       else Raised (RuntimeError (AudioFix.returncode w))).
Proof.
  intro Hr. rewrite run_ffmpeg_and_report_cases.
  now rewrite (audio_read_loop_returns duration gui _ _ Hr).
Qed.

(** C6, as the code has it, for a transcoder that was launched and
    exits with a non-zero code. The supervisor of [run_compression]
    still sets the progress to 100% (lines 223-235 are not
    conditional) and then prints that the compression failed. The
    supervisor of [run_audio_fix] raises [RuntimeError] with the exit
    code; before that it prints the full bar when no callback is given
    and the duration is known, and emits no forced 100% event
    otherwise. Its progress loop can end the run before the exit code
    is looked at, with the [ZeroDivisionError] of line 170; this
    happens only when the probed duration is infinite. *)
Theorem nonzero_exit_is_reported
        (wc : Compression.world) (d : Q) (cmd : list arg)
        (wa : AudioFix.world) (duration : option pyfloat) (cmda : list arg)
        (gui_progress : bool) :
  Compression.returncode wc <> 0 ->
  AudioFix.returncode wa <> 0 ->
  Compression.video_dir wc <> "" ->
  let loop := AudioFix.read_loop duration gui_progress (AudioFix.clock wa)
                                 (AudioFix.stderr_reads wa) None 0 in
  Compression.run_ffmpeg wc d gui_progress cmd
  = Build_run
      (Popen cmd
       :: Compression.read_loop d gui_progress (Compression.clock wc)
            (Compression.clock wc 0%nat) (Compression.stderr_reads wc) 1
       ++ Compression.set_to_100 gui_progress
       ++ [Print Compression_failed])
      (Returned tt)
  /\ Compression.set_to_100 gui_progress <> []
  /\ forallb at_100 (Compression.set_to_100 gui_progress) = true
  /\ AudioFix.run_ffmpeg_and_report wa duration gui_progress cmda
     = match result loop with
       | Returned _ =>
           Build_run
             (Popen cmda :: trace loop
              ++ (if negb gui_progress && AudioFix.known duration
                  then [Cli_bar 100 0 0] else []))
             (Raised (RuntimeError (AudioFix.returncode wa)))
       | Raised e => Build_run (Popen cmda :: trace loop) (Raised e)
       end
  /\ ((forall negative, duration <> Some (Inf negative)) ->
      result loop = Returned tt)
  /\ (forall e, result loop = Raised e -> e = ZeroDivisionError).
Proof.
  intros Hc Ha Hv loop. apply Z.eqb_neq in Hc. apply Z.eqb_neq in Ha.
  split; [|split; [|split; [|split]]].
  - rewrite (CompressionFacts.run_ffmpeg_trace _ _ _ _ Hv), Hc. reflexivity.
  - apply set_to_100_forced.
  - apply set_to_100_forced.
  - rewrite run_ffmpeg_and_report_cases. fold loop. rewrite Ha, app_nil_r. reflexivity.
  - apply audio_read_loop_result.
Qed.

Lemma nonzero_exit_is_reported_witness :
  AudioFix.run_ffmpeg_and_report
    (Samples.audio_fix_world "600" ["time=00:05:00.00"] 1) (Some (Finite 600)) true
    (AudioFix.ffmpeg_cmd 2 48000 "160k")
  = Build_run [Popen (AudioFix.ffmpeg_cmd 2 48000 "160k");
               Gui_progress 50 (Some 0) (Some 10)]
              (Raised (RuntimeError 1)).
Proof.
  assert (Hc : Compression.returncode
                 (Samples.compression_world "600" "128000" [] 1) <> 0)
    by discriminate.
  assert (Ha : AudioFix.returncode
                 (Samples.audio_fix_world "600" ["time=00:05:00.00"] 1) <> 0)
    by discriminate.
  assert (Hv : Compression.video_dir
                 (Samples.compression_world "600" "128000" [] 1) <> "")
    by discriminate.
  pose proof (nonzero_exit_is_reported
                (Samples.compression_world "600" "128000" [] 1) 600
                (Samples.plain_cmd 14188)
                (Samples.audio_fix_world "600" ["time=00:05:00.00"] 1)
                (Some (Finite 600)) (AudioFix.ffmpeg_cmd 2 48000 "160k") true
                Hc Ha Hv) as H.
  cbv zeta in H. destruct H as (_ & _ & _ & H & _). rewrite H.
  vm_compute. reflexivity.
Defined.

(** C6, as stated, fails: with exit code 1 and no line of progress at
    all, the callback of the compression still receives 100%, and the
    audio fix run from the terminal still draws the full bar. *)
Lemma nonzero_exit_still_forces_100 :
  Compression.run_ffmpeg (Samples.compression_world "600" "128000" [] 1) 600 true
                         (Samples.plain_cmd 14188)
  = Build_run [Popen (Samples.plain_cmd 14188);
               Gui_progress 100 (Some 0) (Some 0);
               Print Compression_failed]
              (Returned tt)
  /\ AudioFix.run_ffmpeg_and_report
       (Samples.audio_fix_world "600" [] 1) (Some (Finite 600)) false
       (AudioFix.ffmpeg_cmd 2 48000 "160k")
     = Build_run [Popen (AudioFix.ffmpeg_cmd 2 48000 "160k"); Cli_bar 100 0 0]
                 (Raised (RuntimeError 1)).
Proof. split; vm_compute; reflexivity. Qed.

(** C7, as the code has it, for a transcoder that was launched and
    exits with code 0. The supervisor of [run_compression] sets the
    progress to 100% and then prints the success, with and without a
    callback, whatever the last percentage was. The supervisor of
    [run_audio_fix] prints the full bar before the success only when
    no callback is given and the duration is known; with a callback
    it goes from the last parsed percentage straight to the success
    line. When its progress loop raises, which it does only for an
    infinite probed duration, no success is reported at all. *)
Theorem zero_exit_final_event
        (wc : Compression.world) (d : Q) (cmd : list arg)
        (wa : AudioFix.world) (duration : option pyfloat) (cmda : list arg)
        (gui_progress : bool) :
  Compression.returncode wc = 0 ->
  AudioFix.returncode wa = 0 ->
  Compression.video_dir wc <> "" ->
  let loop := AudioFix.read_loop duration gui_progress (AudioFix.clock wa)
                                 (AudioFix.stderr_reads wa) None 0 in
  Compression.run_ffmpeg wc d gui_progress cmd
  = Build_run
      (Popen cmd
       :: Compression.read_loop d gui_progress (Compression.clock wc)
            (Compression.clock wc 0%nat) (Compression.stderr_reads wc) 1
       ++ Compression.set_to_100 gui_progress
       ++ [Print Compression_finished])
      (Returned tt)
  /\ Compression.set_to_100 gui_progress <> []
  /\ forallb at_100 (Compression.set_to_100 gui_progress) = true
  /\ AudioFix.run_ffmpeg_and_report wa duration gui_progress cmda
     = match result loop with
       | Returned _ =>
           Build_run
             (Popen cmda :: trace loop
              ++ (if negb gui_progress && AudioFix.known duration
                  then [Cli_bar 100 0 0] else [])
              ++ [Print Audio_fix_completed])
             (Returned tt)
       | Raised e => Build_run (Popen cmda :: trace loop) (Raised e)
       end
  /\ ((forall negative, duration <> Some (Inf negative)) ->
      result loop = Returned tt)
  /\ (forall e, result loop = Raised e -> e = ZeroDivisionError).
Proof.
  intros Hc Ha Hv loop. apply Z.eqb_eq in Hc. apply Z.eqb_eq in Ha.
  split; [|split; [|split; [|split]]].
  - rewrite (CompressionFacts.run_ffmpeg_trace _ _ _ _ Hv), Hc. reflexivity.
  - apply set_to_100_forced.
  - apply set_to_100_forced.
  - rewrite run_ffmpeg_and_report_cases. fold loop. rewrite Ha. reflexivity.
  - apply audio_read_loop_result.
Qed.

Lemma zero_exit_final_event_witness :
  Compression.run_ffmpeg
    (Samples.compression_world "600" "128000" ["time=00:05:00.00"] 0) 600 true
    (Samples.plain_cmd 14188)
  = Build_run [Popen (Samples.plain_cmd 14188);
               Gui_progress 50 (Some 0) (Some 10);
               Gui_progress 100 (Some 0) (Some 0);
               Print Compression_finished]
              (Returned tt).
Proof.
  assert (Hc : Compression.returncode
                 (Samples.compression_world "600" "128000" ["time=00:05:00.00"] 0)
               = 0) by reflexivity.
  assert (Ha : AudioFix.returncode
                 (Samples.audio_fix_world "600" ["time=00:05:00.00"] 0) = 0)
    by reflexivity.
  assert (Hv : Compression.video_dir
                 (Samples.compression_world "600" "128000" ["time=00:05:00.00"] 0)
               <> "") by discriminate.
  pose proof (zero_exit_final_event
                (Samples.compression_world "600" "128000" ["time=00:05:00.00"] 0) 600
                (Samples.plain_cmd 14188)
                (Samples.audio_fix_world "600" ["time=00:05:00.00"] 0)
                (Some (Finite 600)) (AudioFix.ffmpeg_cmd 2 48000 "160k") true
                Hc Ha Hv) as H.
  cbv zeta in H. destruct H as (H & _). rewrite H.
  vm_compute. reflexivity.
Defined.

(** C7, as stated, fails: the audio fix with a callback, a run of
    600 s whose last line stands at 300 s and exit code 0: the
    callback receives 50% and nothing after it. *)
Lemma audio_fix_callback_never_sees_100 :
  let r := AudioFix.run_audio_fix
             (Samples.audio_fix_world "600" ["time=00:05:00.00"] 0)
             2 48000 "160k" true in
  r = Build_run [Print Running_audio_fix;
                 Print (Command (AudioFix.ffmpeg_cmd 2 48000 "160k"));
                 Popen (AudioFix.ffmpeg_cmd 2 48000 "160k");
                 Gui_progress 50 (Some 0) (Some 10);
                 Print Audio_fix_completed]
                (Returned tt)
  /\ existsb at_100 (trace r) = false.
Proof. repeat split; vm_compute; reflexivity. Qed.

End ExitFacts.

(** ** The upscale pipeline *)

Module UpscaleFacts.
Import Py Run PyFacts Stated Upscale.

(** *** The scale factor *)

Lemma Qceiling_div (h oh : Z) :
  Qceiling (inject_Z h / inject_Z oh) = - ((- h) / oh).
Proof.
  unfold Qceiling. f_equal. rewrite Zdiv_Qdiv. apply Qfloor_comp.
  rewrite inject_Z_opp. unfold Qdiv. ring.
Qed.

(** The quotient of two heights, as the division of two [int]s rounds
    it, has the truncation of the exact quotient. *)
Lemma height_quotient_truncation (h oh : Z) :
  0 <= h < 2 ^ 53 -> 0 < oh ->
  int_of_float (nearest (inject_Z h / inject_Z oh))
  = int_of_float (inject_Z h / inject_Z oh).
Proof.
  intros Hh Hoh.
  set (q := inject_Z oh). set (x := (inject_Z h / q)%Q).
  assert (Hq : (0 < q)%Q) by (unfold q; change 0%Q with (inject_Z 0);
                             rewrite <- Zlt_Qlt; exact Hoh).
  assert (Hq1 : (1 <= q)%Q) by (unfold q; change 1%Q with (inject_Z 1);
                                rewrite <- Zle_Qle; lia).
  assert (Hh0 : (0 <= inject_Z h)%Q) by (change 0%Q with (inject_Z 0);
                                         rewrite <- Zle_Qle; lia).
  assert (Ex : (x * q == inject_Z h)%Q) by (unfold x; field; lra).
  assert (Hx : (0 <= x)%Q).
  { apply (Qmult_lt_0_le_reg_r _ _ q Hq). rewrite Ex, Qmult_0_l. exact Hh0. }
  set (k := Qfloor x).
  assert (Hk : k = h / oh) by (unfold k, x, q; symmetry; apply Zdiv_Qdiv).
  assert (Hk0 : 0 <= k) by (rewrite Hk; apply Z.div_pos; lia).
  assert (Hkh : k <= h).
  { rewrite Hk. apply Z.div_le_upper_bound; [lia|]. nia. }
  assert (Hlo : (inject_Z k <= x)%Q) by apply Qfloor_le.
  assert (Hup : (x + 1 / q <= inject_Z (k + 1))%Q).
  { apply (Qmult_lt_0_le_reg_r _ _ q Hq).
    assert (E : ((x + 1 / q) * q == inject_Z (h + 1))%Q).
    { rewrite inject_Z_plus, <- Ex. field. lra. }
    rewrite E. unfold q. rewrite <- inject_Z_mult, <- Zle_Qle.
    pose proof (Z.mod_pos_bound h oh Hoh). pose proof (Z.div_mod h oh).
    rewrite Hk. nia. }
  assert (Hu : (pow2 (-53) * x < 1 / q)%Q).
  { apply (Qmult_lt_r _ _ q Hq).
    assert (E1 : (pow2 (-53) * x * q == pow2 (-53) * inject_Z h)%Q)
      by (rewrite <- Ex; ring).
    assert (E2 : (1 / q * q == 1)%Q) by (field; lra).
    rewrite E1, E2, FloatFacts.pow2_53.
    assert (Hh' : (inject_Z h < inject_Z (2 ^ 53))%Q) by (rewrite <- Zlt_Qlt; lia).
    change (inject_Z (2 ^ 53)) with (9007199254740992 # 1)%Q in Hh'. lra. }
  destruct (FloatFacts.nearest_error_pos x Hx) as [_ Hn].
  assert (Hlt : (nearest x < inject_Z (k + 1))%Q) by lra.
  assert (Hge : (inject_Z k <= nearest x)%Q).
  { pose proof (FloatFacts.nearest_mono _ _ Hlo) as Hm.
    pose proof (FloatFacts.nearest_Z k) as Ek.
    rewrite Ek in Hm by lia. exact Hm. }
  rewrite (int_of_float_nonneg _ Hx).
  rewrite (int_of_float_nonneg (nearest x)) by (apply FloatFacts.nearest_nonneg, Hx).
  fold k. apply Z.le_antisymm.
  - assert (Qfloor (nearest x) < k + 1); [|lia].
    rewrite Zlt_Qlt. apply Qle_lt_trans with (nearest x); [apply Qfloor_le | exact Hlt].
  - rewrite <- (Qfloor_Z k). apply Qfloor_resp_le, Hge.
Qed.

Lemma ceiling_of_quotient (h oh : Z) :
  0 < oh ->
  Qceiling (inject_Z h / inject_Z oh)
  = if h mod oh =? 0 then h / oh else h / oh + 1.
Proof.
  intro Hoh. rewrite Qceiling_div.
  destruct (h mod oh =? 0) eqn:E.
  - apply Z.eqb_eq in E. rewrite Z.div_opp_l_z by lia. lia.
  - apply Z.eqb_neq in E. rewrite Z.div_opp_l_nz by lia. lia.
Qed.

Lemma int_of_quotient (h oh : Z) :
  0 < oh ->
  int_of_float (inject_Z h / inject_Z oh)
  = if 0 <=? h then h / oh else Qceiling (inject_Z h / inject_Z oh).
Proof.
  intro Hoh. destruct (0 <=? h) eqn:E.
  - apply Z.leb_le in E. rewrite Zdiv_Qdiv. apply int_of_float_nonneg.
    apply Qle_shift_div_l.
    + change 0%Q with (inject_Z 0). rewrite <- Zlt_Qlt. exact Hoh.
    + rewrite Qmult_0_l. change 0%Q with (inject_Z 0). rewrite <- Zle_Qle. exact E.
  - apply Z.leb_gt in E. apply int_of_float_nonpos.
    apply Qle_shift_div_r.
    + change 0%Q with (inject_Z 0). rewrite <- Zlt_Qlt. exact Hoh.
    + rewrite Qmult_0_l. change 0%Q with (inject_Z 0). rewrite <- Zle_Qle. lia.
Qed.

(** C4, as the code has it: for a source height > 0 the factor is
    [floor(h / sourceHeight) + 1], raised to 2 when smaller. This is
    [ceil(h / sourceHeight)] raised to 2 unless the source height
    divides [h] at least twice, where it is one more: target 720 from
    480 and target 1080 from 1000 both give 2. *)
Theorem scale_factor_is_floor_plus_one (h sourceHeight : Z) :
  0 < sourceHeight ->
  scale_factor h (Some sourceHeight) = Z.max 2 (h / sourceHeight + 1)
  /\ (h mod sourceHeight <> 0 \/ h < 2 * sourceHeight ->
      scale_factor h (Some sourceHeight) = ceil_factor h sourceHeight)
  /\ (h mod sourceHeight = 0 -> 2 * sourceHeight <= h ->
      scale_factor h (Some sourceHeight) = ceil_factor h sourceHeight + 1)
  /\ scale_factor 720 (Some 480) = 2
  /\ scale_factor 1080 (Some 1000) = 2.
Proof.
  intro Hs.
  assert (E : scale_factor h (Some sourceHeight) = Z.max 2 (h / sourceHeight + 1)).
  { unfold scale_factor.
    assert ((sourceHeight =? 0) = false) as -> by (apply Z.eqb_neq; lia).
    rewrite (int_of_quotient _ _ Hs).
    destruct (0 <=? h) eqn:Eh.
    - destruct (h / sourceHeight + 1 <? 2) eqn:El;
        [apply Z.ltb_lt in El | apply Z.ltb_ge in El]; lia.
    - apply Z.leb_gt in Eh. rewrite (ceiling_of_quotient _ _ Hs).
      assert (h / sourceHeight < 0) by (apply Z.div_lt_upper_bound; lia).
      destruct (h mod sourceHeight =? 0);
        match goal with
        | |- context [?a <? 2] =>
            destruct (a <? 2) eqn:El;
            [apply Z.ltb_lt in El | apply Z.ltb_ge in El]; lia
        end. }
  assert (C : ceil_factor h sourceHeight
              = Z.max 2 (if h mod sourceHeight =? 0 then h / sourceHeight
                         else h / sourceHeight + 1)).
  { unfold ceil_factor. now rewrite (ceiling_of_quotient _ _ Hs). }
  split; [exact E|]. split; [|split; [|split; reflexivity]].
  - rewrite E, C. intros [Hm | Hlt].
    + apply Z.eqb_neq in Hm. now rewrite Hm.
    + assert (h / sourceHeight < 2) by (apply Z.div_lt_upper_bound; lia).
      destruct (h mod sourceHeight =? 0); lia.
  - rewrite E, C. intros Hm Hle. apply Z.eqb_eq in Hm. rewrite Hm.
    assert (2 <= h / sourceHeight) by (apply Z.div_le_lower_bound; lia).
    lia.
Qed.

Lemma scale_factor_is_floor_plus_one_witness :
  scale_factor 2160 (Some 720) = Z.max 2 (2160 / 720 + 1).
Proof.
  assert (Hs : 0 < 720) by lia.
  exact (proj1 (scale_factor_is_floor_plus_one 2160 720 Hs)).
Defined.

(** C4, as stated, fails: when the source height divides the target
    height at least twice, as from 1080 to 2160, the factor is one
    more than the ceiling of the quotient. *)
Lemma scale_factor_2160_from_1080 :
  scale_factor 2160 (Some 1080) = 3 /\ ceil_factor 2160 1080 = 2.
Proof. split; vm_compute; reflexivity. Qed.

(** *** The three names *)

Lemma names_not_bound :
  load upscale_thread_locals "progress_queue" = raise (NameError "progress_queue")
  /\ load process_queue_locals "progress_queue" = raise (NameError "progress_queue")
  /\ load process_queue_locals "queue" = raise (NameError "queue")
  /\ load_here "upscale_result" = raise (NameError "upscale_result").
Proof. repeat split; vm_compute; reflexivity. Qed.

(** [process_queue] raises before it reads a single message. *)
Lemma process_queue_raises (drain : run unit) :
  process_queue drain = raise (NameError "queue").
Proof.
  unfold process_queue.
  destruct names_not_bound as (_ & -> & -> & _). reflexivity.
Qed.

Lemma after_start_raises (drain : run unit) (success_is_False : bool) (w : world) :
  after_start drain success_is_False w = raise (NameError "queue").
Proof. unfold after_start. rewrite process_queue_raises. reflexivity. Qed.

Lemma upscale_thread_raises (w : world) (scale : Z) :
  result (upscale_thread w scale) = Raised (NameError "progress_queue")
  /\ launched (trace (upscale_thread w scale)) = [up_cmd scale]
  /\ (upscale_returncode w <> 0 ->
      In (Print Upscale_failed) (trace (upscale_thread w scale))).
Proof.
  unfold upscale_thread.
  destruct names_not_bound as (-> & _).
  destruct (upscale_returncode w =? 0) eqn:E; cbn.
  - apply Z.eqb_eq in E. repeat split. intro H. contradiction.
  - repeat split. intros _. tauto.
Qed.

(** *** The stages *)

Lemma extraction_run (w : world) :
  result (extraction w) = Returned tt
  /\ launched (trace (extraction w)) = [extract_cmd].
Proof.
  unfold extraction. destruct (use_tqdm w && nonzero (nb_frames w));
    split; reflexivity.
Qed.

Lemma bind_returned {B} (m : run unit) (k : unit -> run B) :
  result m = Returned tt ->
  bind m k = Build_run (trace m ++ trace (k tt)) (result (k tt)).
Proof. intro H. unfold bind. now rewrite H. Qed.

Lemma launched_app (a b : list event) : launched (a ++ b) = launched a ++ launched b.
Proof. apply flat_map_app. Qed.

(** The three ways a call of [run_upscale] goes. *)
Lemma run_upscale_cases (drain : run unit) (success_is_False : bool)
      (w : world) (h : Z) :
  let r := run_upscale drain success_is_False w h in
  (extract_returncode w <> 0 ->
   r = {| main := Build_run (trace (extraction w) ++ [Print Frame_extraction_failed])
                            (Returned false);
          worker := None |})
  /\ (extract_returncode w = 0 -> exe_is_file w = false ->
      r = {| main := Build_run (trace (extraction w)
                                ++ [Print Upscaling_frames; Print Exe_not_found])
                               (Returned false);
             worker := None |})
  /\ (extract_returncode w = 0 -> exe_is_file w = true ->
      let scale := scale_factor h (option_map snd (resolution w)) in
      r = {| main := Build_run (trace (extraction w)
                                ++ [Print Upscaling_frames;
                                    Print (Upscale_command (up_cmd scale))])
                               (Raised (NameError "queue"));
             worker := Some (upscale_thread w scale) |}).
Proof.
  intro r. subst r. unfold run_upscale.
  destruct (extraction_run w) as [He _].
  split; [|split].
  - intro H. apply Z.eqb_neq in H. rewrite H. cbn [negb]. f_equal.
    rewrite (bind_returned _ _ He). reflexivity.
  - intros H Hx. apply Z.eqb_eq in H. rewrite H, Hx. cbn [negb]. f_equal.
    rewrite (bind_returned _ _ He). reflexivity.
  - intros H Hx. apply Z.eqb_eq in H. rewrite H, Hx. cbn [negb]. f_equal.
    rewrite (bind_returned _ _ He), after_start_raises. reflexivity.
Qed.

(** C5, as the code has it: in every call of [run_upscale] whose
    frame extraction succeeds and that finds the upscaler in [Tool/],
    the transform stage raises [NameError]: [progress_queue], [queue]
    and [upscale_result] are bound nowhere, so [process_queue] raises
    in the calling thread and [upscale_thread] raises at its end. In
    every call whose frame extraction succeeds, the recompose stage
    is never reached and [run_upscale] never returns [True]. *)
Theorem transform_stage_raises_NameError
        (drain : run unit) (success_is_False : bool) (w : world) (h : Z) :
  extract_returncode w = 0 ->
  let r := run_upscale drain success_is_False w h in
  (exe_is_file w = true ->
   result (main r) = Raised (NameError "queue")
   /\ exists t, worker r = Some t
                /\ result t = Raised (NameError "progress_queue"))
  /\ launched (trace (main r)) = [extract_cmd]
  /\ result (main r) <> Returned true
  /\ (forall x locals,
        In x ["progress_queue"; "queue"; "upscale_result"] ->
        In locals [upscale_thread_locals; process_queue_locals; []] ->
        load locals x = raise (NameError x)).
Proof.
  intros He r.
  destruct (run_upscale_cases drain success_is_False w h) as (_ & Hno & Hyes).
  fold r in Hno, Hyes. specialize (Hno He). specialize (Hyes He).
  destruct (extraction_run w) as [_ Hl].
  split; [|split; [|split]].
  - intro Hx. rewrite (Hyes Hx). cbn [main worker result]. split; [reflexivity|].
    eexists. split; [reflexivity|]. apply upscale_thread_raises.
  - destruct (exe_is_file w).
    + rewrite (Hyes eq_refl). cbn [main trace]. rewrite launched_app, Hl. reflexivity.
    + rewrite (Hno eq_refl). cbn [main trace]. rewrite launched_app, Hl. reflexivity.
  - destruct (exe_is_file w).
    + rewrite (Hyes eq_refl). discriminate.
    + rewrite (Hno eq_refl). discriminate.
  - intros x locals Hx Hlocals. simpl in Hx, Hlocals.
    destruct Hx as [<- | [<- | [<- | []]]];
      destruct Hlocals as [<- | [<- | [<- | []]]]; vm_compute; reflexivity.
Qed.

Lemma transform_stage_raises_NameError_witness :
  result (main (run_upscale (ret tt) false
                            (Samples.upscale_world 0 true (1920, 1080) 0) 2160))
  = Raised (NameError "queue").
Proof.
  assert (He : extract_returncode (Samples.upscale_world 0 true (1920, 1080) 0) = 0)
    by reflexivity.
  assert (Hx : exe_is_file (Samples.upscale_world 0 true (1920, 1080) 0) = true)
    by reflexivity.
  exact (proj1 (proj1 (transform_stage_raises_NameError
                         (ret tt) false _ 2160 He) Hx)).
Defined.

(** C5, as stated, fails: when the frame extraction succeeds and the
    upscaler is not in [Tool/], [run_upscale] prints so and returns
    [False]; no [NameError] is raised and no thread is started. *)
Lemma missing_upscaler_returns_False :
  run_upscale (ret tt) false (Samples.upscale_world 0 false (1920, 1080) 0) 2160
  = {| main := Build_run [Print Extracting_frames;
                          Print (Extracting_progress 250);
                          Popen extract_cmd;
                          Print Upscaling_frames;
                          Print Exe_not_found]
                         (Returned false);
       worker := None |}.
Proof. vm_compute. reflexivity. Qed.

(** C10, against the code. A failed frame extraction halts the
    pipeline and is named: [run_upscale] prints that the frame
    extraction failed and returns [False], no thread is started and
    the extraction is the only process launched; so it is when the
    upscaler is not found. But once the upscaler has been started the
    calling thread ends in [NameError] out of [process_queue], the
    extraction being the only process it has launched, and it does so
    in the same way whatever the exit code of the upscaler: lines
    269-270, which would report a failed transform, are never reached,
    and the result does not tell a failed transform from one that
    succeeded. *)
Theorem failed_transform_is_not_reported
        (drain : run unit) (success_is_False : bool) (w : world) (h code : Z) :
  let r := run_upscale drain success_is_False w h in
  (extract_returncode w <> 0 ->
   worker r = None
   /\ launched (trace (main r)) = [extract_cmd]
   /\ In (Print Frame_extraction_failed) (trace (main r))
   /\ result (main r) = Returned false)
  /\ (extract_returncode w = 0 -> exe_is_file w = false ->
      worker r = None
      /\ launched (trace (main r)) = [extract_cmd]
      /\ In (Print Exe_not_found) (trace (main r))
      /\ result (main r) = Returned false)
  /\ (extract_returncode w = 0 -> exe_is_file w = true ->
      launched (trace (main r)) = [extract_cmd]
      /\ result (main r) = Raised (NameError "queue")
      /\ main (run_upscale drain success_is_False
                           (with_upscale_returncode w code) h)
         = main r).
Proof.
  intro r.
  destruct (run_upscale_cases drain success_is_False w h) as (Hfail & Hno & Hyes).
  fold r in Hfail, Hno, Hyes.
  destruct (extraction_run w) as [_ Hl].
  split; [|split].
  - intro He. rewrite (Hfail He). cbn [main worker trace result].
    rewrite launched_app, Hl. repeat split.
    apply in_or_app. right. simpl. tauto.
  - intros He Hx. rewrite (Hno He Hx). cbn [main worker trace result].
    rewrite launched_app, Hl. repeat split.
    apply in_or_app. right. simpl. tauto.
  - intros He Hx. rewrite (Hyes He Hx). cbn [main trace result].
    rewrite launched_app, Hl. split; [reflexivity|]. split; [reflexivity|].
    destruct (run_upscale_cases drain success_is_False
                                (with_upscale_returncode w code) h)
      as (_ & _ & Hyes').
    rewrite (Hyes' He Hx). reflexivity.
Qed.

Lemma failed_transform_is_not_reported_witness :
  main (run_upscale (ret tt) false
                    (Samples.upscale_world 0 true (1920, 1080) 1) 2160)
  = main (run_upscale (ret tt) false
                      (Samples.upscale_world 0 true (1920, 1080) 0) 2160).
Proof.
  assert (He : extract_returncode (Samples.upscale_world 0 true (1920, 1080) 0) = 0)
    by reflexivity.
  assert (Hx : exe_is_file (Samples.upscale_world 0 true (1920, 1080) 0) = true)
    by reflexivity.
  exact (proj2 (proj2 (proj2 (proj2 (failed_transform_is_not_reported
                                       (ret tt) false _ 2160 1)) He Hx))).
Defined.

End UpscaleFacts.

(** ** The choice of the upscale jobs *)

Module UpscaleGuiFacts.
Import Py Run PyFacts Stated Upscale UpscaleGui.

Lemma choice_is_taller (width height : Z) (c : string * (Z * Z)) :
  In c (upscale_resolution_choices width height) ->
  In c resolutions /\ height < snd (snd c).
Proof.
  unfold upscale_resolution_choices. rewrite filter_In, Z.ltb_lt. tauto.
Qed.

(** X1: [upscale_resolution_choices] offers the presets strictly
    taller than the source, as a tail of the list of presets in its
    order, and offers none exactly when the source is 2160 or taller. *)
Theorem choices_are_the_taller_presets (width height : Z) :
  let choices := upscale_resolution_choices width height in
  (exists k, choices = skipn k resolutions)
  /\ (forall c, In c choices <-> In c resolutions /\ height < snd (snd c))
  /\ (choices = [] <-> 2160 <= height).
Proof.
  intro choices. subst choices. split; [|split].
  - unfold upscale_resolution_choices, resolutions. cbn [filter snd].
    destruct (height <? 720) eqn:E1, (height <? 1080) eqn:E2,
             (height <? 2160) eqn:E3;
      rewrite ?Z.ltb_lt, ?Z.ltb_ge in *; try lia;
      [exists 0%nat | exists 1%nat | exists 2%nat | exists 3%nat]; reflexivity.
  - intro c. unfold upscale_resolution_choices.
    rewrite filter_In, Z.ltb_lt. tauto.
  - unfold upscale_resolution_choices, resolutions. cbn [filter snd].
    destruct (height <? 720) eqn:E1, (height <? 1080) eqn:E2,
             (height <? 2160) eqn:E3;
      rewrite ?Z.ltb_lt, ?Z.ltb_ge in *; split; intro H;
      try discriminate; try reflexivity; lia.
Qed.

(** X2: for every preset offered for a source of height > 0, the
    factor [run_upscale] computes is [floor(h / height) + 1], at least
    2 without the minimum being applied, and the upscaled height
    [factor * height] exceeds the target [h], by at most one source
    height. *)
Theorem offered_choice_overshoots (width height : Z) (c : string * (Z * Z)) :
  0 < height ->
  In c (upscale_resolution_choices width height) ->
  let h := snd (snd c) in
  let scale := scale_factor h (Some height) in
  scale = h / height + 1
  /\ 2 <= scale
  /\ h < scale * height <= h + height.
Proof.
  intros Hh Hc h scale. apply choice_is_taller in Hc. destruct Hc as [_ Hlt].
  fold h in Hlt.
  assert (Hq : 1 <= h / height) by (apply Z.div_le_lower_bound; lia).
  assert (E : scale = h / height + 1).
  { subst scale. unfold scale_factor.
    assert ((height =? 0) = false) as -> by (apply Z.eqb_neq; lia).
    rewrite (UpscaleFacts.int_of_quotient _ _ Hh).
    assert ((0 <=? h) = true) as -> by (apply Z.leb_le; lia).
    assert ((h / height + 1 <? 2) = false) as -> by (apply Z.ltb_ge; lia).
    reflexivity. }
  pose proof (Z.div_mod h height ltac:(lia)) as Hdm.
  pose proof (Z.mod_pos_bound h height Hh) as Hm.
  rewrite E. split; [reflexivity|]. split; [lia|]. nia.
Qed.

Lemma offered_choice_overshoots_witness :
  scale_factor 2160 (Some 1080) = 2160 / 1080 + 1.
Proof.
  assert (Hh : 0 < 1080) by lia.
  assert (Hc : In ("4K (3840x2160)", (3840, 2160))
                  (upscale_resolution_choices 1920 1080))
    by (vm_compute; tauto).
  exact (proj1 (offered_choice_overshoots 1920 1080 _ Hh Hc)).
Defined.

Lemma target_of_choice (choices : list (string * (Z * Z))) (l : string) (t : Z * Z) :
  target_of choices l = Some t -> In (l, t) choices.
Proof.
  unfold target_of. destruct (find _ choices) as [[l' t']|] eqn:E; [|discriminate].
  intro H. inversion H; subst. apply find_some in E. destruct E as [Hin Heq].
  apply String.eqb_eq in Heq. simpl in Heq. now subst.
Qed.

Lemma select_job (i : nat) (f : file) (j : job) :
  In j (snd (select i f)) ->
  index j = i /\ source j = f
  /\ exists width height,
       resolution f = Some (width, height)
       /\ In (label f, target j) resolutions
       /\ height < snd (target j).
Proof.
  unfold select. destruct (resolution f) as [[width height]|]; [|intros []].
  destruct (upscale_resolution_choices width height) as [|c0 cs] eqn:Ec;
    [intros []|].
  destruct (String.eqb (label f) ""); [intros []|].
  destruct (target_of (c0 :: cs) (label f)) as [t|] eqn:Et; [|intros []].
  intros [<- | []]. cbn [index source target].
  split; [reflexivity|]. split; [reflexivity|].
  exists width, height. split; [reflexivity|].
  apply target_of_choice in Et. rewrite <- Ec in Et.
  apply choice_is_taller in Et. exact Et.
Qed.

Lemma select_all_jobs (files : list file) (i0 : nat) (j : job) :
  In j (snd (select_all i0 files)) ->
  (i0 <= index j)%nat
  /\ nth_error files (index j - i0) = Some (source j)
  /\ exists width height,
       resolution (source j) = Some (width, height)
       /\ In (label (source j), target j) resolutions
       /\ height < snd (target j).
Proof.
  revert i0. induction files as [|f rest IH]; intro i0; cbn [select_all].
  - intros [].
  - destruct (select i0 f) as [evs jobs] eqn:Es.
    destruct (select_all (S i0) rest) as [evs' jobs'] eqn:Ea.
    cbn [snd]. rewrite in_app_iff. intros [H | H].
    + assert (Hj : In j (snd (select i0 f))) by (rewrite Es; exact H).
      apply select_job in Hj. destruct Hj as (Hi & Hs & Hr).
      split; [lia|].
      split; [rewrite Hi, Nat.sub_diag, Hs; reflexivity | rewrite Hs; exact Hr].
    + assert (Hj : In j (snd (select_all (S i0) rest))) by (rewrite Ea; exact H).
      apply IH in Hj. destruct Hj as (Hi & Hn & Hr).
      split; [lia|]. split; [|exact Hr].
      replace (index j - i0)%nat with (S (index j - S i0)) by lia. exact Hn.
Qed.

(** X3: every job that [run_video_upscale_gui] queues is for a file of
    the selection whose resolution could be read, towards the preset
    whose label was selected in its dialog, and that preset is
    strictly taller than the file. *)
Theorem queued_jobs_are_taller_presets (files : list file) (j : job) :
  In j (snd (select_all 0 files)) ->
  nth_error files (index j) = Some (source j)
  /\ exists width height,
       resolution (source j) = Some (width, height)
       /\ In (label (source j), target j) resolutions
       /\ height < snd (target j).
Proof.
  intro H. apply select_all_jobs in H. destruct H as (_ & Hn & Hr).
  rewrite Nat.sub_0_r in Hn. split; assumption.
Qed.

Lemma queued_jobs_are_taller_presets_witness :
  let f := {| resolution := Some (1280, 720); label := "4K (3840x2160)";
              world := Samples.upscale_world 0 true (1280, 720) 0 |} in
  nth_error [f] 0 = Some f
  /\ exists width height,
       resolution f = Some (width, height)
       /\ In (label f, (3840, 2160)) resolutions
       /\ height < 2160.
Proof.
  intro f.
  assert (H : In {| index := 0; source := f; target := (3840, 2160) |}
                 (snd (select_all 0 [f]))) by (vm_compute; tauto).
  exact (queued_jobs_are_taller_presets [f] _ H).
Defined.

(** A call of [run_upscale] either returns [False] without having
    started the upscaler, or raises out of [process_queue]. *)
Lemma run_upscale_outcome (drain : run unit) (success_is_False : bool)
      (w : Upscale.world) (h : Z) :
  let t := run_upscale drain success_is_False w h in
  (result (main t) = Returned false /\ worker t = None)
  \/ (result (main t) = Raised (NameError "queue") /\ worker t <> None).
Proof.
  intro t.
  destruct (UpscaleFacts.run_upscale_cases drain success_is_False w h)
    as (Hfail & Hno & Hyes). fold t in Hfail, Hno, Hyes.
  destruct (Z.eq_dec (extract_returncode w) 0) as [He | He].
  - destruct (exe_is_file w) eqn:Hx.
    + right. rewrite (Hyes He eq_refl). split; [reflexivity | discriminate].
    + left. rewrite (Hno He eq_refl). split; reflexivity.
  - left. rewrite (Hfail He). split; reflexivity.
Qed.

Lemma run_jobs_outcome (drain : run unit) (success_is_False : bool)
      (jobs : list job) :
  let r := run_jobs drain success_is_False jobs in
  (snd r = Returned tt
   /\ forall j t, In (Run_upscale j t) (fst r) ->
                  result (main t) = Returned false /\ worker t = None)
  \/ (snd r = Raised (NameError "queue")
      /\ exists before j t,
           fst r = before ++ [Run_upscale j t]
           /\ worker t <> None
           /\ forall j' t', In (Run_upscale j' t') before ->
                            result (main t') = Returned false /\ worker t' = None).
Proof.
  induction jobs as [|j rest IH]; cbn [run_jobs].
  - left. split; [reflexivity|]. intros j t [].
  - destruct (run_upscale_outcome drain success_is_False (world (source j))
                                  (snd (target j))) as [[Hr Hw] | [Hr Hw]].
    + rewrite Hr.
      destruct (run_jobs drain success_is_False rest) as [evs out].
      cbn [fst snd] in *. destruct IH as [[Ho Hall] | (Ho & before & j' & t' & Hf & Hw' & Hb)].
      * left. split; [exact Ho|]. intros j0 t0 [H | H].
        -- inversion H; subst. split; assumption.
        -- apply Hall in H. exact H.
      * right. split; [exact Ho|].
        exists (Run_upscale j (run_upscale drain success_is_False
                                           (world (source j)) (snd (target j)))
                :: before), j', t'.
        split; [rewrite Hf; reflexivity|]. split; [exact Hw'|].
        intros j0 t0 [H | H].
        -- inversion H; subst. split; assumption.
        -- apply Hb in H. exact H.
    + rewrite Hr. right. cbn [fst snd]. split; [reflexivity|].
      exists [], j, (run_upscale drain success_is_False (world (source j))
                                 (snd (target j))).
      split; [reflexivity|]. split; [exact Hw|]. intros j' t' [].
Qed.

Lemma run_jobs_no_notice (drain : run unit) (success_is_False : bool)
      (jobs : list job) (n : notice) :
  ~ In (Notice n) (fst (run_jobs drain success_is_False jobs)).
Proof.
  induction jobs as [|j rest IH]; cbn [run_jobs]; [intros []|].
  destruct (result (main (run_upscale drain success_is_False (world (source j))
                                      (snd (target j))))).
  - destruct (run_jobs drain success_is_False rest) as [evs out].
    cbn [fst] in *. intros [H | H]; [discriminate | exact (IH H)].
  - cbn [fst]. intros [H | []]. discriminate.
Qed.

Lemma select_notices (i : nat) (f : file) :
  Forall (fun e => match e with
                   | Notice Process_finished | Run_upscale _ _ => False
                   | Notice _ => True
                   end)
         (fst (select i f)).
Proof.
  unfold select. destruct (resolution f) as [[width height]|];
    [|repeat constructor].
  destruct (upscale_resolution_choices width height); [repeat constructor|].
  destruct (String.eqb (label f) ""); [repeat constructor|].
  destruct (target_of _ _); constructor.
Qed.

Lemma select_all_notices (files : list file) (i : nat) :
  Forall (fun e => match e with
                   | Notice Process_finished | Run_upscale _ _ => False
                   | Notice _ => True
                   end)
         (fst (select_all i files)).
Proof.
  revert i. induction files as [|f rest IH]; intro i; cbn [select_all].
  - constructor.
  - pose proof (select_notices i f) as Hs. specialize (IH (S i)).
    destruct (select i f) as [evs jobs].
    destruct (select_all (S i) rest) as [evs' jobs'].
    cbn [fst] in *. apply Forall_app. split; assumption.
Qed.

(** X4: the upscale batch never upscales. Whenever
    [run_video_upscale_gui] returns - and only then can it show that
    the process is finished - every job it ran has returned [False]
    without starting the upscaler; otherwise it raises the [NameError]
    of the first job that got as far as starting it, and runs no job
    after that one. *)
Theorem upscale_batch_never_upscales
        (drain : run unit) (success_is_False : bool)
        (files : list file) (outdir : string) :
  let r := run_video_upscale_gui drain success_is_False files outdir in
  (In (Notice Process_finished) (fst r) -> snd r = Returned tt)
  /\ (snd r = Returned tt ->
      forall j t, In (Run_upscale j t) (fst r) ->
                  result (main t) = Returned false /\ worker t = None)
  /\ (snd r <> Returned tt ->
      snd r = Raised (NameError "queue")
      /\ exists before j t,
           fst r = before ++ [Run_upscale j t] /\ worker t <> None).
Proof.
  intro r. subst r. unfold run_video_upscale_gui.
  destruct files as [|f0 files0].
  { cbn [fst snd]. split; [reflexivity|]. split.
    - intros _ j t [H | []]. discriminate.
    - intro H. contradiction. }
  pose proof (select_all_notices (f0 :: files0) 0) as Hn.
  destruct (select_all 0 (f0 :: files0)) as [evs jobs]. cbn [fst] in Hn.
  destruct jobs as [|j0 jobs0].
  { cbn [fst snd]. split; [reflexivity|]. split.
    - intros _ j t H. apply in_app_or in H. destruct H as [H | [H | []]].
      + rewrite Forall_forall in Hn. apply Hn in H. contradiction.
      + discriminate.
    - intro H. contradiction. }
  destruct (String.eqb outdir "").
  { cbn [fst snd]. split; [reflexivity|]. split.
    - intros _ j t H. apply in_app_or in H. destruct H as [H | [H | []]].
      + rewrite Forall_forall in Hn. apply Hn in H. contradiction.
      + discriminate.
    - intro H. contradiction. }
  pose proof (run_jobs_outcome drain success_is_False (j0 :: jobs0)) as Ho.
  pose proof (run_jobs_no_notice drain success_is_False (j0 :: jobs0)
                                 Process_finished) as Hnn.
  destruct (run_jobs drain success_is_False (j0 :: jobs0)) as [ran out].
  cbn [fst snd] in Ho, Hnn.
  destruct Ho as [[Hout Hall] | (Hout & before & j & t & Hran & Hw & Hb)];
    subst out; cbn [fst snd].
  - split; [reflexivity|]. split; [|intro H; contradiction].
    intros _ j t H. rewrite !in_app_iff in H. simpl in H.
    destruct H as [H | [[H | []] | [H | [H | []]]]]; try discriminate.
    + rewrite Forall_forall in Hn. apply Hn in H. contradiction.
    + apply Hall in H. exact H.
  - split; [|split; [discriminate|]].
    + intro H. exfalso. rewrite !in_app_iff in H. simpl in H.
      destruct H as [H | [[H | []] | H]]; try discriminate.
      * rewrite Forall_forall in Hn. apply Hn in H. exact H.
      * exact (Hnn H).
    + intros _. split; [reflexivity|].
      exists (evs ++ Notice Jobs_to_perform :: before), j, t.
      rewrite Hran, <- app_assoc. split; [reflexivity | exact Hw].
Qed.

End UpscaleGuiFacts.

(** ** The batch of the audio fix *)

Module AudioFixGuiFacts.
Import Py Run PyFacts Stated AudioFixGui.

Lemma assign_in_range (idx : nat) (s : status) (labels : list status) :
  (idx < length labels)%nat ->
  exists labels',
    assign idx s labels = Some labels'
    /\ length labels' = length labels
    /\ nth_error labels' idx = Some s
    /\ forall j, j <> idx -> nth_error labels' j = nth_error labels j.
Proof.
  revert idx. induction labels as [|l rest IH]; intros idx Hlt; simpl in Hlt; [lia|].
  destruct idx as [|i]; cbn [assign].
  - exists (s :: rest). repeat split. intros [|j] Hj; [contradiction | reflexivity].
  - destruct (IH i ltac:(lia)) as (labels' & -> & Hlen & Hnth & Hother).
    exists (l :: labels'). cbn [option_map length nth_error].
    repeat split; [now rewrite Hlen | exact Hnth |].
    intros [|j] Hj; [reflexivity | apply Hother; lia].
Qed.

Lemma finished_iff (schedule : list action) (idx : nat) :
  In idx (finished schedule) <-> exists error, In (Finish idx error) schedule.
Proof.
  unfold finished. rewrite in_flat_map. split.
  - intros ([i p m s' | i e] & Hin & Hi); simpl in Hi; [contradiction|].
    destruct Hi as [<- | []]. now exists e.
  - intros [e He]. exists (Finish idx e). split; [exact He | left; reflexivity].
Qed.

Lemma well_formed_snoc (n : nat) (schedule : list action) (a : action) :
  well_formed n (schedule ++ [a]) ->
  well_formed n schedule
  /\ (position a < n)%nat
  /\ ~ In (position a) (finished schedule).
Proof.
  induction schedule as [|b rest IH]; cbn [app well_formed].
  - destruct a; cbn [position finished flat_map]; intuition.
  - destruct b as [i p m s | i e].
    + intros [Hi Hwf]. destruct (IH Hwf) as (Hr & Ha & Hf). intuition.
    + intros (Hi & Hnf & Hnc & Hwf). destruct (IH Hwf) as (Hr & Ha & Hf).
      split; [|split; [exact Ha|]].
      * split; [exact Hi|]. split; [|split; [|exact Hr]].
        -- intro H. apply Hnf. unfold finished in *.
           rewrite flat_map_app. apply in_or_app. now left.
        -- intros p m s H. apply (Hnc p m s). apply in_or_app. now left.
      * cbn [finished flat_map app]. intros [H | H]; [|exact (Hf H)].
        destruct a as [i' p m s | i' e']; cbn [position] in *; subst i'.
        -- apply (Hnc p m s). apply in_or_app. right. left. reflexivity.
        -- apply Hnf. unfold finished. rewrite flat_map_app.
           apply in_or_app. right. left. reflexivity.
Qed.

Lemma play_snoc (schedule : list action) (a : action) (w : window) :
  play (schedule ++ [a]) w
  = match play schedule w with
    | Some w' => step a w'
    | None => None
    end.
Proof.
  revert w. induction schedule as [|b rest IH]; intro w; cbn [app play].
  - destruct (step a w); reflexivity.
  - destruct (step b w); [apply IH | reflexivity].
Qed.

Lemma all_terminal (labels : list status) :
  forallb terminal labels = true
  <-> forall j s, nth_error labels j = Some s -> terminal s = true.
Proof.
  rewrite forallb_forall. split.
  - intros H j s Hj. apply H. eapply nth_error_In, Hj.
  - intros H s Hs. apply In_nth_error in Hs. destruct Hs as [j Hj]. eapply H, Hj.
Qed.

Lemma outcome_status_terminal (error : option exn) :
  terminal (outcome_status error) = true.
Proof. destruct error; reflexivity. Qed.

Lemma play_settles (n : nat) (schedule : list action) :
  (0 < n)%nat -> well_formed n schedule ->
  exists w, play schedule (opened n) = Some w /\ settled n schedule w.
Proof.
  intro Hn. induction schedule as [|a schedule IH] using rev_ind; intro Hwf.
  - exists (opened n). split; [reflexivity|]. unfold settled, opened.
    cbn [status_labels log destroyed buttons_enabled].
    split; [apply repeat_length|]. split; [intros idx e []|].
    split.
    { intros idx Hi _. exists Waiting. split; [|reflexivity].
      apply nth_error_repeat, Hi. }
    split; [reflexivity|]. split.
    + intro H. destruct (H 0%nat Hn).
    + intros _. split; reflexivity.
  - apply well_formed_snoc in Hwf. destruct Hwf as (Hwf & Ha & Hnf).
    destruct (IH Hwf) as (w & Hplay & Hlen & Hfin & Hrun & Hlog & Hall & Hnot).
    rewrite play_snoc, Hplay.
    assert (Hopen : destroyed w = 0%nat /\ buttons_enabled w = false).
    { apply Hnot. intro H. apply Hnf, H, Ha. }
    destruct Hopen as [Hd Hb].
    assert (Hother : forall idx error,
               In (Finish idx error) schedule -> idx <> position a).
    { intros idx e He Heq. apply Hnf. rewrite <- Heq. apply finished_iff.
      now exists e. }
    destruct a as [i p m s | i e]; cbn [position step] in *.
    + unfold callback.
      destruct (assign_in_range i (Progress p m s) (status_labels w)
                                ltac:(rewrite Hlen; exact Ha))
        as (labels' & -> & Hlen' & Hnth & Hrest).
      eexists. split; [reflexivity|]. unfold settled.
      cbn [status_labels log destroyed buttons_enabled].
      assert (Hf : finished (schedule ++ [Callback i p m s]) = finished schedule).
      { unfold finished. rewrite flat_map_app. apply app_nil_r. }
      rewrite Hf. split; [now rewrite Hlen'|]. split.
      { intros idx e He. apply in_app_or in He.
        destruct He as [He | [He | []]]; [|discriminate].
        rewrite (Hrest idx (Hother _ _ He)). exact (Hfin _ _ He). }
      split.
      { intros idx Hi Hni. destruct (Nat.eq_dec idx i) as [-> | Hne].
        - exists (Progress p m s). split; [exact Hnth | reflexivity].
        - rewrite (Hrest idx Hne). exact (Hrun idx Hi Hni). }
      split.
      { unfold logged. rewrite flat_map_app. cbn [flat_map].
        rewrite app_nil_r. exact Hlog. }
      split.
      * intro H. exfalso. apply Hnf, H, Ha.
      * intros _. split; assumption.
    + unfold finish.
      destruct (assign_in_range i (outcome_status e) (status_labels w)
                                ltac:(rewrite Hlen; exact Ha))
        as (labels' & -> & Hlen' & Hnth & Hrest).
      assert (Hf : finished (schedule ++ [Finish i e]) = finished schedule ++ [i]).
      { unfold finished. rewrite flat_map_app. reflexivity. }
      assert (Hfin' : forall idx error,
                 In (Finish idx error) (schedule ++ [Finish i e]) ->
                 nth_error labels' idx = Some (outcome_status error)).
      { intros idx e' He. apply in_app_or in He. destruct He as [He | [He | []]].
        - rewrite (Hrest idx (Hother _ _ He)). exact (Hfin _ _ He).
        - inversion He; subst. exact Hnth. }
      assert (Hrun' : forall idx,
                 (idx < n)%nat -> ~ In idx (finished (schedule ++ [Finish i e])) ->
                 exists s, nth_error labels' idx = Some s /\ terminal s = false).
      { intros idx Hi Hni. rewrite Hf in Hni.
        assert (Hne : idx <> i) by (intros ->; apply Hni, in_or_app; right; now left).
        rewrite (Hrest idx Hne). apply (Hrun idx Hi).
        intro H. apply Hni, in_or_app. now left. }
      assert (Hlog' : log w ++ [outcome_line i e] = logged (schedule ++ [Finish i e])).
      { unfold logged. rewrite flat_map_app. cbn [flat_map]. now rewrite Hlog. }
      destruct (forallb terminal labels') eqn:Et.
      * eexists. split; [reflexivity|]. unfold settled.
        cbn [status_labels log destroyed buttons_enabled].
        split; [now rewrite Hlen'|]. split; [exact Hfin'|].
        split; [exact Hrun'|]. split; [exact Hlog'|]. split.
        -- intros _. rewrite Hd. split; reflexivity.
        -- intro H. exfalso. apply H. intros idx Hi.
           destruct (in_dec Nat.eq_dec idx (finished (schedule ++ [Finish i e])))
             as [Hin | Hni]; [exact Hin|].
           destruct (Hrun' idx Hi Hni) as (s & Hs & Hts).
           rewrite (proj1 (all_terminal labels') Et idx s Hs) in Hts. discriminate.
      * eexists. split; [reflexivity|]. unfold settled.
        cbn [status_labels log destroyed buttons_enabled].
        split; [now rewrite Hlen'|]. split; [exact Hfin'|].
        split; [exact Hrun'|]. split; [exact Hlog'|]. split.
        -- intro H. exfalso.
           assert (Ht : forallb terminal labels' = true).
           { apply all_terminal. intros j s Hj.
             assert (Hjn : (j < n)%nat).
             { rewrite <- Hlen, <- Hlen'. apply nth_error_Some. congruence. }
             destruct (proj1 (finished_iff _ _) (H j Hjn)) as [e' He'].
             rewrite (Hfin' _ _ He') in Hj. inversion Hj.
             apply outcome_status_terminal. }
           congruence.
        -- intros _. split; assumption.
Qed.

(** X5: in a batch of [n] > 0 files, whatever the order in which the
    callbacks and the [finish] calls of the files reach the window, no
    call fails; a file that has finished shows its own outcome
    ("Done!" without an exception, "Error" with one) and a file that
    has not shows neither; the log holds one line per finished file, in
    the order of finishing; and the progress window is destroyed and
    the buttons are enabled again exactly once, when every file has
    finished, and not before. *)
Theorem batch_statuses (n : nat) (schedule : list action) :
  (0 < n)%nat -> well_formed n schedule ->
  exists w,
    play schedule (opened n) = Some w
    /\ (forall idx error,
          In (Finish idx error) schedule ->
          nth_error (status_labels w) idx = Some (outcome_status error))
    /\ (forall idx,
          (idx < n)%nat -> ~ In idx (finished schedule) ->
          exists s, nth_error (status_labels w) idx = Some s /\ terminal s = false)
    /\ log w = logged schedule
    /\ ((forall idx, (idx < n)%nat -> In idx (finished schedule)) ->
        destroyed w = 1%nat /\ buttons_enabled w = true)
    /\ (~ (forall idx, (idx < n)%nat -> In idx (finished schedule)) ->
        destroyed w = 0%nat /\ buttons_enabled w = false).
Proof.
  intros Hn Hwf. destruct (play_settles n schedule Hn Hwf) as (w & Hplay & Hs).
  exists w. split; [exact Hplay|]. unfold settled in Hs. tauto.
Qed.

Lemma batch_statuses_witness :
  exists w,
    play [Callback 0 50 (Some 0) (Some 10);
          Finish 1 (Some (RuntimeError 1));
          Finish 0 None] (opened 2) = Some w
    /\ status_labels w = [Done; Error]
    /\ destroyed w = 1%nat.
Proof.
  assert (Hn : (0 < 2)%nat) by lia.
  assert (Hwf : well_formed 2 [Callback 0 50 (Some 0) (Some 10);
                               Finish 1 (Some (RuntimeError 1));
                               Finish 0 None]).
  { simpl. split; [lia|]. split; [lia|].
    split; [intros [H | []]; discriminate|].
    split; [intros p m s [H | []]; discriminate|].
    split; [lia|]. split; [intros []|]. split; [intros p m s []|exact I]. }
  destruct (batch_statuses 2 _ Hn Hwf) as (w & Hplay & _).
  exists w. split; [exact Hplay|].
  vm_compute in Hplay. inversion Hplay. split; reflexivity.
Defined.

End AudioFixGuiFacts.

(** ** The jobs, from the probe to the exit *)

Module JobFacts.
Import Py Run PyFacts FloatFacts Stated.

Lemma trace_bind {A B} (m : run A) (k : A -> run B) :
  trace (bind m k)
  = trace m ++ match result m with
               | Returned a => trace (k a)
               | Raised _ => []
               end.
Proof. unfold bind. destruct (result m); cbn [trace]; now rewrite ?app_nil_r. Qed.

Lemma result_bind {A B} (m : run A) (k : A -> run B) :
  result (bind m k)
  = match result m with
    | Returned a => result (k a)
    | Raised e => Raised e
    end.
Proof. unfold bind. destruct (result m); reflexivity. Qed.

Lemma result_in_thread (m : run unit) : result (in_thread m) = Returned tt.
Proof. unfold in_thread. destruct (result m) as [[]|e] eqn:E; [exact E | reflexivity]. Qed.

Lemma launched_in_thread (m : run unit) :
  launched (trace (in_thread m)) = launched (trace m).
Proof.
  unfold in_thread. destruct (result m); [reflexivity|].
  cbn [trace]. rewrite UpscaleFacts.launched_app. apply app_nil_r.
Qed.

(** *** The probes *)

Lemma launched_bind {A B} (m : run A) (k : A -> run B) :
  launched (trace (bind m k))
  = launched (trace m) ++ match result m with
                          | Returned a => launched (trace (k a))
                          | Raised _ => []
                          end.
Proof.
  rewrite trace_bind, UpscaleFacts.launched_app. destruct (result m); reflexivity.
Qed.

Lemma audio_fix_probe (s : string) :
  AudioFix.probe_duration s
  = Build_run (match Compression.probe_duration s with
               | None => [Print (Duration_unknown s)]
               | Some _ => []
               end)
              (Returned (Compression.probe_duration s)).
Proof.
  unfold AudioFix.probe_duration, Compression.probe_duration.
  destruct (float_of_str s) as [[d|[|]|]|]; try reflexivity.
  destruct (leb d 0); reflexivity.
Qed.

Lemma probe_regular (s : string) :
  float_of_str s <> Some (Inf false) -> float_of_str s <> Some NaN ->
  regular (Compression.probe_duration s).
Proof.
  unfold Compression.probe_duration.
  destruct (float_of_str s) as [[d|[|]|]|]; cbn; try tauto; try congruence.
  intros _ _. destruct (leb d 0) eqn:E; cbn; [exact I|].
  apply Qnot_le_lt. intro H. apply leb_le in H. congruence.
Qed.

Lemma probe_audio_bitrate_cases (s : string) :
  exists b warnings,
    Compression.probe_audio_bitrate s = Build_run warnings (Returned b)
    /\ ((warnings = [] /\ int_of_str s = Some b
         /\ s <> "" /\ s <> "N/A" /\ s <> "0")
        \/ (b = 128000 /\ warnings = [Print Audio_bitrate_default]
            /\ (s = "" \/ s = "N/A" \/ s = "0"))
        \/ (b = 128000 /\ warnings = [Print (Audio_bitrate_unexpected s)]
            /\ int_of_str s = None)).
Proof.
  unfold Compression.probe_audio_bitrate.
  destruct (String.eqb s "") eqn:E1; cbn [orb].
  { apply String.eqb_eq in E1. eexists _, _. split; [reflexivity|].
    right. left. tauto. }
  destruct (String.eqb s "N/A") eqn:E2; cbn [orb].
  { apply String.eqb_eq in E2. eexists _, _. split; [reflexivity|].
    right. left. tauto. }
  destruct (String.eqb s "0") eqn:E3.
  { apply String.eqb_eq in E3. eexists _, _. split; [reflexivity|].
    right. left. tauto. }
  apply String.eqb_neq in E1, E2, E3.
  destruct (int_of_str s) as [b|].
  - exists b, []. split; [reflexivity|]. left. tauto.
  - eexists _, _. split; [reflexivity|]. right. right. tauto.
Qed.

Lemma probe_audio_bitrate_returns (s : string) :
  exists b warnings,
    Compression.probe_audio_bitrate s = Build_run warnings (Returned b)
    /\ launched warnings = [].
Proof.
  destruct (probe_audio_bitrate_cases s) as (b & warnings & E & H).
  exists b, warnings. split; [exact E|].
  destruct H as [(-> & _) | [(_ & -> & _) | (_ & -> & _)]]; reflexivity.
Qed.

(** X6: the two jobs read the duration probe alike: [run_audio_fix]
    keeps exactly the durations [run_compression] goes on with, and
    prints that the duration could not be determined exactly when
    [run_compression] would abort. *)
Theorem probes_agree (s : string) :
  AudioFix.probe_duration s
  = Build_run (match Compression.probe_duration s with
               | None => [Print (Duration_unknown s)]
               | Some _ => []
               end)
              (Returned (Compression.probe_duration s)).
Proof. exact (audio_fix_probe s). Qed.

(** *** The numeral of the audio bit rate *)








(** *** No process is launched by the loops *)

Lemma compression_loop_launches_nothing (d : Q) (gui : bool) (clock : nat -> Q)
      (start : Q) (reads : list string) (tick : nat) :
  launched (Compression.read_loop d gui clock start reads tick) = [].
Proof.
  revert tick. induction reads as [|line rest IH]; intro tick; [reflexivity|].
  cbn [Compression.read_loop]. destruct (String.eqb line ""); [apply IH|].
  unfold Compression.on_line.
  destruct (contains "time=" line); [|apply IH].
  destruct (search_time line) as [g|]; [|apply IH].
  destruct (Compression.eta _ _ _ _) as [mins secs].
  rewrite UpscaleFacts.launched_app, IH. unfold Compression.report. destruct gui; reflexivity.
Qed.

Lemma audio_loop_launches_nothing (duration : option pyfloat) (gui : bool)
      (clock : nat -> Q) (reads : list string) (start_time : option Q) (tick : nat) :
  launched (trace (AudioFix.read_loop duration gui clock reads start_time tick)) = [].
Proof.
  revert start_time tick.
  induction reads as [|line rest IH]; intros start_time tick; [reflexivity|].
  cbn [AudioFix.read_loop]. destruct (String.eqb line ""); [apply IH|].
  destruct (if contains "time=" line then AudioFix.usable duration else None)
    as [d|]; [|apply IH].
  destruct (search_time line) as [g|]; [|apply IH].
  rewrite trace_bind, UpscaleFacts.launched_app.
  assert (Hs : launched (trace (AudioFix.on_sample gui clock d g start_time tick)) = []).
  { unfold AudioFix.on_sample.
    destruct (AudioFix.start_of clock start_time tick) as [start tick1].
    destruct (AudioFix.elapsed_of clock start tick1) as [elapsed tick2].
    unfold AudioFix.eta, AudioFix.report, swallow.
    destruct (ltb 0 _ && ltb _ 100); [destruct (Qeq_bool _ 0)|];
      destruct gui; reflexivity. }
  rewrite Hs. destruct (result _); [apply IH | reflexivity].
Qed.

Lemma compression_supervisor_launches_once (w : Compression.world) (d : Q)
      (gui : bool) (cmd : list arg) :
  launched (trace (Compression.run_ffmpeg w d gui cmd))
  = if String.eqb (Compression.video_dir w) "" then [] else [cmd].
Proof.
  destruct (String.eqb (Compression.video_dir w) "") eqn:Ev.
  - apply String.eqb_eq in Ev.
    now rewrite (CompressionFacts.run_ffmpeg_nowhere _ _ _ _ Ev).
  - apply String.eqb_neq in Ev.
    rewrite (CompressionFacts.run_ffmpeg_trace _ _ _ _ Ev). cbn [trace].
    change (Popen cmd :: ?l) with ([Popen cmd] ++ l).
    rewrite !UpscaleFacts.launched_app, compression_loop_launches_nothing.
    destruct gui; reflexivity.
Qed.

Lemma compression_thread_launches_once (w : Compression.world) (d : Q)
      (cmd : list arg) :
  launched (trace (Compression.run_ffmpeg_and_finalize w d cmd))
  = if String.eqb (Compression.video_dir w) "" then [] else [cmd].
Proof.
  destruct (String.eqb (Compression.video_dir w) "") eqn:Ev.
  - apply String.eqb_eq in Ev. unfold Compression.run_ffmpeg_and_finalize.
    now rewrite (CompressionFacts.run_ffmpeg_nowhere _ _ _ _ Ev).
  - apply String.eqb_neq in Ev.
    rewrite (CompressionFacts.run_ffmpeg_and_finalize_trace _ _ _ Ev). cbn [trace].
    change (Popen cmd :: ?l) with ([Popen cmd] ++ l).
    rewrite !UpscaleFacts.launched_app, compression_loop_launches_nothing.
    destruct (Compression.winfo_exists w); reflexivity.
Qed.

Lemma audio_supervisor_launches_once (w : AudioFix.world)
      (duration : option pyfloat) (gui : bool) (cmd : list arg) :
  launched (trace (AudioFix.run_ffmpeg_and_report w duration gui cmd)) = [cmd].
Proof.
  unfold AudioFix.run_ffmpeg_and_report.
  rewrite launched_bind. cbn [emit trace result].
  change (launched [Popen cmd]) with [cmd]. cbn [app]. f_equal.
  rewrite launched_bind, audio_loop_launches_nothing. cbn [app].
  destruct (result _); [|reflexivity].
  rewrite launched_bind. unfold AudioFix.finish_bar.
  destruct (negb gui && AudioFix.known duration); cbn [ret emit trace result];
    destruct (AudioFix.returncode w =? 0); reflexivity.
Qed.

(** X8: neither job retries. [run_audio_fix] launches the transcoder
    exactly once, whatever the probe says and however the run ends;
    [run_compression] launches it at most once. *)
Theorem one_launch_per_job
        (wc : Compression.world) (sub_option : string) (sub_file : option string)
        (max_size_gb : Q) (wa : AudioFix.world) (audio_channels sample_rate : Z)
        (audio_bitrate : string) (gui_progress : bool) :
  (length (launched (trace (Compression.run_compression
                              wc sub_option sub_file max_size_gb gui_progress)))
   <= 1)%nat
  /\ launched (trace (AudioFix.run_audio_fix wa audio_channels sample_rate
                                            audio_bitrate gui_progress))
     = [AudioFix.ffmpeg_cmd audio_channels sample_rate audio_bitrate].
Proof.
  split.
  - unfold Compression.run_compression.
    destruct (Compression.probe_duration (Compression.duration_str wc))
      as [duration|]; [|cbn; lia].
    destruct (probe_audio_bitrate_returns (Compression.audio_bitrate_str wc))
      as (b & warnings & -> & Hw).
    rewrite launched_bind. cbn [result trace]. rewrite Hw. cbn [app].
    rewrite !launched_bind. cbn [print emit result trace launched flat_map app].
    destruct duration as [d| |];
      cbn [Compression.bitrate_calculation ret raise result trace
           launched flat_map app length]; try lia.
    rewrite !launched_bind. cbn [print emit result trace launched flat_map app].
    destruct (Compression.ffmpeg_cmd sub_option sub_file _) as [cmd|];
      cbn [Compression.print_command raise result trace
           launched flat_map app length]; [|lia].
    cbn [bind print emit ret result trace app].
    change (Print Blank :: ?l) with ([Print Blank] ++ l). rewrite UpscaleFacts.launched_app.
    change (launched [Print Blank]) with (@nil (list arg)). cbn [app].
    destruct gui_progress;
      [rewrite compression_supervisor_launches_once
      |rewrite launched_in_thread, compression_thread_launches_once];
      destruct (String.eqb (Compression.video_dir wc) ""); cbn; lia.
  - unfold AudioFix.run_audio_fix. rewrite audio_fix_probe.
    rewrite launched_bind. cbn [result trace].
    assert (Hp : launched (match Compression.probe_duration (AudioFix.duration_str wa) with
                           | Some _ => []
                           | None => [Print (Duration_unknown (AudioFix.duration_str wa))]
                           end) = [])
      by (destruct (Compression.probe_duration _); reflexivity).
    rewrite Hp. cbn [app bind print emit result trace].
    set (duration := Compression.probe_duration (AudioFix.duration_str wa)).
    set (cmd := AudioFix.ffmpeg_cmd audio_channels sample_rate audio_bitrate).
    change (Print Running_audio_fix :: Print (Command cmd) :: ?l)
      with ([Print Running_audio_fix; Print (Command cmd)] ++ l).
    rewrite UpscaleFacts.launched_app.
    change (launched [Print Running_audio_fix; Print (Command cmd)])
      with (@nil (list arg)).
    cbn [app].
    destruct gui_progress; [|rewrite launched_in_thread];
      apply audio_supervisor_launches_once.
Qed.

(** X21: a video named without its directory is not compressed.
    [run_compression] runs the transcoder in the directory of the
    file path; when that is empty the launch raises and no process is
    started, in either mode. With a progress callback the [OSError]
    reaches the caller; without one it ends the thread of the
    supervisor and goes to the hook of the thread. *)
Theorem bare_file_name_is_not_launched
        (w : Compression.world) (sub_option : string) (sub_file : option string)
        (max_size_gb : Q) (gui_progress : bool) :
  Compression.video_dir w = "" ->
  launched (trace (Compression.run_compression
                     w sub_option sub_file max_size_gb gui_progress)) = []
  /\ forall (d : Q) (audio_bitrate : Z) (cmd : list arg),
       Compression.probe_duration (Compression.duration_str w) = Some (Finite d) ->
       result (Compression.probe_audio_bitrate (Compression.audio_bitrate_str w))
       = Returned audio_bitrate ->
       Compression.ffmpeg_cmd sub_option sub_file
         (Compression.video_bitrate_kbps max_size_gb audio_bitrate d) = Some cmd ->
       result (Compression.run_compression w sub_option sub_file max_size_gb true)
       = Raised OSError
       /\ In (Excepthook OSError)
             (trace (Compression.run_compression
                       w sub_option sub_file max_size_gb false)).
Proof.
  intro Hv. assert (Ev : String.eqb (Compression.video_dir w) "" = true)
    by (apply String.eqb_eq, Hv).
  split.
  - unfold Compression.run_compression.
    destruct (Compression.probe_duration (Compression.duration_str w))
      as [duration|]; [|reflexivity].
    destruct (probe_audio_bitrate_returns (Compression.audio_bitrate_str w))
      as (b & warnings & -> & Hw).
    rewrite launched_bind. cbn [result trace]. rewrite Hw. cbn [app].
    rewrite !launched_bind. cbn [print emit result trace launched flat_map app].
    destruct duration as [d| |];
      cbn [Compression.bitrate_calculation ret raise result trace
           launched flat_map app length]; try reflexivity.
    rewrite !launched_bind. cbn [print emit result trace launched flat_map app].
    destruct (Compression.ffmpeg_cmd sub_option sub_file _) as [cmd|];
      cbn [Compression.print_command raise result trace
           launched flat_map app length]; [|reflexivity].
    cbn [bind print emit ret result trace app].
    change (Print Blank :: ?l) with ([Print Blank] ++ l).
    rewrite UpscaleFacts.launched_app.
    destruct gui_progress;
      [rewrite compression_supervisor_launches_once
      |rewrite launched_in_thread, compression_thread_launches_once];
      rewrite Ev; reflexivity.
  - intros d audio_bitrate cmd Hd Hb Hcmd.
    unfold Compression.run_compression. rewrite Hd.
    destruct (Compression.probe_audio_bitrate (Compression.audio_bitrate_str w))
      as [tb rb].
    simpl in Hb. subst rb.
    unfold bind at 1. cbn [result trace].
    unfold bind at 3. cbn [result trace].
    unfold Compression.bitrate_calculation, print, emit, ret, bind.
    cbn [result trace].
    rewrite Hcmd. unfold Compression.print_command, print, emit, ret, bind.
    cbn [result trace].
    unfold Compression.run_ffmpeg_and_finalize.
    rewrite !(CompressionFacts.run_ffmpeg_nowhere _ _ _ _ Hv).
    unfold in_thread, bind, raise. cbn [result trace].
    split; [reflexivity|]. rewrite !in_app_iff. simpl. tauto.
Qed.

Lemma bare_file_name_is_not_launched_witness :
  launched (trace (Compression.run_compression
                     (Samples.bare_name_world "600" "128000" [] 0)
                     "none" None 1 true)) = [].
Proof.
  exact (proj1 (bare_file_name_is_not_launched
                  (Samples.bare_name_world "600" "128000" [] 0)
                  "none" None 1 true eq_refl)).
Defined.

(** *** How a job ends *)

(** X9: what the batch of the audio fix learns of a file. Unless the
    duration probe printed an infinite or undefined number, [worker]
    hands [on_file_done] a success exactly when the transcoder exits
    with code 0, and otherwise the [RuntimeError] that carries its exit
    code: the label of the file says "Done!" or "Error" by the exit
    code alone, whether or not the duration could be determined. *)
Theorem worker_reports_exit_code (w : AudioFix.world) :
  float_of_str (AudioFix.duration_str w) <> Some (Inf false) ->
  float_of_str (AudioFix.duration_str w) <> Some NaN ->
  AudioFixGui.worker w
  = if AudioFix.returncode w =? 0 then None
    else Some (RuntimeError (AudioFix.returncode w)).
Proof.
  intros Hinf Hnan. unfold AudioFixGui.worker, AudioFix.run_audio_fix.
  rewrite audio_fix_probe, result_bind. cbn [result].
  rewrite !result_bind. cbn [print emit result].
  rewrite (ExitFacts.run_ffmpeg_and_report_trace
             _ _ _ _ (probe_regular _ Hinf Hnan)).
  cbn [result]. destruct (AudioFix.returncode w =? 0); reflexivity.
Qed.

Lemma worker_reports_exit_code_witness :
  AudioFixGui.worker (Samples.audio_fix_world "N/A" ["time=00:00:01.00"] 1)
  = Some (RuntimeError 1).
Proof.
  assert (Hinf : float_of_str "N/A" <> Some (Inf false)) by discriminate.
  assert (Hnan : float_of_str "N/A" <> Some NaN) by discriminate.
  exact (worker_reports_exit_code
           (Samples.audio_fix_world "N/A" ["time=00:00:01.00"] 1) Hinf Hnan).
Defined.

(** X10: without a callback [run_audio_fix] never raises, whatever the
    probe says and whatever the exit code: the supervisor runs in a
    thread that is joined, so the [RuntimeError] of a failed run ends
    that thread, where it is the last thing reported, and the call
    returns as after a success. *)
Theorem audio_fix_without_callback_never_raises
        (w : AudioFix.world) (audio_channels sample_rate : Z)
        (audio_bitrate : string) :
  let r := AudioFix.run_audio_fix w audio_channels sample_rate audio_bitrate false in
  result r = Returned tt
  /\ (float_of_str (AudioFix.duration_str w) <> Some (Inf false) ->
      float_of_str (AudioFix.duration_str w) <> Some NaN ->
      AudioFix.returncode w <> 0 ->
      exists before,
        trace r = before ++ [Excepthook (RuntimeError (AudioFix.returncode w))]).
Proof.
  intro r. subst r. unfold AudioFix.run_audio_fix. rewrite audio_fix_probe. split.
  - rewrite result_bind. cbn [result]. rewrite !result_bind.
    cbn [print emit result]. apply result_in_thread.
  - intros Hinf Hnan Hrc. apply Z.eqb_neq in Hrc.
    rewrite trace_bind. cbn [result trace]. rewrite !trace_bind.
    cbn [print emit result trace].
    rewrite (ExitFacts.run_ffmpeg_and_report_trace
               _ _ _ _ (probe_regular _ Hinf Hnan)), Hrc.
    unfold in_thread. cbn [result trace].
    eexists. rewrite !app_assoc. reflexivity.
Qed.

Lemma audio_fix_without_callback_never_raises_witness :
  result (AudioFix.run_audio_fix (Samples.audio_fix_world "600" [] 1)
                                 2 48000 "160k" false)
  = Returned tt.
Proof.
  exact (proj1 (audio_fix_without_callback_never_raises
                  (Samples.audio_fix_world "600" [] 1) 2 48000 "160k")).
Defined.

Lemma infinite_duration_loop (gui : bool) (clock : nat -> Q) (reads : list string)
      (start_time : option Q) (tick : nat) :
  (exists t, In t (times reads) /\ (0 < t)%Q) ->
  result (AudioFix.read_loop (Some (Inf false)) gui clock reads start_time tick)
  = Raised ZeroDivisionError.
Proof.
  revert start_time tick.
  induction reads as [|line rest IH]; intros start_time tick (t & Hin & Ht).
  - destruct Hin.
  - cbn [AudioFix.read_loop]. cbn [times] in Hin.
    destruct (String.eqb line "") eqn:El.
    + apply String.eqb_eq in El. subst line. apply IH.
      exists t. split; [exact Hin | exact Ht].
    + destruct (search_time line) as [g|] eqn:Es.
      * rewrite (ProgressFacts.search_time_contains _ _ Es).
        cbn [AudioFix.usable]. rewrite result_bind.
        unfold AudioFix.on_sample.
        destruct (AudioFix.start_of clock start_time tick) as [start tick1].
        destruct (AudioFix.elapsed_of clock start tick1) as [elapsed tick2].
        change (AudioFix.current_time_of g) with (Compression.cur_time_of g).
        change (AudioFix.percent_of (Inf false) (Compression.cur_time_of g))
          with 0%Q.
        unfold AudioFix.eta.
        destruct (ltb 0 (Compression.cur_time_of g)) eqn:Ec.
        -- reflexivity.
        -- cbn [andb]. rewrite !result_bind. unfold AudioFix.report.
           destruct gui; cbn [swallow emit ret result fst snd]; apply IH;
             destruct Hin as [<- | Hin];
             try (apply ltb_lt in Ht; congruence);
             exists t; split; assumption.
      * destruct (if contains "time=" line then _ else _); apply IH;
          exists t; split; assumption.
Qed.

(** X11: when the duration probe prints an infinite duration,
    [run_audio_fix] accepts it, launches the transcoder, and its
    supervisor raises [ZeroDivisionError] at the first line of progress
    whose time stamp is above zero: with a callback the call raises it,
    without one it ends the thread of the supervisor. *)
Theorem infinite_duration_divides_by_zero
        (w : AudioFix.world) (audio_channels sample_rate : Z)
        (audio_bitrate : string) :
  float_of_str (AudioFix.duration_str w) = Some (Inf false) ->
  (exists t, In t (times (AudioFix.stderr_reads w)) /\ (0 < t)%Q) ->
  result (AudioFix.run_audio_fix w audio_channels sample_rate audio_bitrate true)
  = Raised ZeroDivisionError
  /\ In (Excepthook ZeroDivisionError)
        (trace (AudioFix.run_audio_fix w audio_channels sample_rate
                                       audio_bitrate false)).
Proof.
  intros Hinf Hpos.
  assert (Hp : Compression.probe_duration (AudioFix.duration_str w)
               = Some (Inf false))
    by (unfold Compression.probe_duration; now rewrite Hinf).
  assert (Hr : forall gui cmd,
             result (AudioFix.run_ffmpeg_and_report w (Some (Inf false)) gui cmd)
             = Raised ZeroDivisionError).
  { intros gui cmd. unfold AudioFix.run_ffmpeg_and_report.
    rewrite result_bind. cbn [emit result]. rewrite result_bind.
    now rewrite (infinite_duration_loop gui _ _ None 0%nat Hpos). }
  unfold AudioFix.run_audio_fix. rewrite audio_fix_probe, Hp. split.
  - rewrite result_bind. cbn [result]. rewrite !result_bind.
    cbn [print emit result]. apply Hr.
  - rewrite trace_bind. cbn [result trace]. rewrite !trace_bind.
    cbn [print emit result trace app]. unfold in_thread. rewrite Hr.
    cbn [trace]. right. right. apply in_or_app. right. left. reflexivity.
Qed.

Lemma infinite_duration_divides_by_zero_witness :
  result (AudioFix.run_audio_fix
            (Samples.audio_fix_world "inf" ["time=00:00:01.00"] 0)
            2 48000 "160k" true)
  = Raised ZeroDivisionError.
Proof.
  assert (Hinf : float_of_str "inf" = Some (Inf false)) by reflexivity.
  assert (Hpos : exists t, In t (times ["time=00:00:01.00"]) /\ (0 < t)%Q).
  { exists (Compression.cur_time_of ("00", "00", ("01", "00"))).
    split; [left; reflexivity | reflexivity]. }
  exact (proj1 (infinite_duration_divides_by_zero
                  (Samples.audio_fix_world "inf" ["time=00:00:01.00"] 0)
                  2 48000 "160k" Hinf Hpos)).
Defined.

(** X12: soft subtitles without a subtitle file. When the duration is
    known, [run_compression] called with [sub_option = "soft"] and no
    subtitle file raises [TypeError] when it prints the command line,
    and the transcoder is not launched. *)
Theorem soft_subtitles_need_a_file
        (w : Compression.world) (sub_file : option string) (max_size_gb : Q)
        (gui_progress : bool) (d : Q) :
  Compression.probe_duration (Compression.duration_str w) = Some (Finite d) ->
  Compression.truthy sub_file = false ->
  let r := Compression.run_compression w "soft" sub_file max_size_gb gui_progress in
  result r = Raised TypeError /\ launched (trace r) = [].
Proof.
  intros Hd Hs r. subst r. unfold Compression.run_compression. rewrite Hd.
  destruct (probe_audio_bitrate_returns (Compression.audio_bitrate_str w))
    as (b & warnings & -> & Hw).
  unfold Compression.ffmpeg_cmd. rewrite Hs. split.
  - rewrite result_bind. cbn [result]. reflexivity.
  - rewrite launched_bind. cbn [result trace]. rewrite Hw. reflexivity.
Qed.

Lemma soft_subtitles_need_a_file_witness :
  result (Compression.run_compression
            (Samples.compression_world "600" "128000" [] 0) "soft" None 1 true)
  = Raised TypeError.
Proof.
  assert (Hd : Compression.probe_duration "600" = Some (Finite 600)) by reflexivity.
  assert (Hs : Compression.truthy None = false) by reflexivity.
  exact (proj1 (soft_subtitles_need_a_file
                  (Samples.compression_world "600" "128000" [] 0) None 1 true
                  600 Hd Hs)).
Defined.

(** X13: when the duration probe prints an infinite or undefined
    number, [run_compression] does not take the probe as failed: it
    prints the duration and the audio bit rate, and raises
    [ValueError] at the bitrate calculation; the transcoder is not
    launched. *)
Theorem non_finite_duration_raises
        (w : Compression.world) (sub_option : string) (sub_file : option string)
        (max_size_gb : Q) (gui_progress : bool) (x : pyfloat) :
  float_of_str (Compression.duration_str w) = Some x ->
  x = Inf false \/ x = NaN ->
  let r := Compression.run_compression w sub_option sub_file max_size_gb
                                       gui_progress in
  result r = Raised ValueError
  /\ launched (trace r) = []
  /\ exists b warnings,
       Compression.probe_audio_bitrate (Compression.audio_bitrate_str w)
       = Build_run warnings (Returned b)
       /\ trace r = warnings ++ [Print (Duration_is x); Print (Audio_bitrate_is b)].
Proof.
  intros Hx Hnf r. subst r.
  assert (Hp : Compression.probe_duration (Compression.duration_str w) = Some x)
    by (unfold Compression.probe_duration; rewrite Hx;
        destruct Hnf as [-> | ->]; reflexivity).
  unfold Compression.run_compression. rewrite Hp.
  destruct (probe_audio_bitrate_returns (Compression.audio_bitrate_str w))
    as (b & warnings & -> & Hw).
  assert (Hb : Compression.bitrate_calculation max_size_gb b x = raise ValueError)
    by (destruct Hnf as [-> | ->]; reflexivity).
  split; [|split].
  - rewrite result_bind. cbn [result]. rewrite !result_bind.
    cbn [print emit result]. now rewrite Hb.
  - rewrite launched_bind. cbn [result trace]. rewrite Hw.
    rewrite !launched_bind. cbn [print emit result trace]. now rewrite Hb.
  - exists b, warnings. split; [reflexivity|].
    rewrite trace_bind. cbn [result trace]. rewrite !trace_bind.
    cbn [print emit result trace]. now rewrite Hb.
Qed.

Lemma non_finite_duration_raises_witness :
  result (Compression.run_compression
            (Samples.compression_world "nan" "128000" [] 0) "none" None 1 true)
  = Raised ValueError.
Proof.
  assert (Hx : float_of_str "nan" = Some NaN) by reflexivity.
  assert (Hnf : NaN = Inf false \/ NaN = NaN) by (right; reflexivity).
  exact (proj1 (non_finite_duration_raises
                  (Samples.compression_world "nan" "128000" [] 0) "none" None 1
                  true NaN Hx Hnf)).
Defined.

End JobFacts.

(** ** More on percentages and remaining time *)

Module ProgressMoreFacts.
Import Py Run PyFacts FloatFacts Stated ProgressFacts.

(** The largest float below one, taken a hundred times, is rounded
    below 100. *)
Lemma hundred_times_below_one : (mul (1 - pow2 (-53)) 100 < 100)%Q.
Proof. vm_compute. reflexivity. Qed.

(** For floats the rounded percentage reaches 100 exactly when the
    time stamp reaches the duration. *)
Lemma ratio_reaches_100 (d t : Q) :
  is_float d -> is_float t -> (0 < d)%Q -> (0 <= t)%Q ->
  ((100 <= mul (truediv t d) 100)%Q <-> (d <= t)%Q).
Proof.
  intros Fd Ft Hd Ht. split; intro H.
  - apply Qnot_lt_le. intro Hlt.
    pose proof (float_gap t d Ft Fd Ht Hlt) as Hg.
    assert (Hq : (t / d <= 1 - pow2 (-53))%Q).
    { apply Qle_shift_div_r; [exact Hd|]. lra. }
    pose proof (nearest_le_float _ _ is_float_below_one Hq) as Hr.
    assert (Hm : (mul (truediv t d) 100 <= mul (1 - pow2 (-53)) 100)%Q).
    { apply nearest_mono. apply Qmult_le_compat_r; [exact Hr | discriminate]. }
    pose proof hundred_times_below_one. lra.
  - assert (H1 : (1 <= t / d)%Q).
    { apply Qle_shift_div_l; [exact Hd | lra]. }
    assert (F1 : is_float 1) by (apply (is_float_Z 1); vm_compute; discriminate).
    pose proof (float_le_nearest 1 _ F1 H1) as Hr.
    apply float_le_nearest; [apply (is_float_Z 100); vm_compute; discriminate|].
    unfold truediv. lra.
Qed.

Lemma floor_reaches (x : Q) (n : Z) : (inject_Z n <= x)%Q <-> n <= Qfloor x.
Proof.
  split; intro H.
  - rewrite <- (Qfloor_Z n). apply Qfloor_resp_le, H.
  - apply Qle_trans with (inject_Z (Qfloor x)); [|apply Qfloor_le].
    rewrite <- Zle_Qle. exact H.
Qed.

(** X14: with a duration > 0 and a time stamp >= 0, both floats, the
    percentage is 100 exactly when the time stamp has reached the
    duration, in [run_compression] and in [run_audio_fix] alike;
    before that it is below 100: no rounding of the quotient or of the
    product brings a time stamp short of the duration to 100%. *)
Theorem percent_is_100_from_the_duration_on (duration t : Q) :
  is_float duration -> is_float t ->
  (0 < duration)%Q -> (0 <= t)%Q ->
  (Compression.percent_of duration t = 100 <-> (duration <= t)%Q)
  /\ (AudioFix.percent_of (Finite duration) t == 100 <-> (duration <= t))%Q
  /\ (Compression.percent_of duration t < 100 <-> (t < duration)%Q).
Proof.
  intros Fd Ft Hd Ht.
  pose proof (ratio_reaches_100 duration t Fd Ft Hd Ht) as Hr.
  set (p := mul (truediv t duration) 100) in *.
  assert (Hc : Compression.percent_of duration t = 100 <-> (duration <= t)%Q).
  { unfold Compression.percent_of. fold p.
    rewrite (int_of_float_nonneg p (ratio_nonneg t duration Ht Hd)).
    rewrite <- Hr. change 100%Q with (inject_Z 100). rewrite floor_reaches. lia. }
  split; [exact Hc|]. split.
  - rewrite <- Hr. unfold AudioFix.percent_of, min. fold p.
    destruct (ltb p 100) eqn:E.
    + apply ltb_lt in E. split; intro H.
      * rewrite H in E. discriminate.
      * exfalso. exact (Qlt_not_le _ _ E H).
    + apply ltb_ge in E. split; intro H; [exact E | reflexivity].
  - pose proof (percent_of_bounds duration t Hd Ht) as Hb. split; intro H.
    + apply Qnot_le_lt. intro Hle. apply Hc in Hle. lia.
    + assert (Hn : Compression.percent_of duration t <> 100).
      { intro E. apply Hc in E. exact (Qlt_not_le _ _ H E). }
      lia.
Qed.

Lemma percent_is_100_from_the_duration_on_witness :
  Compression.percent_of 600 599 < 100 <-> (599 < 600)%Q.
Proof.
  assert (Fd : is_float 600) by reflexivity.
  assert (Ft : is_float 599) by reflexivity.
  assert (Hd : (0 < 600)%Q) by reflexivity.
  assert (Ht : (0 <= 599)%Q) by discriminate.
  exact (proj2 (proj2 (percent_is_100_from_the_duration_on 600 599 Fd Ft Hd Ht))).
Defined.

(** The time stamp and the duration have to be floats: a rational
    short of 1 by [2^-60], which no float is, would be rounded to 1 by
    the quotient. *)
Lemma percent_of_a_number_that_is_no_float :
  let t := (1152921504606846975 # 1152921504606846976)%Q in
  (t < 1)%Q /\ ~ is_float t /\ Compression.percent_of 1 t = 100.
Proof.
  split; [reflexivity|].
  split; [intro H; vm_compute in H; discriminate | vm_compute; reflexivity].
Qed.

(** X15: the integer percentage of [run_compression] is the floor of
    the percentage [run_audio_fix] reports for the same time stamp. *)
Theorem compression_percent_is_floor_of_audio_fix_percent (duration t : Q) :
  (0 < duration)%Q -> (0 <= t)%Q ->
  Compression.percent_of duration t
  = Qfloor (AudioFix.percent_of (Finite duration) t).
Proof.
  intros Hd Ht. unfold Compression.percent_of, AudioFix.percent_of, min.
  rewrite (int_of_float_nonneg _ (ratio_nonneg t duration Ht Hd)).
  set (p := mul (truediv t duration) 100).
  destruct (ltb p 100) eqn:E.
  - apply ltb_lt in E.
    assert (Qfloor p < 100).
    { rewrite Zlt_Qlt. apply Qle_lt_trans with p; [apply Qfloor_le | exact E]. }
    lia.
  - apply ltb_ge in E.
    pose proof (proj1 (floor_reaches p 100) E) as E'.
    replace (Qfloor 100%Q) with 100 by reflexivity. lia.
Qed.

Lemma compression_percent_is_floor_of_audio_fix_percent_witness :
  Compression.percent_of 600 200 = Qfloor (AudioFix.percent_of (Finite 600) 200).
Proof.
  assert (Hd : (0 < 600)%Q) by reflexivity.
  assert (Ht : (0 <= 200)%Q) by discriminate.
  exact (compression_percent_is_floor_of_audio_fix_percent 600 200 Hd Ht).
Defined.

(** *** The estimate against the linear extrapolation *)

(** A quotient by a denominator known to within a relative [2^-51]. *)
Lemma div_near (e rho r : Q) :
  (0 <= e)%Q -> (0 < rho)%Q ->
  (rho * (1 - 4 * pow2 (-53)) <= r)%Q -> (r <= rho * (1 + 4 * pow2 (-53)))%Q ->
  (Qabs (e / r - e / rho) <= 8 * pow2 (-53) * (e / rho))%Q.
Proof.
  intros He Hrho Hlo Hhi. rewrite pow2_53 in *.
  assert (Hr : (0 < r)%Q) by lra.
  set (X := (e / rho)%Q). set (Y := (e / r)%Q).
  assert (HX : (0 <= X)%Q).
  { unfold X, Qdiv. apply Qmult_le_0_compat; [exact He|].
    apply Qlt_le_weak, Qinv_lt_0_compat, Hrho. }
  assert (EX : (X * rho == e)%Q) by (unfold X; field; lra).
  assert (EY : (Y * r == e)%Q) by (unfold Y; field; lra).
  set (c := (8 # 9007199254740992)%Q).
  assert (Hup : (0 <= (X * (1 + c) - Y) * r)%Q).
  { assert (E : ((X * (1 + c) - Y) * r == X * ((1 + c) * r - rho))%Q).
    { assert (E0 : ((X * (1 + c) - Y) * r == X * (1 + c) * r - Y * r)%Q) by ring.
      rewrite E0, EY, <- EX. ring. }
    rewrite E. apply Qmult_le_0_compat; [exact HX|]. unfold c. lra. }
  assert (Hdn : (0 <= (Y - X * (1 - c)) * r)%Q).
  { assert (E : ((Y - X * (1 - c)) * r == X * (rho - (1 - c) * r))%Q).
    { assert (E0 : ((Y - X * (1 - c)) * r == Y * r - X * (1 - c) * r)%Q) by ring.
      rewrite E0, EY, <- EX. ring. }
    rewrite E. apply Qmult_le_0_compat; [exact HX|]. unfold c. lra. }
  assert (H1 : (0 <= X * (1 + c) - Y)%Q).
  { apply (Qmult_lt_0_le_reg_r _ _ r Hr). rewrite Qmult_0_l. exact Hup. }
  assert (H2 : (0 <= Y - X * (1 - c))%Q).
  { apply (Qmult_lt_0_le_reg_r _ _ r Hr). rewrite Qmult_0_l. exact Hdn. }
  apply Qabs_Qle_condition.
  assert (E8 : (8 * (1 # 9007199254740992) == c)%Q) by reflexivity.
  rewrite E8. lra.
Qed.

(** What is left, computed from a rounded fraction [r] of the run. *)
Lemma remaining_near (elapsed rho r : Q) :
  (0 <= elapsed)%Q -> (0 < rho)%Q -> (rho <= 1)%Q ->
  (rho * (1 - 4 * pow2 (-53)) <= r)%Q -> (r <= rho * (1 + 4 * pow2 (-53)))%Q ->
  (Qabs (sub (truediv elapsed r) elapsed - (elapsed / rho - elapsed))
   <= pow2 (-49) * (elapsed / rho))%Q.
Proof.
  intros He Hrho Hrho1 Hlo Hhi.
  pose proof (div_near elapsed rho r He Hrho Hlo Hhi) as Hd.
  set (X := (elapsed / rho)%Q) in *.
  assert (EX : (X * rho == elapsed)%Q) by (unfold X; field; lra).
  assert (HX : (0 <= X)%Q).
  { unfold X, Qdiv. apply Qmult_le_0_compat; [exact He|].
    apply Qlt_le_weak, Qinv_lt_0_compat, Hrho. }
  assert (HXe : (elapsed <= X)%Q).
  { assert (H0 : (0 <= X * (1 - rho))%Q) by (apply Qmult_le_0_compat; lra).
    assert (E : (X * (1 - rho) == X - X * rho)%Q) by ring. lra. }
  assert (BX : (Qabs X <= X)%Q) by (rewrite (Qabs_pos X HX); apply Qle_refl).
  pose proof (nearest_step _ _ _ _ Hd BX) as Hest. fold (truediv elapsed r) in Hest.
  assert (Hy : (Qabs (truediv elapsed r - elapsed - (X - elapsed))
                <= 8 * pow2 (-53) * X
                   + pow2 (-53) * (X + 8 * pow2 (-53) * X))%Q).
  { assert (E : (truediv elapsed r - elapsed - (X - elapsed)
                 == truediv elapsed r - X)%Q) by ring.
    rewrite E. exact Hest. }
  assert (BR : (Qabs (X - elapsed) <= X)%Q).
  { rewrite Qabs_pos by lra. lra. }
  pose proof (nearest_step _ _ _ _ Hy BR) as Hrem.
  fold (sub (truediv elapsed r) elapsed) in Hrem.
  eapply Qle_trans; [exact Hrem|].
  assert (E49 : pow2 (-49) = 1 # 562949953421312) by reflexivity.
  rewrite E49, pow2_53. lra.
Qed.

(** X16: between the start and the end of the duration the two jobs
    estimate alike, up to the rounding of their operations. For floats
    0 < t < duration and any elapsed time >= 0, each job delivers the
    minutes and seconds of a number of seconds, truncated, that is
    within [2^-49] of [elapsed * duration / t] from the linear
    extrapolation [elapsed * (duration - t) / t]. The two numbers need
    not be the same: [run_audio_fix] divides by the percentage over
    100, rounded two more times. *)
Theorem eta_is_near_the_linear_extrapolation (duration t elapsed : Q) :
  is_float duration -> is_float t ->
  (0 < t)%Q -> (t < duration)%Q -> (0 <= elapsed)%Q ->
  let extrapolation := (elapsed * (duration - t) / t)%Q in
  let bound := (pow2 (-49) * (elapsed * duration / t))%Q in
  exists rc ra : Q,
    Compression.eta duration t (Compression.percent_of duration t) elapsed
    = (Some (int_of_float rc / 60), Some (int_of_float rc mod 60))
    /\ AudioFix.eta t (AudioFix.percent_of (Finite duration) t) elapsed
       = ret (int_of_float ra / 60, int_of_float ra mod 60)
    /\ (Qabs (rc - extrapolation) <= bound)%Q
    /\ (Qabs (ra - extrapolation) <= bound)%Q.
Proof.
  intros Fd Ft Ht Htd He extrapolation bound.
  assert (Hd : (0 < duration)%Q) by lra.
  assert (Ht0 : (0 <= t)%Q) by lra.
  set (rho := (t / duration)%Q).
  assert (Hrho : (0 < rho)%Q) by (apply quotient_pos; assumption).
  assert (Hrho1 : (rho <= 1)%Q).
  { apply Qle_shift_div_r; [exact Hd | lra]. }
  assert (EX : (elapsed / rho == elapsed * duration / t)%Q)
    by (unfold rho; field; split; lra).
  assert (EE : (elapsed / rho - elapsed == extrapolation)%Q)
    by (unfold rho, extrapolation; field; split; lra).
  set (r := truediv t duration).
  destruct (nearest_error_pos rho (Qlt_le_weak _ _ Hrho)) as [R1 R2].
  change (nearest rho) with r in R1, R2.
  set (p := mul r 100).
  assert (Hr : (0 < r)%Q) by (apply ratio_pos; assumption).
  assert (Hp100 : (p < 100)%Q).
  { apply Qnot_le_lt. intro H.
    apply (proj1 (ratio_reaches_100 duration t Fd Ft Hd Ht0)) in H. lra. }
  assert (Hp0 : (0 < p)%Q) by (apply ratio_percent_pos; assumption).
  destruct (nearest_error_pos (r * 100)) as [P1 P2]; [lra|].
  change (nearest (r * 100)) with p in P1, P2.
  set (q := truediv p 100).
  destruct (nearest_error_pos (p / 100)) as [Q1 Q2].
  { apply Qle_shift_div_l; [reflexivity | lra]. }
  change (nearest (p / 100)) with q in Q1, Q2.
  assert (Hq0 : (0 < q)%Q).
  { apply nearest_pos_lt. apply Qlt_shift_div_l; [reflexivity | lra]. }
  assert (EP : (p / 100 * 100 == p)%Q) by (field; discriminate).
  set (P := (p / 100)%Q) in *.
  exists (sub (truediv elapsed r) elapsed), (sub (truediv elapsed q) elapsed).
  split; [|split; [|split]].
  - unfold Compression.eta. rewrite (proj2 (ltb_lt 0 t) Ht).
    assert (Hpc : Compression.percent_of duration t < 100).
    { unfold Compression.percent_of. fold r. fold p.
      rewrite (int_of_float_nonneg p (Qlt_le_weak _ _ Hp0)).
      assert (Qfloor p < 100); [|lia].
      rewrite Zlt_Qlt. apply Qle_lt_trans with p; [apply Qfloor_le | exact Hp100]. }
    rewrite (proj2 (Z.ltb_lt _ _) Hpc). reflexivity.
  - unfold AudioFix.eta, AudioFix.percent_of, min. fold r. fold p.
    rewrite (proj2 (ltb_lt _ _) Hp100), (proj2 (ltb_lt 0 t) Ht),
      (proj2 (ltb_lt _ _) Hp100). cbn [andb]. fold q.
    assert (Hz : Qeq_bool q 0 = false).
    { destruct (Qeq_bool q 0) eqn:E; [|reflexivity].
      apply Qeq_bool_iff in E. lra. }
    rewrite Hz. reflexivity.
  - unfold bound. rewrite <- EX, <- EE.
    apply remaining_near; try assumption; rewrite pow2_53 in *; lra.
  - unfold bound. rewrite <- EX, <- EE.
    apply remaining_near; try assumption; rewrite pow2_53 in *; lra.
Qed.

Lemma eta_is_near_the_linear_extrapolation_witness :
  exists rc ra : Q,
    Compression.eta 600 125 (Compression.percent_of 600 125) 10
    = (Some (int_of_float rc / 60), Some (int_of_float rc mod 60))
    /\ AudioFix.eta 125 (AudioFix.percent_of (Finite 600) 125) 10
       = ret (int_of_float ra / 60, int_of_float ra mod 60)
    /\ (Qabs (rc - 10 * (600 - 125) / 125) <= pow2 (-49) * (10 * 600 / 125))%Q
    /\ (Qabs (ra - 10 * (600 - 125) / 125) <= pow2 (-49) * (10 * 600 / 125))%Q.
Proof.
  assert (Fd : is_float 600) by reflexivity.
  assert (Ft : is_float 125) by reflexivity.
  assert (Ht : (0 < 125)%Q) by reflexivity.
  assert (Htd : (125 < 600)%Q) by reflexivity.
  assert (He : (0 <= 10)%Q) by discriminate.
  exact (eta_is_near_the_linear_extrapolation 600 125 10 Fd Ft Ht Htd He).
Defined.

(** The two estimates do differ: 125 s into 600 s after 10 s, the
    compression says 0:38 and the audio fix 0:37. *)
Lemma estimates_differ :
  Compression.eta 600 125 (Compression.percent_of 600 125) 10 = (Some 0, Some 38)
  /\ AudioFix.eta 125 (AudioFix.percent_of (Finite 600) 125) 10 = ret (0, 37).
Proof. split; vm_compute; reflexivity. Qed.

(** X17: the progress loop of the compression goes through the lines
    one after the other: the events of two batches of lines read in a
    row are those of the first batch followed by those of the second,
    the second being read with the clock advanced by one reading per
    time stamp of the first; lines without a time stamp, and empty
    reads, change nothing. *)
Theorem compression_loop_composes
        (duration : Q) (gui_progress : bool) (clock : nat -> Q) (start : Q)
        (first second : list string) (tick : nat) :
  Compression.read_loop duration gui_progress clock start (first ++ second) tick
  = Compression.read_loop duration gui_progress clock start first tick
    ++ Compression.read_loop duration gui_progress clock start second
         (tick + length (times first)).
Proof.
  revert tick. induction first as [|line rest IH]; intro tick.
  - cbn [app times length Compression.read_loop]. now rewrite Nat.add_0_r.
  - cbn [app times Compression.read_loop].
    destruct (String.eqb line "") eqn:El.
    + apply String.eqb_eq in El. subst line. cbn. apply IH.
    + unfold Compression.on_line.
      destruct (search_time line) as [g|] eqn:Es.
      * rewrite (search_time_contains _ _ Es).
        destruct (Compression.eta _ _ _ _) as [mins secs].
        rewrite IH, <- app_assoc. cbn [length].
        now rewrite Nat.add_succ_r.
      * destruct (contains "time=" line); apply IH.
Qed.

End ProgressMoreFacts.

(** ** The names of the output files *)

Module PathsFacts.
Import Py Paths.

Section Splitext.
Variable is_sep : ascii -> bool.

Lemma rfind_none (f : ascii -> bool) (p : list ascii) :
  Forall (fun c => f c = false) p -> rfind f p = -1.
Proof.
  induction 1 as [|c r Hc _ IH]; cbn [rfind]; [reflexivity|].
  rewrite IH, Hc. reflexivity.
Qed.

(** The last character that satisfies [f], with what precedes and what
    follows it. *)
Lemma rfind_last (f : ascii -> bool) (a b : list ascii) (c : ascii) :
  f c = true -> Forall (fun c => f c = false) b ->
  rfind f (a ++ c :: b) = Z.of_nat (length a).
Proof.
  intros Hc Hb. induction a as [|x a IH].
  - cbn [app rfind length]. rewrite (rfind_none f b Hb), Hc. reflexivity.
  - cbn [app rfind length]. rewrite IH.
    assert ((0 <=? Z.of_nat (length a)) = true) as -> by (apply Z.leb_le; lia).
    lia.
Qed.

Lemma rfind_split (f : ascii -> bool) (p : list ascii) :
  (rfind f p = -1 /\ Forall (fun c => f c = false) p)
  \/ (exists a c b,
        p = a ++ c :: b /\ f c = true /\ Forall (fun c => f c = false) b
        /\ rfind f p = Z.of_nat (length a)).
Proof.
  induction p as [|x r IH].
  - left. split; [reflexivity | constructor].
  - destruct IH as [[Hr Hall] | (a & c & b & -> & Hc & Hb & Hr)].
    + destruct (f x) eqn:Hx.
      * right. exists [], x, r. repeat split; try assumption.
        apply (rfind_last f [] r x Hx Hall).
      * left. split; [|constructor; assumption].
        cbn [rfind]. rewrite Hr, Hx. reflexivity.
    + right. exists (x :: a), c, b. repeat split; try assumption.
      apply (rfind_last f (x :: a) b c Hc Hb).
Qed.

Lemma firstn_skipn_at (a b : list ascii) :
  firstn (Z.to_nat (Z.of_nat (length a))) (a ++ b) = a
  /\ skipn (Z.to_nat (Z.of_nat (length a))) (a ++ b) = b.
Proof.
  rewrite Nat2Z.id. split.
  - rewrite <- (Nat.add_0_r (length a)), firstn_app_2. cbn. apply app_nil_r.
  - rewrite skipn_app, skipn_all, Nat.sub_diag. reflexivity.
Qed.

(** What [splitext] returns: the path cut in two, the second part
    empty or made of a dot and of characters that are neither dots nor
    separators. *)
Lemma splitext_parts (p : list ascii) :
  let (root, ext) := splitext is_sep p in
  root ++ ext = p
  /\ (ext = []
      \/ exists e, ext = "."%char :: e
                   /\ Forall (fun c => is_dot c = false) e
                   /\ Forall (fun c => is_sep c = false) e).
Proof.
  unfold splitext.
  destruct ((rfind is_sep p <? rfind is_dot p)
            && has_name p (rfind is_sep p + 1) (rfind is_dot p)) eqn:E;
    [|split; [apply app_nil_r | left; reflexivity]].
  apply andb_true_iff in E. destruct E as [Hlt _]. apply Z.ltb_lt in Hlt.
  destruct (rfind_split is_dot p) as [[Hd _] | (a & c & e & Hp & Hc & He & Hd)].
  { destruct (rfind_split is_sep p) as [[Hs _] | (a' & c' & b' & _ & _ & _ & Hs)];
      lia. }
  unfold is_dot in Hc. apply Ascii.eqb_eq in Hc. subst c.
  rewrite Hd. subst p.
  destruct (firstn_skipn_at a ("."%char :: e)) as [-> ->].
  split; [reflexivity|]. right. exists e. split; [reflexivity|].
  split; [exact He|].
  destruct (rfind_split is_sep (a ++ "."%char :: e))
    as [[_ Hall] | (a' & c' & b' & Hp & Hc' & Hb' & Hs)].
  - apply Forall_app in Hall. destruct Hall as [_ Hall].
    inversion Hall; assumption.
  - rewrite Hs, Hd in Hlt.
    apply app_eq_app in Hp. destruct Hp as (l & [[Ha Hb] | [Ha Hb]]).
    + destruct l as [|x l].
      * rewrite app_nil_r in Ha. subst a'. lia.
      * cbn [app] in Hb. inversion Hb; subst.
        apply Forall_app in Hb'. destruct Hb' as [_ Hb'].
        inversion Hb'; assumption.
    + subst a'. rewrite length_app in Hlt. lia.
Qed.

Lemma Forall_skipn (P : ascii -> Prop) (n : nat) (l : list ascii) :
  Forall P l -> Forall P (skipn n l).
Proof.
  revert l. induction n as [|n IH]; intros l H; [exact H|].
  destruct H; cbn [skipn]; [constructor | apply IH; assumption].
Qed.

Lemma skipn_past (a b : list ascii) (c : ascii) (k : nat) :
  skipn (length a + 1 + k) (a ++ c :: b) = skipn k b.
Proof.
  rewrite skipn_app, skipn_all2 by lia.
  replace (length a + 1 + k - length a)%nat with (S k) by lia. reflexivity.
Qed.

(** The extension [splitext] returns holds no separator. *)
Lemma splitext_ext_no_sep (p : list ascii) :
  Forall (fun c => is_sep c = false) (snd (splitext is_sep p)).
Proof.
  unfold splitext.
  destruct ((rfind is_sep p <? rfind is_dot p)
            && has_name p (rfind is_sep p + 1) (rfind is_dot p)) eqn:E;
    [|constructor].
  apply andb_true_iff in E. destruct E as [Hlt _]. apply Z.ltb_lt in Hlt.
  cbn [snd].
  destruct (rfind_split is_sep p) as [[_ Hall] | (a & c & b & Hp & _ & Hb & Hs)].
  - apply Forall_skipn, Hall.
  - rewrite Hs in Hlt.
    replace (Z.to_nat (rfind is_dot p))
      with (length a + 1 + (Z.to_nat (rfind is_dot p) - length a - 1))%nat by lia.
    rewrite Hp, skipn_past. apply Forall_skipn, Hb.
Qed.

(** The base name of a path that is continued without a separator. *)
Lemma basename_app (a b : list ascii) :
  Forall (fun c => is_sep c = false) b ->
  basename is_sep (a ++ b) = basename is_sep a ++ b.
Proof.
  intro Hb. unfold basename.
  destruct (rfind_split is_sep a) as [[Hr Hall] | (a1 & c & b1 & -> & Hc & Hb1 & Hr)].
  - rewrite Hr, (rfind_none is_sep (a ++ b)); [reflexivity|].
    apply Forall_app. split; assumption.
  - rewrite Hr, <- app_assoc. cbn [app].
    rewrite (rfind_last is_sep a1 (b1 ++ b) c Hc)
      by (apply Forall_app; split; assumption).
    replace (Z.to_nat (Z.of_nat (length a1) + 1)) with (length a1 + 1 + 0)%nat by lia.
    rewrite !skipn_past. reflexivity.
Qed.

(** X18: the names of the outputs against those of the inputs, as
    strings. The path [run_audio_fix] gives ffmpeg for its output is the
    absolute path of the input with ["_fixed"] inserted before the
    extension, or with ["_fixed.mp4"] appended when there is none: it
    is 6 or 10 characters longer than the path of the input, hence
    another string. The path [run_compression] computes for its output
    is not the path of its input, whatever the extension asked for.
    ffmpeg however is given the base names of the two, to be read in
    the directory of the video: these differ when neither
    ["_compressed."] nor the extension asked for holds a separator. *)
Theorem outputs_differ_from_inputs (p ext : list ascii) :
  audio_fix_output is_sep p <> p
  /\ (length (audio_fix_output is_sep p)
      = length p + match snd (splitext is_sep p) with
                   | [] => 10
                   | _ :: _ => 6
                   end)%nat
  /\ compression_output is_sep p ext <> p
  /\ (Forall (fun c => is_sep c = false)
             (list_ascii_of_string "_compressed." ++ ext) ->
      output_name is_sep p ext <> video_name is_sep p).
Proof.
  pose proof (splitext_parts p) as H.
  pose proof (splitext_ext_no_sep p) as Hsep.
  unfold output_name, video_name, audio_fix_output, compression_output.
  destruct (splitext is_sep p) as [root e]. cbn [fst snd] in *.
  destruct H as [Hp He].
  assert (Hlen : (length (root ++ list_ascii_of_string "_fixed"
                          ++ match e with
                             | [] => list_ascii_of_string ".mp4"
                             | _ :: _ => e
                             end)
                  = length p + match e with [] => 10 | _ :: _ => 6 end)%nat).
  { rewrite <- Hp, !length_app. destruct e; cbn [length list_ascii_of_string]; lia. }
  split; [|split; [exact Hlen|split]].
  - intro E. rewrite E in Hlen. destruct e; lia.
  - intro E. rewrite <- Hp in E. apply app_inv_head in E.
    destruct He as [-> | (e' & -> & _)]; discriminate.
  - intros Hext E. rewrite <- Hp in E.
    rewrite (basename_app root _ Hext), (basename_app root e Hsep) in E.
    apply app_inv_head in E.
    destruct He as [-> | (e' & -> & _)]; discriminate.
Qed.

Lemma in_slice (x y : list ascii) (c : ascii) (lo hi : Z) :
  lo <= Z.of_nat (length x) < hi -> 0 <= lo ->
  In c (firstn (Z.to_nat (hi - lo)) (skipn (Z.to_nat lo) (x ++ c :: y))).
Proof.
  intros Hb Hlo.
  apply (nth_error_In _ (length x - Z.to_nat lo)).
  rewrite nth_error_firstn.
  assert ((length x - Z.to_nat lo <? Z.to_nat (hi - lo))%nat = true) as ->
    by (apply Nat.ltb_lt; lia).
  rewrite nth_error_skipn.
  replace (Z.to_nat lo + (length x - Z.to_nat lo))%nat with (length x) by lia.
  rewrite nth_error_app2 by lia. now rewrite Nat.sub_diag.
Qed.

Lemma rfind_bound (f : ascii -> bool) (p : list ascii) :
  -1 <= rfind f p < Z.of_nat (length p).
Proof.
  destruct (rfind_split f p) as [[-> _] | (a & c & b & -> & _ & _ & ->)].
  - lia.
  - rewrite length_app. cbn [length]. lia.
Qed.

(** The extension of a name that ends in a dot and characters that
    are neither dots nor separators, after a stem whose last character
    is the underscore-free [x]. *)
Lemma splitext_of_stem (stem e : list ascii) (x : ascii) :
  is_dot x = false -> is_sep x = false -> is_sep "."%char = false ->
  Forall (fun c => is_dot c = false) e ->
  Forall (fun c => is_sep c = false) e ->
  splitext is_sep ((stem ++ [x]) ++ "."%char :: e) = (stem ++ [x], "."%char :: e).
Proof.
  intros Hx Hsx Hsd He Hse. unfold splitext.
  rewrite (rfind_last is_dot (stem ++ [x]) e "."%char eq_refl He).
  assert (Hs : rfind is_sep ((stem ++ [x]) ++ "."%char :: e) = rfind is_sep stem).
  { destruct (rfind_split is_sep stem)
      as [[Hr Hall] | (a & c & b & -> & Hc & Hb & Hr)].
    - rewrite Hr. apply rfind_none. rewrite !Forall_app.
      repeat split; try assumption; repeat constructor; assumption.
    - rewrite Hr. rewrite <- !app_assoc. cbn [app]. apply rfind_last; [exact Hc|].
      rewrite !Forall_app. repeat split; try assumption;
        repeat constructor; assumption. }
  rewrite Hs. pose proof (rfind_bound is_sep stem) as Hb.
  assert (Hlt : (rfind is_sep stem <? Z.of_nat (length (stem ++ [x]))) = true).
  { apply Z.ltb_lt. rewrite length_app. cbn [length]. lia. }
  rewrite Hlt. cbn [andb].
  assert (Hn : has_name ((stem ++ [x]) ++ "."%char :: e) (rfind is_sep stem + 1)
                        (Z.of_nat (length (stem ++ [x]))) = true).
  { unfold has_name. apply existsb_exists. exists x. split; [|now rewrite Hx].
    rewrite <- app_assoc. cbn [app]. apply in_slice; [|lia].
    rewrite length_app. cbn [length]. lia. }
  rewrite Hn. destruct (firstn_skipn_at (stem ++ [x]) ("."%char :: e)) as [-> ->].
  reflexivity.
Qed.

(** X19: the output of the audio fix keeps the extension of its input.
    Split again, the name [run_audio_fix] gives its output has the
    stem of the input followed by ["_fixed"], and the extension of the
    input, or [".mp4"] when the input has none. *)
Theorem audio_fix_output_keeps_extension (p : list ascii) :
  (forall c, In c (list_ascii_of_string "_fixed.mp4") -> is_sep c = false) ->
  splitext is_sep (audio_fix_output is_sep p)
  = (fst (splitext is_sep p) ++ list_ascii_of_string "_fixed",
     match snd (splitext is_sep p) with
     | [] => list_ascii_of_string ".mp4"
     | _ :: _ => snd (splitext is_sep p)
     end).
Proof.
  intro Hsep.
  assert (Hd : is_sep "."%char = false) by (apply Hsep; cbn; tauto).
  assert (Hdd : is_sep "d"%char = false) by (apply Hsep; cbn; tauto).
  pose proof (splitext_parts p) as H. unfold audio_fix_output.
  destruct (splitext is_sep p) as [root ext]. cbn [fst snd].
  destruct H as [_ He].
  change (list_ascii_of_string "_fixed")
    with (list_ascii_of_string "_fixe" ++ ["d"%char]).
  destruct He as [-> | (e & -> & Hed & Hes)].
  - rewrite !app_assoc.
    change (list_ascii_of_string ".mp4") with ("."%char :: list_ascii_of_string "mp4").
    rewrite (splitext_of_stem _ (list_ascii_of_string "mp4") "d"%char
               eq_refl Hdd Hd).
    + reflexivity.
    + repeat constructor.
    + repeat constructor; apply Hsep; cbn; tauto.
  - rewrite !app_assoc.
    rewrite (splitext_of_stem _ e "d"%char eq_refl Hdd Hd Hed Hes).
    reflexivity.
Qed.

End Splitext.

Lemma outputs_differ_from_inputs_witness :
  output_name nt_sep (list_ascii_of_string "C:/v/film.mkv") (list_ascii_of_string "mp4")
  <> video_name nt_sep (list_ascii_of_string "C:/v/film.mkv").
Proof.
  assert (Hsep : Forall (fun c => nt_sep c = false)
                        (list_ascii_of_string "_compressed."
                         ++ list_ascii_of_string "mp4"))
    by (repeat constructor).
  exact (proj2 (proj2 (proj2
           (outputs_differ_from_inputs nt_sep (list_ascii_of_string "C:/v/film.mkv")
              (list_ascii_of_string "mp4")))) Hsep).
Defined.

(** With a separator in the extension asked for, the two names ffmpeg
    is given can be the same, though the two paths differ. *)
Lemma output_name_can_be_the_video_name :
  let p := list_ascii_of_string "C:/v/film.mkv" in
  let ext := list_ascii_of_string "/../film.mkv" in
  compression_output nt_sep p ext
  = list_ascii_of_string "C:/v/film_compressed./../film.mkv"
  /\ output_name nt_sep p ext = list_ascii_of_string "film.mkv"
  /\ video_name nt_sep p = list_ascii_of_string "film.mkv".
Proof. repeat split. Qed.

Lemma audio_fix_output_keeps_extension_witness :
  splitext nt_sep (audio_fix_output nt_sep (list_ascii_of_string "C:/v/film.mkv"))
  = (list_ascii_of_string "C:/v/film_fixed", list_ascii_of_string ".mkv").
Proof.
  assert (Hsep : forall c, In c (list_ascii_of_string "_fixed.mp4") ->
                           nt_sep c = false).
  { intros c Hc. cbn in Hc.
    repeat (destruct Hc as [<- | Hc]; [reflexivity|]). destruct Hc. }
  exact (audio_fix_output_keeps_extension
           nt_sep (list_ascii_of_string "C:/v/film.mkv") Hsep).
Defined.

End PathsFacts.

(** ** Reading a time stamp *)

Module ParseFacts.
Import Py PyFacts FloatFacts Stated StatusLine.

Lemma substring_all (s : string) : substring 0 (String.length s) s = s.
Proof. induction s as [|c s IH]; cbn; [reflexivity | now rewrite IH]. Qed.

Lemma drop_prefix_time (s : string) :
  drop_prefix "time=" (String.append "time=" s) = Some s.
Proof.
  unfold drop_prefix. cbn.
  assert (String.prefix "" s = true) as -> by (destruct s; reflexivity).
  now rewrite Nat.sub_0_r, substring_all.
Qed.

Lemma span_digits_app (ds rest : string) :
  all_digits (list_ascii_of_string ds) -> no_digit_ahead rest ->
  span_digits (String.append ds rest) = (ds, rest).
Proof.
  intros Hds Hrest. induction ds as [|c ds IH]; cbn [String.append].
  - destruct rest as [|c r]; [reflexivity|].
    cbn [span_digits]. cbn in Hrest. now rewrite Hrest.
  - cbn [list_ascii_of_string] in Hds. inversion Hds as [|? ? Hc Hds']; subst.
    cbn [span_digits]. rewrite Hc, (IH Hds'). reflexivity.
Qed.

Lemma digits_then_app (sep : ascii) (ds rest : string) :
  all_digits (list_ascii_of_string ds) -> ds <> "" -> is_digit sep = false ->
  digits_then sep (String.append ds (String sep rest)) = Some (ds, rest).
Proof.
  intros Hds Hne Hsep. unfold digits_then.
  rewrite (span_digits_app ds (String sep rest) Hds Hsep).
  destruct ds as [|c ds]; [contradiction|]. now rewrite Ascii.eqb_refl.
Qed.

Lemma match_time_here_other (c : ascii) (s : string) :
  c <> "t"%char -> match_time_here (String c s) = None.
Proof.
  intro Hc. unfold match_time_here, drop_prefix. cbn [String.prefix].
  destruct (ascii_dec "t" c) as [E | _]; [congruence | reflexivity].
Qed.

Lemma search_time_skip (before s : string) :
  Forall (fun c => c <> "t"%char) (list_ascii_of_string before) ->
  search_time (String.append before s) = search_time s.
Proof.
  induction before as [|c before IH]; cbn [String.append list_ascii_of_string];
    intro H; [reflexivity|].
  inversion H as [|? ? Hc Hrest]; subst.
  cbn [search_time]. rewrite (match_time_here_other c _ Hc). apply IH, Hrest.
Qed.

Lemma match_time_here_stamp (h m si sf rest : string) :
  all_digits (list_ascii_of_string h) -> h <> "" ->
  all_digits (list_ascii_of_string m) -> m <> "" ->
  all_digits (list_ascii_of_string si) -> si <> "" ->
  all_digits (list_ascii_of_string sf) -> sf <> "" ->
  no_digit_ahead rest ->
  match_time_here
    (String.append "time="
       (String.append h (String ":"
          (String.append m (String ":"
             (String.append si (String "."
                (String.append sf rest)))))))) 
  = Some (h, m, (si, sf)).
Proof.
  intros Hh Hhn Hm Hmn Hsi Hsin Hsf Hsfn Hrest. unfold match_time_here.
  rewrite drop_prefix_time.
  rewrite (digits_then_app ":" h _ Hh Hhn eq_refl).
  rewrite (digits_then_app ":" m _ Hm Hmn eq_refl).
  rewrite (digits_then_app "." si _ Hsi Hsin eq_refl).
  rewrite (span_digits_app sf rest Hsf Hrest).
  destruct sf; [contradiction | reflexivity].
Qed.

Lemma all_digits_append (a b : string) :
  all_digits (list_ascii_of_string a) -> all_digits (list_ascii_of_string b) ->
  all_digits (list_ascii_of_string (String.append a b)).
Proof.
  intros Ha Hb. induction a as [|c a IH]; cbn [String.append list_ascii_of_string];
    [exact Hb|].
  cbn [list_ascii_of_string] in Ha. inversion Ha; subst.
  constructor; [assumption | apply IH; assumption].
Qed.

(** The position computed from the groups of a time stamp, against
    the number the stamp writes. *)
Lemma cur_time_near (h m si sf : string) :
  all_digits (list_ascii_of_string h) -> all_digits (list_ascii_of_string m) ->
  all_digits (list_ascii_of_string si) -> all_digits (list_ascii_of_string sf) ->
  let written :=
    (inject_Z (int_of_digits h * 3600 + int_of_digits m * 60)
     + Qmake (int_of_digits (String.append si sf))
             (Z.to_pos (10 ^ Z.of_nat (String.length sf))))%Q in
  (Qabs (Compression.cur_time_of (h, m, (si, sf)) - written)
   <= pow2 (-51) * written)%Q.
Proof.
  intros Hh Hm Hsi Hsf written.
  set (n := int_of_digits h * 3600 + int_of_digits m * 60) in *.
  set (s := Qmake (int_of_digits (String.append si sf))
                  (Z.to_pos (10 ^ Z.of_nat (String.length sf)))) in *.
  assert (Hn : (0 <= inject_Z n)%Q).
  { change 0%Q with (inject_Z 0). rewrite <- Zle_Qle.
    pose proof (digits_val_nonneg _ Hh). pose proof (digits_val_nonneg _ Hm).
    unfold n, int_of_digits. lia. }
  assert (Hs : (0 <= s)%Q).
  { unfold s, Qle. simpl.
    pose proof (digits_val_nonneg _ (all_digits_append si sf Hsi Hsf)).
    unfold int_of_digits. lia. }
  destruct (nearest_error_pos (inject_Z n) Hn) as [A1 A2].
  destruct (nearest_error_pos s Hs) as [B1 B2].
  unfold Compression.cur_time_of, add.
  change (float_of_int n) with (nearest (inject_Z n)).
  change (float_of_fixed si sf) with (nearest s).
  set (a := nearest (inject_Z n)) in *. set (b := nearest s) in *.
  assert (He : (Qabs (a + b - written) <= pow2 (-53) * written)%Q).
  { apply Qabs_Qle_condition. unfold written. rewrite pow2_53 in *. lra. }
  assert (Hw : (Qabs written <= written)%Q).
  { rewrite Qabs_pos; [apply Qle_refl | unfold written; lra]. }
  pose proof (nearest_step _ _ _ _ He Hw) as H.
  eapply Qle_trans; [exact H|].
  assert (E51 : pow2 (-51) = 1 # 2251799813685248) by reflexivity.
  rewrite E51, pow2_53. unfold written. lra.
Qed.

(** X20: the progress loops read the time stamp of a status line of
    the transcoder. In a line made of a text without the letter [t],
    then [time=H:M:S.F] with four non-empty groups of digits, then a
    text that does not start with a digit, the pattern is found with
    these four groups. The position it stands for is the float
    [run_compression] computes from them, which is within a relative
    [2^-51] of the [3600 H + 60 M + S + F / 10^|F|] seconds the stamp
    writes, and need not be that number. *)
Theorem time_stamp_is_found (before h m si sf rest : string) :
  Forall (fun c => c <> "t"%char) (list_ascii_of_string before) ->
  all_digits (list_ascii_of_string h) -> h <> "" ->
  all_digits (list_ascii_of_string m) -> m <> "" ->
  all_digits (list_ascii_of_string si) -> si <> "" ->
  all_digits (list_ascii_of_string sf) -> sf <> "" ->
  no_digit_ahead rest ->
  let line :=
    String.append before
      (String.append "time="
         (String.append h (String ":"
            (String.append m (String ":"
               (String.append si (String "."
                  (String.append sf rest)))))))) in
  let written :=
    (inject_Z (int_of_digits h * 3600 + int_of_digits m * 60)
     + Qmake (int_of_digits (String.append si sf))
             (Z.to_pos (10 ^ Z.of_nat (String.length sf))))%Q in
  search_time line = Some (h, m, (si, sf))
  /\ contains "time=" line = true
  /\ times [line] = [Compression.cur_time_of (h, m, (si, sf))]
  /\ (Qabs (Compression.cur_time_of (h, m, (si, sf)) - written)
      <= pow2 (-51) * written)%Q.
Proof.
  intros Hb Hh Hhn Hm Hmn Hsi Hsin Hsf Hsfn Hrest line written.
  assert (Hs : search_time line = Some (h, m, (si, sf))).
  { subst line. rewrite (search_time_skip _ _ Hb).
    pose proof (match_time_here_stamp h m si sf rest
                  Hh Hhn Hm Hmn Hsi Hsin Hsf Hsfn Hrest) as Hm'.
    cbn [String.append] in Hm' |- *. cbn [search_time]. now rewrite Hm'. }
  split; [exact Hs|]. split; [|split].
  - eapply ProgressFacts.search_time_contains, Hs.
  - cbn [times]. rewrite Hs. reflexivity.
  - apply cur_time_near; assumption.
Qed.

Lemma time_stamp_is_found_witness :
  search_time "frame=  100 fps= 25 q=28.0 size=     256kB time=00:01:23.45 bitrate= 100.0kbits/s"
  = Some ("00", "01", ("23", "45")).
Proof.
  assert (Hb : Forall (fun c => c <> "t"%char)
                 (list_ascii_of_string "frame=  100 fps= 25 q=28.0 size=     256kB "))
    by (repeat constructor; discriminate).
  assert (Hd0 : all_digits (list_ascii_of_string "00")) by (repeat constructor).
  assert (Hd1 : all_digits (list_ascii_of_string "01")) by (repeat constructor).
  assert (Hd2 : all_digits (list_ascii_of_string "23")) by (repeat constructor).
  assert (Hd3 : all_digits (list_ascii_of_string "45")) by (repeat constructor).
  assert (Hr : no_digit_ahead " bitrate= 100.0kbits/s") by reflexivity.
  exact (proj1 (time_stamp_is_found
                  "frame=  100 fps= 25 q=28.0 size=     256kB " "00" "01" "23" "45"
                  " bitrate= 100.0kbits/s"
                  Hb Hd0 ltac:(discriminate) Hd1 ltac:(discriminate)
                  Hd2 ltac:(discriminate) Hd3 ltac:(discriminate) Hr)).
Defined.

(** The stamp [00:05:32.16] is read as the float next to 332.16. *)
Lemma time_stamp_is_rounded :
  times ["frame=  400 time=00:05:32.16 bitrate= 100.0kbits/s"]
  = [2921710258256609 # 8796093022208]
  /\ ~ (2921710258256609 # 8796093022208 == 33216 # 100)%Q.
Proof. split; [vm_compute; reflexivity | discriminate]. Qed.

End ParseFacts.
